(** * Vidown: download orchestration, shallow embedding and properties

    The extension queue manager ([service_worker.js], the copy in
    [unnamed/part_005]), the progress estimator ([fmtPercent],
    [updateSpeedAndEta] and the Go [sendProgress]), the Go job runner
    ([internal/job]), the Node HLS downloader and the length-prefixed
    control protocol ([internal/ipc/native.go]). *)

From Stdlib Require Import String Ascii List NArith ZArith QArith Qround Qabs Lia Bool Arith Permutation.
Import ListNotations.
Open Scope nat_scope.
Open Scope string_scope.

(** ** Shared helpers *)

(** Decimal rendering of a natural number, as JS template literals do. *)
Fixpoint digits_rev (fuel n : nat) : string :=
  match fuel with
  | 0 => ""
  | S f =>
      let d := ascii_of_nat (48 + n mod 10) in
      if Nat.ltb n 10 then String d ""
      else String d (digits_rev f (n / 10))
  end.

Fixpoint rev_string (s : string) : string :=
  match s with
  | "" => ""
  | String c r => rev_string r ++ String c ""
  end.

Definition string_of_nat (n : nat) : string := rev_string (digits_rev (S n) n).

(** Replace the [i]-th element of a list by [f] of it; out of range the
    list is unchanged (the store is only updated at existing ids). *)
Fixpoint list_upd {A} (l : list A) (i : nat) (f : A -> A) : list A :=
  match l, i with
  | [], _ => []
  | x :: r, 0 => f x :: r
  | x :: r, S k => x :: list_upd r k f
  end.

(** ASCII lower-casing, for the case-insensitive regexes. *)
Definition lower (c : ascii) : ascii :=
  let n := nat_of_ascii c in
  if Nat.leb 65 n && Nat.leb n 90 then ascii_of_nat (n + 32) else c.

Fixpoint lower_s (s : string) : string :=
  match s with "" => "" | String c r => String (lower c) (lower_s r) end.


(** Strict comparison of rationals, as a boolean. *)
Definition Qlt_bool (a b : Q) : bool := negb (Qle_bool b a).

(** ** IEEE 754 binary64 arithmetic (JS numbers, Go float64)

    A finite double is represented by its exact rational value.  Every
    arithmetic result is rounded to the nearest double, ties to even, with
    a 53-bit significand and subnormals down to 2^-1074.  The byte counts
    and times of this program stay far below 2^1024, so overflow to
    infinity does not arise and is not modelled. *)
Module F.
Open Scope Z_scope.

(** [n / d] rounded to the nearest integer, ties to even ([d > 0]). *)
Definition rne (n d : Z) : Z :=
  let q := n / d in
  let r := n mod d in
  match Z.compare (2 * r) d with
  | Lt => q
  | Gt => q + 1
  | Eq => if Z.even q then q else q + 1
  end.

(** The double nearest to [a / d], for [a >= 0] and [d > 0]. *)
Definition round_pos (a d : Z) : Q :=
  if a =? 0 then 0%Q else
  (* floor (log2 (a / d)) is [e0] or [e0 - 1] *)
  let e0 := Z.log2 a - Z.log2 d in
  let ge := if 0 <=? e0 then d * 2 ^ e0 <=? a else d <=? a * 2 ^ (- e0) in
  let e := if ge then e0 else e0 - 1 in
  let k := Z.max (e - 52) (-1074) in
  if 0 <=? k then inject_Z (rne a (d * 2 ^ k) * 2 ^ k)
  else Qred (Qmake (rne (a * 2 ^ (- k)) d) (Z.to_pos (2 ^ (- k)))).

Definition round (x : Q) : Q :=
  let n := Qnum x in
  let d := Zpos (Qden x) in
  if n <? 0 then Qopp (round_pos (- n) d) else round_pos n d.

Definition add (x y : Q) : Q := round (x + y).
Definition sub (x y : Q) : Q := round (x - y).
Definition mul (x y : Q) : Q := round (x * y).
Definition div (x y : Q) : Q := round (x / y).
Definition of_Z (z : Z) : Q := round (inject_Z z).

(** Go's [int(f)] / [int64(f)]: truncation toward zero. *)
Definition trunc (x : Q) : Z := if Qle_bool 0 x then Qfloor x else Qceiling x.

End F.

Module Queue.

(** ** Jobs of the extension queue manager ([enqueueJob]) *)

Inductive JState := Queued | Active | Paused | Retrying | Complete | Error | Cancelled.

Definition JState_eqb (a b : JState) : bool :=
  match a, b with
  | Queued, Queued | Active, Active | Paused, Paused | Retrying, Retrying
  | Complete, Complete | Error, Error | Cancelled, Cancelled => true
  | _, _ => false
  end.

Lemma JState_eqb_eq a b : JState_eqb a b = true <-> a = b.
Proof. destruct a, b; simpl; split; congruence. Qed.

Record ConvertOpts := { container : string; vcodec : string; acodec : string }.

(** The fields of the job object that the queue manager reads or writes. *)
Record Job := {
  id : nat;                      (* the counter part of job-<ts>-<n> *)
  state : JState;
  url : string;
  mode : string;
  headers : list (string * string);
  convert : option ConvertOpts;  (* options.convert || null *)
  retries : nat;
  maxRetries : nat;
  error : option string
}.

Definition set_state (st : JState) (j : Job) : Job :=
  {| id := id j; state := st; url := url j; mode := mode j; headers := headers j;
     convert := convert j; retries := retries j; maxRetries := maxRetries j;
     error := error j |}.

Definition set_failure (st : JState) (r : nat) (e : string) (j : Job) : Job :=
  {| id := id j; state := st; url := url j; mode := mode j; headers := headers j;
     convert := convert j; retries := r; maxRetries := maxRetries j;
     error := Some e |}.

(** [detectMode]: /\.m3u8($|\?)/i, /\.mpd($|\?)/i, 'blob:' prefix. *)
Fixpoint ext_here (ext s : string) : bool :=
  match ext, s with
  | "", "" => true
  | "", String c _ => Ascii.eqb c "?"%char
  | String e er, String c cr => Ascii.eqb e (lower c) && ext_here er cr
  | String _ _, "" => false
  end.

Fixpoint ext_search (ext s : string) : bool :=
  match s with
  | "" => ext_here ext s
  | String _ r => ext_here ext s || ext_search ext r
  end.

Definition detectMode (u : string) : string :=
  if ext_search ".m3u8" u then "hls"
  else if ext_search ".mpd" u then "dash"
  else if String.prefix "blob:" u then "blob"
  else "http".

(** The item and options of a VIDOWN_ENQUEUE message.  [item_mode] is
    [None] when the field is absent or empty. *)
Record Item := {
  item_url : string;
  item_mode : option string;
  item_headers : list (string * string);
  opt_convert : option ConvertOpts
}.

Definition newJob (n : nat) (it : Item) : Job :=
  {| id := n; state := Queued; url := item_url it;
     mode := match item_mode it with Some m => m | None => detectMode (item_url it) end;
     headers := item_headers it; convert := opt_convert it;
     retries := 0; maxRetries := 3; error := None |}.

(** ** Queue manager state *)

Inductive Transport := ChromeDownloads | NativeApp.

Definition MAX_CONCURRENT := 2.

Record St := {
  jobs : list Job;                 (* every job object ever created, by id *)
  jobQueue : list nat;             (* pending jobs, front first *)
  activeJobs : list nat;           (* the keys of the activeJobs Map *)
  timers : list (nat * Z);         (* pending retry setTimeouts: job, delay ms *)
  nativePort : bool;               (* nativePort != null *)
  nativeInstalled : bool;          (* whether connectNative succeeds *)
  dispatched : list (nat * Transport);  (* downloads started, in order *)
  broadcasts : list (string * nat * JState)  (* broadcastJobUpdate calls *)
}.

Definition init (installed : bool) : St :=
  {| jobs := []; jobQueue := []; activeJobs := []; timers := [];
     nativePort := false; nativeInstalled := installed;
     dispatched := []; broadcasts := [] |}.

Definition mkSt js q a t p i d b : St :=
  {| jobs := js; jobQueue := q; activeJobs := a; timers := t;
     nativePort := p; nativeInstalled := i; dispatched := d; broadcasts := b |}.

Definition set_jobs js s := mkSt js (jobQueue s) (activeJobs s) (timers s)
  (nativePort s) (nativeInstalled s) (dispatched s) (broadcasts s).
Definition set_queue q s := mkSt (jobs s) q (activeJobs s) (timers s)
  (nativePort s) (nativeInstalled s) (dispatched s) (broadcasts s).
Definition set_active a s := mkSt (jobs s) (jobQueue s) a (timers s)
  (nativePort s) (nativeInstalled s) (dispatched s) (broadcasts s).
Definition set_timers t s := mkSt (jobs s) (jobQueue s) (activeJobs s) t
  (nativePort s) (nativeInstalled s) (dispatched s) (broadcasts s).
Definition set_port p s := mkSt (jobs s) (jobQueue s) (activeJobs s) (timers s)
  p (nativeInstalled s) (dispatched s) (broadcasts s).
Definition add_dispatch e s := mkSt (jobs s) (jobQueue s) (activeJobs s) (timers s)
  (nativePort s) (nativeInstalled s) (dispatched s ++ [e]) (broadcasts s).

Definition job_at (s : St) (i : nat) : option Job := nth_error (jobs s) i.

Definition upd (i : nat) (f : Job -> Job) (s : St) : St :=
  set_jobs (list_upd (jobs s) i f) s.

(** [broadcastJobUpdate(type, job)]: the job's state at the time of the call. *)
Definition broadcast (ty : string) (i : nat) (s : St) : St :=
  match job_at s i with
  | Some j => mkSt (jobs s) (jobQueue s) (activeJobs s) (timers s)
                (nativePort s) (nativeInstalled s) (dispatched s)
                (broadcasts s ++ [(ty, i, state j)])
  | None => s
  end.

(** [activeJobs.set(id, job)] and [activeJobs.delete(id)]. *)
Definition map_set (i : nat) (l : list nat) : list nat :=
  if existsb (Nat.eqb i) l then l else l ++ [i].

Definition map_delete (i : nat) (l : list nat) : list nat := remove Nat.eq_dec i l.

(** [!job.headers.Cookie]: the property is missing or the empty string. *)
Fixpoint lookup (k : string) (h : list (string * string)) : option string :=
  match h with
  | [] => None
  | (k', v) :: r => if String.eqb k k' then Some v else lookup k r
  end.

Definition cookie_truthy (h : list (string * string)) : bool :=
  match lookup "Cookie" h with Some v => negb (String.eqb v "") | None => false end.

Definition convert_truthy (c : option ConvertOpts) : bool :=
  match c with Some _ => true | None => false end.

(** The routing test of [startJob]. *)
Definition route (j : Job) : Transport :=
  if String.eqb (mode j) "http" && negb (cookie_truthy (headers j))
     && negb (convert_truthy (convert j))
  then ChromeDownloads else NativeApp.

(** [handleJobError], parameterised by the [processQueue] it calls. *)
Definition handleJobError_with (pq : St -> St) (i : nat) (err : string) (s : St) : St :=
  match job_at s i with
  | None => s
  | Some j =>
      let r := S (retries j) in
      if Nat.ltb r (maxRetries j) then
        let delay := Z.min (1000 * 2 ^ Z.of_nat r) 30000 %Z in
        let e := err ++ " (retry " ++ string_of_nat r ++ "/"
                     ++ string_of_nat (maxRetries j) ++ ")" in
        let s1 := upd i (set_failure Retrying r e) s in
        let s2 := broadcast "JOB_PROGRESS" i s1 in
        set_timers (timers s2 ++ [(i, delay)]) s2
      else
        let s1 := upd i (set_failure Error r err) s in
        let s2 := set_active (map_delete i (activeJobs s1)) s1 in
        pq (broadcast "JOB_ERROR" i s2)
  end.

(** [startNativeDownload]: connect on demand; without a port the job
    fails synchronously through [handleJobError]. *)
Definition startNativeDownload_with (pq : St -> St) (i : nat) (s : St) : St :=
  let s1 := if nativePort s then s else set_port (nativeInstalled s) s in
  if nativePort s1 then add_dispatch (i, NativeApp) s1
  else handleJobError_with pq i "Native companion app not available" s1.

(** [startJob]. *)
Definition startJob_with (pq : St -> St) (i : nat) (s : St) : St :=
  let s1 := upd i (set_state Active) s in
  let s2 := set_active (map_set i (activeJobs s1)) s1 in
  let s3 := broadcast "JOB_PROGRESS" i s2 in
  match job_at s3 i with
  | None => s3
  | Some j =>
      match route j with
      | ChromeDownloads => add_dispatch (i, ChromeDownloads) s3
      | NativeApp => startNativeDownload_with pq i s3
      end
  end.

(** [processQueue]: while (activeJobs.size < MAX_CONCURRENT && jobQueue.length > 0).
    Each round shifts one job, so [S (length jobQueue)] rounds suffice. *)
Fixpoint processQueue_fuel (fuel : nat) (s : St) : St :=
  match fuel with
  | 0 => s
  | S f =>
      if Nat.ltb (length (activeJobs s)) MAX_CONCURRENT then
        match jobQueue s with
        | [] => s
        | i :: q => processQueue_fuel f (startJob_with (processQueue_fuel f) i (set_queue q s))
        end
      else s
  end.

Definition processQueue (s : St) : St := processQueue_fuel (S (length (jobQueue s))) s.

Definition handleJobError := handleJobError_with processQueue.
Definition startJob := startJob_with processQueue.

(** [completeJob]. *)
Definition completeJob (i : nat) (s : St) : St :=
  let s1 := upd i (set_state Complete) s in
  let s2 := set_active (map_delete i (activeJobs s1)) s1 in
  processQueue (broadcast "JOB_DONE" i s2).

(** [enqueueJob]. *)
Definition enqueueJob (it : Item) (s : St) : St :=
  let n := length (jobs s) in
  let s1 := set_jobs (jobs s ++ [newJob n it]) s in
  let s2 := set_queue (jobQueue s1 ++ [n]) s1 in
  processQueue (broadcast "JOB_ADDED" n s2).

(** [jobQueue.findIndex] and [splice(idx, 1)]. *)
Fixpoint remove_first (i : nat) (l : list nat) : list nat :=
  match l with
  | [] => []
  | x :: r => if Nat.eqb x i then r else x :: remove_first i r
  end.

(** [cancelJob]. *)
Definition cancelJob (i : nat) (s : St) : St :=
  if existsb (Nat.eqb i) (activeJobs s) then
    let s1 := upd i (set_state Cancelled) s in
    let s2 := set_active (map_delete i (activeJobs s1)) s1 in
    processQueue (broadcast "JOB_ERROR" i s2)
  else if existsb (Nat.eqb i) (jobQueue s) then
    let s1 := set_queue (remove_first i (jobQueue s)) s in
    broadcast "JOB_ERROR" i (upd i (set_state Cancelled) s1)
  else s.

(** [pauseJob] and [resumeJob]. *)
Definition pauseJob (i : nat) (s : St) : St :=
  if existsb (Nat.eqb i) (activeJobs s)
  then broadcast "JOB_PROGRESS" i (upd i (set_state Paused) s) else s.

Definition resumeJob (i : nat) (s : St) : St :=
  if existsb (Nat.eqb i) (activeJobs s)
  then broadcast "JOB_PROGRESS" i (upd i (set_state Active) s) else s.

(** The retry [setTimeout] callback of the [k]-th pending timer. *)
Definition fireTimer (k : nat) (s : St) : St :=
  match nth_error (timers s) k with
  | None => s
  | Some (i, _) =>
      let s0 := set_timers (firstn k (timers s) ++ skipn (S k) (timers s)) s in
      let s1 := set_active (map_delete i (activeJobs s0)) s0 in
      processQueue (set_queue (i :: jobQueue s1) s1)
  end.

(** Messages of the native companion ([handleNativeMessage]): only for
    jobs present in [activeJobs]. *)
Inductive NativeMsg := NProgress | NDone | NError (e : string).

Definition handleNativeMessage (i : nat) (m : NativeMsg) (s : St) : St :=
  if existsb (Nat.eqb i) (activeJobs s) then
    match m with
    | NProgress => broadcast "JOB_PROGRESS" i s
    | NDone => completeJob i s
    | NError e => handleJobError i e s
    end
  else s.

(** Everything that drives the queue manager.  Download events
    ([chrome.downloads.onChanged], the download callback) are looked up in
    the DL map, not in [activeJobs]; they are allowed here for any job. *)
Inductive Event :=
  | EvEnqueue (it : Item)
  | EvNative (i : nat) (m : NativeMsg)
  | EvDownloadComplete (i : nat)
  | EvDownloadFailed (i : nat) (e : string)
  | EvCancel (i : nat)
  | EvPause (i : nat)
  | EvResume (i : nat)
  | EvTimer (k : nat)
  | EvDisconnect.

Definition step (s : St) (ev : Event) : St :=
  match ev with
  | EvEnqueue it => enqueueJob it s
  | EvNative i m => handleNativeMessage i m s
  | EvDownloadComplete i => completeJob i s
  | EvDownloadFailed i e => handleJobError i e s
  | EvCancel i => cancelJob i s
  | EvPause i => pauseJob i s
  | EvResume i => resumeJob i s
  | EvTimer k => fireTimer k s
  | EvDisconnect => set_port false s
  end.

Definition run (s : St) (evs : list Event) : St := fold_left step evs s.

Definition is_active (s : St) (i : nat) : bool :=
  match job_at s i with Some j => JState_eqb (state j) Active | None => false end.

(** Number of job objects whose [state] is 'active'. *)
Definition count_active (s : St) : nat :=
  length (filter (is_active s) (seq 0 (length (jobs s)))).

End Queue.

(** ** Lemmas on the queue manager *)
(** ** The progress estimator of the extension ([fmtPercent],
    [updateSpeedAndEta], [chrome.downloads.onChanged], the native
    'progress' message) *)
Module Progress.
Open Scope Q_scope.

(** The job-object fields the estimator reads and writes.  JS numbers are
    doubles (their exact value, see [F]); [None] is null / undefined.
    [expectedTotalBytes] is read by [updateSpeedAndEta] but no code ever
    assigns it on a job object. *)
Record PJob := {
  size : option Q;
  expectedTotalBytes : option Q;
  bytesReceived : Q;
  speedBytesPerSec : option Q;
  etaSeconds : option Z;
  percent : option Z;
  lastTick : Q
}.

(** JS truthiness of a number ([0] is falsy) and [a || b]. *)
Definition truthy (x : Q) : bool := negb (Qeq_bool x 0).
Definition js_or (a : option Q) (b : Q) : Q :=
  match a with Some v => if truthy v then v else b | None => b end.
Definition js_max (a b : Q) : Q := if Qle_bool a b then b else a.
Definition js_min (a b : Z) : Z := Z.min a b.

(** [fmtPercent(bytes, total)]. *)
Definition fmtPercent (bytes total : Q) : option Z :=
  if negb (truthy total) || Qle_bool total 0 then None
  else Some (Z.max 0 (js_min 100 (Qfloor (F.mul (F.div bytes total) 100)))).

(** [updateSpeedAndEta(job, bytesReceived)] at clock [t] ([nowMs()]). *)
Definition updateSpeedAndEta (t : Q) (br : Q) (job : PJob) : PJob :=
  let dt := F.div (F.sub t (js_or (Some (lastTick job)) t)) 1000 in
  let dBytes := F.sub br (js_or (Some (bytesReceived job)) 0) in
  let inst := if Qlt_bool 0 dt then F.div dBytes dt else 0 in
  (* [!Number.isFinite(inst) || inst < 0]: every value here is finite *)
  let inst := if Qlt_bool inst 0 then 0 else inst in
  let alpha := 1 # 4 in
  let speed :=
    match speedBytesPerSec job with
    | None => inst
    | Some e => F.add (F.mul alpha inst) (F.mul (F.sub 1 alpha) e)
    end in
  let remaining :=
    if Qlt_bool 0 (js_or (expectedTotalBytes job) 0) then
      match expectedTotalBytes job with
      | Some etb => Some (js_max 0 (F.sub etb br))
      | None => None
      end
    else None in
  let eta :=
    match remaining with
    | Some r => if Qlt_bool 0 speed then Some (Qceiling (F.div r speed)) else None
    | None => None
    end in
  {| size := size job; expectedTotalBytes := expectedTotalBytes job;
     bytesReceived := bytesReceived job; speedBytesPerSec := Some speed;
     etaSeconds := eta; percent := percent job; lastTick := t |}.

Definition set_size (v : option Q) (j : PJob) : PJob :=
  {| size := v; expectedTotalBytes := expectedTotalBytes j;
     bytesReceived := bytesReceived j; speedBytesPerSec := speedBytesPerSec j;
     etaSeconds := etaSeconds j; percent := percent j; lastTick := lastTick j |}.
Definition set_bytes (v : Q) (j : PJob) : PJob :=
  {| size := size j; expectedTotalBytes := expectedTotalBytes j;
     bytesReceived := v; speedBytesPerSec := speedBytesPerSec j;
     etaSeconds := etaSeconds j; percent := percent j; lastTick := lastTick j |}.
Definition set_percent (v : option Z) (j : PJob) : PJob :=
  {| size := size j; expectedTotalBytes := expectedTotalBytes j;
     bytesReceived := bytesReceived j; speedBytesPerSec := speedBytesPerSec j;
     etaSeconds := etaSeconds j; percent := v; lastTick := lastTick j |}.
Definition set_speed_eta (sp : option Q) (eta : option Z) (j : PJob) : PJob :=
  {| size := size j; expectedTotalBytes := expectedTotalBytes j;
     bytesReceived := bytesReceived j; speedBytesPerSec := sp;
     etaSeconds := eta; percent := percent j; lastTick := lastTick j |}.

(** The progress fields [enqueueJob] gives a new job: [size: item.size ||
    null], [speedBytesPerSec: 0], [etaSeconds: null], [percent: 0]. *)
Definition newPJob (item_size : option Q) (now : Q) : PJob :=
  {| size := (match item_size with Some v => if truthy v then Some v else None | None => None end);
     expectedTotalBytes := None; bytesReceived := 0; speedBytesPerSec := Some 0;
     etaSeconds := None; percent := Some 0%Z; lastTick := now |}.

(** A [chrome.downloads.onChanged] delta: [totalBytes.current] and
    [bytesReceived.current] when present. *)
Record Delta := { d_totalBytes : option Q; d_bytesReceived : option Q }.

(** The [onChanged] listener for a job found in [DL], at clock [t]. *)
Definition onChanged (t : Q) (d : Delta) (job : PJob) : PJob :=
  let job1 :=
    match d_totalBytes d with
    | Some tb =>
        if Qlt_bool 0 tb
        then set_size (match size job with Some v => Some v | None => Some tb end) job
        else job
    | None => job
    end in
  match d_bytesReceived d with
  | None => job1
  | Some br =>
      let job2 := set_bytes br job1 in
      let total := js_or (size job2) (js_or (d_totalBytes d) 0) in
      let job3 := set_percent (Some (match fmtPercent br total with
                                     | Some p => p | None => 0%Z end)) job2 in
      updateSpeedAndEta t br job3
  end.

Definition onChanged_run (job : PJob) (evs : list (Q * Delta)) : PJob :=
  fold_left (fun j e => onChanged (fst e) (snd e) j) evs job.

(** A 'progress' message of the native companion, as the extension reads
    it: [msg.bytesReceived], [msg.totalBytes], [msg.speedBps],
    [msg.etaSec], [msg.percent]. *)
Record NativeProgress := {
  np_bytesReceived : Q; np_totalBytes : Q; np_speedBps : Q;
  np_etaSec : Q; np_percent : Q
}.

(** The 'progress' branch of [handleNativeMessage]. *)
Definition onNativeProgress (m : NativeProgress) (job : PJob) : PJob :=
  let job1 := set_bytes (js_or (Some (np_bytesReceived m)) 0) job in
  let job2 := set_speed_eta (Some (js_or (Some (np_speedBps m)) 0))
                (if truthy (np_etaSec m) then Some (Qfloor (np_etaSec m)) else None) job1 in
  let pct :=
    if truthy (np_percent m) then Some (Qfloor (np_percent m))
    else if Qlt_bool 0 (np_totalBytes m)
    then fmtPercent (np_bytesReceived m) (np_totalBytes m)
    else Some 0%Z in
  set_percent pct job2.

End Progress.

(** ** The Go companion's [sendProgress] ([internal/job]) *)
Module GoProgress.
Open Scope Z_scope.

(** The [Job] fields [sendProgress] uses; [lastTick] in nanoseconds. *)
Record GJob := { ExpTotal : Z; speedEMA : Q; lastBytes : Z; lastTick : Z }.

(** The 'progress' message it sends. *)
Record ProgressMsg := {
  pm_bytesReceived : Z; pm_totalBytes : Z; pm_speedBps : Z;
  pm_etaSec : Z; pm_percent : Z
}.

(** [time.Duration.Seconds]: [float64(sec) + float64(nsec)/1e9]. *)
Definition Seconds (d : Z) : Q :=
  let sec := Z.quot d 1000000000 in
  let nsec := Z.rem d 1000000000 in
  F.add (F.of_Z sec) (F.div (F.of_Z nsec) 1000000000).

(** Go's [int(f)] and [int64(f)] on amd64 (where [int] has 64 bits):
    truncation toward zero; a value outside the int64 range gives the
    minimum int64, the "integer indefinite" of [CVTTSD2SQ]. *)
Definition to_int64 (x : Q) : Z :=
  let t := F.trunc x in
  if (- 2 ^ 63 <=? t) && (t <? 2 ^ 63) then t else - 2 ^ 63.

(** [job.sendProgress(bytesReceived, totalBytes)] at [now]: the new job
    fields and the message sent, if any. *)
Definition sendProgress (now : Z) (bytesReceived totalBytes : Z) (job : GJob)
  : GJob * option ProgressMsg :=
  let dt := Seconds (now - lastTick job) in
  if Qlt_bool dt (1 # 2) then (job, None) else
  let dBytes := bytesReceived - lastBytes job in
  let dBytes := if dBytes <? 0 then 0 else dBytes in
  let instSpeed := F.div (F.of_Z dBytes) dt in
  let ema :=
    if Qeq_bool (speedEMA job) 0 then instSpeed
    else F.add (F.mul (1 # 4) instSpeed) (F.mul (3 # 4) (speedEMA job)) in
  let '(etaSec, percent) :=
    if 0 <? totalBytes then
      let remaining := totalBytes - bytesReceived in
      let remaining := if remaining <? 0 then 0 else remaining in
      let etaSec := if Qlt_bool 0 ema then to_int64 (F.div (F.of_Z remaining) ema) else 0 in
      let percent := to_int64 (F.div (F.mul (F.of_Z bytesReceived) 100) (F.of_Z totalBytes)) in
      (etaSec, if 100 <? percent then 100 else percent)
    else (0, 0) in
  ({| ExpTotal := ExpTotal job; speedEMA := ema; lastBytes := bytesReceived; lastTick := now |},
   Some {| pm_bytesReceived := bytesReceived; pm_totalBytes := totalBytes;
           pm_speedBps := to_int64 ema; pm_etaSec := etaSec; pm_percent := percent |}).

End GoProgress.

(** ** The Go companion's job manager: [Manager.Start], [Manager.Cancel]
    and [Job.run] ([internal/job]) *)
Module GoJob.

(** How an ffmpeg process of a job ends when nothing kills it. *)
Inductive Exit := ExitOk | ExitErr (msg : string).

(** [m.jobs] maps an id to its job's context (an index into [ctxs], whose
    flags record [cancel()]); [goroutines] are the [job.run] calls still in
    flight, each with its job's id, mode and context; [sent] is the
    sequence of messages written by [ipc.Send], as (type, id). *)
Record Mgr := {
  mjobs : list (string * nat);
  ctxs : list bool;
  goroutines : list (string * string * nat);
  sent : list (string * string)
}.

Definition empty : Mgr := {| mjobs := []; ctxs := []; goroutines := []; sent := [] |}.

Fixpoint find_job (id : string) (l : list (string * nat)) : option nat :=
  match l with
  | [] => None
  | (k, c) :: r => if String.eqb k id then Some c else find_job id r
  end.

Definition del_job (id : string) (l : list (string * nat)) : list (string * nat) :=
  filter (fun kc => negb (String.eqb (fst kc) id)) l.

(** [Manager.Start]: [m.jobs[id] = job], send 'job-started', [go job.run(ctx)]. *)
Definition Start (id mode : string) (m : Mgr) : Mgr :=
  let c := length (ctxs m) in
  {| mjobs := (id, c) :: del_job id (mjobs m);
     ctxs := ctxs m ++ [false];
     goroutines := goroutines m ++ [(id, mode, c)];
     sent := sent m ++ [("job-started", id)] |}.

(** [Manager.Cancel]: for a job in the map, [job.cancel()], delete it,
    send 'canceled'. *)
Definition Cancel (id : string) (m : Mgr) : Mgr :=
  match find_job id (mjobs m) with
  | None => m
  | Some c =>
      {| mjobs := del_job id (mjobs m);
         ctxs := list_upd (ctxs m) c (fun _ => true);
         goroutines := goroutines m;
         sent := sent m ++ [("canceled", id)] |}
  end.

(** The error [job.run] gets from its download step: an unsupported mode
    fails at once; otherwise [ff.RunFFmpeg] returns [cmd.Wait()], and
    [exec.CommandContext] kills the process when the context is cancelled,
    so [Wait] reports the kill. *)
Definition download_err (mode : string) (cancelled : bool) (x : Exit) : option string :=
  if String.eqb mode "hls" || String.eqb mode "dash" || String.eqb mode "http" then
    if cancelled then Some "signal: killed"
    else match x with ExitOk => None | ExitErr e => Some e end
  else Some ("unsupported mode: " ++ mode).

(** How the rest of a job's [job.run] goes: the exit of the download's
    ffmpeg; the exit of the conversion's ffmpeg, [None] when the job has no
    conversion step ([job.Convert] nil or its container 'copy'); whether
    [os.Rename] of the '.part' file succeeds; and whether the run panics
    before its last [ipc.Send] (the deferred [recover] then sends 'error'
    with code 'panic'). *)
Record Outcome := { dl_exit : Exit; conv_exit : option Exit; rename_ok : bool; panics : bool }.

(** The error of the conversion step, run with the job's context. *)
Definition convert_err (cancelled : bool) (x : option Exit) : option string :=
  match x with
  | None => None
  | Some e => if cancelled then Some "signal: killed"
              else match e with ExitOk => None | ExitErr m => Some m end
  end.

(** The one message [job.run] ends with: 'error' with code
    'download_failed', 'convert_failed', 'rename_failed' or 'panic', or
    'done'. *)
Definition run_msg (md : string) (cancelled : bool) (x : Outcome) : string :=
  if panics x then "error" else
  match download_err md cancelled (dl_exit x) with
  | Some _ => "error"
  | None =>
      match convert_err cancelled (conv_exit x) with
      | Some _ => "error"
      | None => if rename_ok x then "done" else "error"
      end
  end.

Fixpoint take_goroutine (id : string) (l : list (string * string * nat))
  : option (string * nat) * list (string * string * nat) :=
  match l with
  | [] => (None, [])
  | (k, md, c) :: r =>
      if String.eqb k id then (Some (md, c), r)
      else let '(g, r') := take_goroutine id r in (g, (k, md, c) :: r')
  end.

(** The end of the [job.run] goroutine of [id], with its context's
    cancellation flag as it is then. *)
Definition Finish (id : string) (x : Outcome) (m : Mgr) : Mgr :=
  match take_goroutine id (goroutines m) with
  | (None, _) => m
  | (Some (md, c), rest) =>
      let cancelled := match nth_error (ctxs m) c with Some b => b | None => false end in
      {| mjobs := mjobs m; ctxs := ctxs m; goroutines := rest;
         sent := sent m ++ [(run_msg md cancelled x, id)] |}
  end.

(** Messages read by the host's main loop, and the end of a job's run. *)
Inductive GEvent :=
  | GStart (id mode : string)
  | GCancel (id : string)
  | GExit (id : string) (x : Outcome).

Definition gstep (m : Mgr) (e : GEvent) : Mgr :=
  match e with
  | GStart id md => Start id md m
  | GCancel id => Cancel id m
  | GExit id x => Finish id x m
  end.

Definition grun (m : Mgr) (evs : list GEvent) : Mgr := fold_left gstep evs m.

(** The terminal messages sent for [id]. *)
Definition terminal_events (id : string) (m : Mgr) : list string :=
  map fst (filter (fun e => String.eqb (snd e) id &&
                     (String.eqb (fst e) "done" || String.eqb (fst e) "error"
                      || String.eqb (fst e) "canceled")) (sent m)).

End GoJob.

(** ** The Node host's HLS downloader ([hls-downloader.js: downloadHLS]) on
    a file system given as the list of existing paths *)
Module NodeHLS.

(** What [downloadSegment] meets: a response with a status code (and the
    bytes piped for a 200), or a request 'error'. *)
Inductive SegResult := SegResponse (statusCode : nat) (bytes : nat) | SegNetError (msg : string).

Definition fs_add (p : string) (fs : list string) : list string :=
  if existsb (String.eqb p) fs then fs else fs ++ [p].
Definition fs_remove (p : string) (fs : list string) : list string :=
  filter (fun q => negb (String.eqb q p)) fs.

(** [i.toString().padStart(5, '0')]. *)
Fixpoint pad_left (fuel width : nat) (s : string) : string :=
  match fuel with
  | 0 => s
  | S f => if Nat.leb width (String.length s) then s else pad_left f width (String "0" s)
  end.
Definition pad5 (i : nat) : string := pad_left 5 5 (string_of_nat i).

Definition segment_path (tmpDir : string) (i : nat) : string :=
  tmpDir ++ "/segment-" ++ pad5 i ++ ".ts".

(** [downloadSegment(url, segmentPath)]: [fs.createWriteStream] creates the
    file first; a non-200 status or a request error rejects. *)
Definition downloadSegment (path : string) (r : SegResult) (fs : list string)
  : (nat + string) * list string :=
  let fs1 := fs_add path fs in
  match r with
  | SegResponse code b =>
      if Nat.eqb code 200 then (inl b, fs1)
      else (inr ("HTTP " ++ string_of_nat code), fs1)
  | SegNetError e => (inr e, fs1)
  end.

(** The segment loop: downloaded paths in order, or the first rejection. *)
Fixpoint download_all (tmpDir : string) (i : nat) (segs : list SegResult)
  (paths : list string) (fs : list string) : (list string + string) * list string :=
  match segs with
  | [] => (inl paths, fs)
  | r :: rest =>
      let p := segment_path tmpDir i in
      match downloadSegment p r fs with
      | (inl _, fs1) => download_all tmpDir (S i) rest (paths ++ [p]) fs1
      | (inr e, fs1) => (inr e, fs1)
      end
  end.

(** [downloadHLS] once the media playlist is parsed into [segs]: [tmp] is
    [os.tmpdir()], [t1] and [t2] the two [Date.now()] values as the
    template literals render them, and [ffmpegCode] the exit code of the
    concatenation. *)
Definition downloadHLS (tmp : string) (t1 t2 : string) (segs : list SegResult)
  (ffmpegCode : nat) (fs : list string) : (string + string) * list string :=
  match segs with
  | [] => (inr "No segments found in HLS stream", fs)
  | _ =>
      let tmpDir := tmp ++ "/vidown-hls-" ++ t1 in
      let fs1 := fs_add tmpDir fs in
      match download_all tmpDir 0 segs [] fs1 with
      | (inr e, fs2) => (inr e, fs2)
      | (inl segmentPaths, fs2) =>
          let outputPath := tmp ++ "/vidown-hls-" ++ t2 ++ ".mp4" in
          let concatFile := outputPath ++ ".txt" in
          (* [concatenateSegments]: write the list, run ffmpeg, unlink the
             list on exit *)
          let fs3 := fs_remove concatFile (fs_add concatFile fs2) in
          if Nat.eqb ffmpegCode 0 then
            let fs4 := fold_left (fun f p => fs_remove p f) segmentPaths (fs_add outputPath fs3) in
            (inl outputPath, fs_remove tmpDir fs4)
          else (inr ("ffmpeg exited with code " ++ string_of_nat ffmpegCode), fs3)
      end
  end.

End NodeHLS.

(** ** The control protocol of the Go companion ([internal/ipc/native.go]):
    [Send], [ReadMsg], and the [encoding/json] behaviour they rely on.
    Byte sequences are [string]s (one [ascii] per byte); string values
    are assumed to be valid UTF-8. *)
Module Ipc.
Local Set Warnings "-register-all,-abstract-large-number".

(** The dynamic values a [Msg] ([map[string]interface{}]) holds. *)
Inductive GoVal :=
  | GNil
  | GBool (b : bool)
  | GInt (z : Z)
  | GFloat (q : Q)
  | GStr (s : string)
  | GArr (l : list GoVal)
  | GMap (m : list (string * GoVal)).

Definition chr (n : nat) : string := String (ascii_of_nat n) "".
Definition code (c : ascii) : nat := nat_of_ascii c.
Definition quote : string := chr 34.
Definition bslash : string := chr 92.

(** *** [json.Marshal] *)

(** Decimal digits of a nonnegative integer ([strconv]). *)
Fixpoint zdigits (fuel : nat) (n : Z) (acc : string) : string :=
  match fuel with
  | 0 => acc
  | S f =>
      let d := chr (48 + Z.to_nat (n mod 10)) in
      if (n <? 10)%Z then d ++ acc else zdigits f (n / 10)%Z (d ++ acc)
  end.
Definition digits_of (n : Z) : string := zdigits (S (Z.to_nat (Z.log2 n))) n "".
Definition string_of_Z (z : Z) : string :=
  if (z <? 0)%Z then "-" ++ digits_of (- z) else digits_of z.

Definition hexdigit (n : nat) : string :=
  if Nat.ltb n 10 then chr (48 + n) else chr (87 + n).
Definition u4 (n : nat) : string :=
  bslash ++ "u" ++ hexdigit (n / 4096) ++ hexdigit ((n / 256) mod 16)
  ++ hexdigit ((n / 16) mod 16) ++ hexdigit (n mod 16).

(** One byte of a string value, as [encodeState.string] writes it with
    HTML escaping on. *)
Definition esc_char (n : nat) : string :=
  if Nat.eqb n 34 then bslash ++ quote
  else if Nat.eqb n 92 then bslash ++ bslash
  else if Nat.eqb n 10 then bslash ++ "n"
  else if Nat.eqb n 13 then bslash ++ "r"
  else if Nat.eqb n 9 then bslash ++ "t"
  else if Nat.eqb n 8 then bslash ++ "b"
  else if Nat.eqb n 12 then bslash ++ "f"
  else if Nat.ltb n 32 then u4 n
  else if Nat.eqb n 60 || Nat.eqb n 62 || Nat.eqb n 38 then u4 n
  else chr n.

(** U+2028 and U+2029 (bytes E2 80 A8 / E2 80 A9) are escaped too. *)
Definition is_sep (c c1 c2 : ascii) : bool :=
  Nat.eqb (code c) 226 && Nat.eqb (code c1) 128
  && (Nat.eqb (code c2) 168 || Nat.eqb (code c2) 169).

Fixpoint escape (s : string) : string :=
  match s with
  | "" => ""
  | String c r =>
      match r with
      | String c1 (String c2 r2) =>
          if is_sep c c1 c2 then u4 (8232 + (code c2 - 168)) ++ escape r2
          else esc_char (code c) ++ escape r
      | _ => esc_char (code c) ++ escape r
      end
  end.

Definition quoted (s : string) : string := quote ++ escape s ++ quote.

(** Decimal exponent of a positive rational: [10^E <= x < 10^(E+1)]. *)
Fixpoint log10_fuel (fuel : nat) (n : Z) : Z :=
  match fuel with
  | 0 => 0%Z
  | S f => if (n <? 10)%Z then 0%Z else (1 + log10_fuel f (n / 10))%Z
  end.
Definition zlog10 (n : Z) : Z := log10_fuel (S (Z.to_nat (Z.log2 n))) n.

Definition pow10 (e : Z) : Q :=
  if (0 <=? e)%Z then inject_Z (10 ^ e) else Qmake 1 (Z.to_pos (10 ^ (- e))).

Definition dec_exp (x : Q) : Z :=
  let e0 := (zlog10 (Qnum x) - zlog10 (Zpos (Qden x)))%Z in
  if Qle_bool (pow10 e0) x then e0 else (e0 - 1)%Z.

(** The nearest decimal with [p] significant digits, as (digits, exponent). *)
Definition round_digits (x : Q) (e : Z) (p : nat) : Z * Z :=
  let sh := (Z.of_nat p - 1 - e)%Z in
  let y := Qmult x (pow10 sh) in
  (F.rne (Qnum y) (Zpos (Qden y)), (- sh)%Z).

(** [strconv.FormatFloat(f, fmt, -1, 64)] digits: the shortest decimal that
    reads back as the same double (nearest such for that length). *)
Fixpoint shortest_from (x : Q) (e : Z) (p fuel : nat) : Z * Z :=
  match fuel with
  | 0 => round_digits x e 17
  | S f =>
      let '(d, k) := round_digits x e p in
      if Qeq_bool (F.round (Qmult (inject_Z d) (pow10 k))) x then (d, k)
      else shortest_from x e (S p) f
  end.

Fixpoint strip_zeros (fuel : nat) (d k : Z) : Z * Z :=
  match fuel with
  | 0 => (d, k)
  | S f => if ((d mod 10 =? 0) && (0 <? d))%Z then strip_zeros f (d / 10) (k + 1) else (d, k)
  end.

Definition shortest (x : Q) : Z * Z :=
  let '(d, k) := shortest_from x (dec_exp x) 1 17 in strip_zeros 20 d k.

Fixpoint zeros (n : nat) : string :=
  match n with 0 => "" | S m => "0" ++ zeros m end.

(** The 'f' layout of digits [ds] times [10^k]. *)
Definition layout_f (ds : string) (k : Z) : string :=
  if (0 <=? k)%Z then ds ++ zeros (Z.to_nat k)
  else
    let pos := (Z.of_nat (String.length ds) + k)%Z in
    if (0 <? pos)%Z then
      substring 0 (Z.to_nat pos) ds ++ "."
      ++ substring (Z.to_nat pos) (String.length ds - Z.to_nat pos) ds
    else "0." ++ zeros (Z.to_nat (- pos)) ++ ds.

(** The 'e' layout, with [floatEncoder]'s clean-up of [e-0N] to [e-N]. *)
Definition layout_e (ds : string) (k : Z) : string :=
  let n := String.length ds in
  let x := (k + Z.of_nat n - 1)%Z in
  let mant := substring 0 1 ds ++ (if Nat.ltb 1 n then "." ++ substring 1 (n - 1) ds else "") in
  let ex :=
    if (x <? 0)%Z then "-" ++ digits_of (- x)
    else "+" ++ (if (x <? 10)%Z then "0" else "") ++ digits_of x in
  mant ++ "e" ++ ex.

(** [floatEncoder] for 64-bit floats: 'e' format when [abs < 1e-6] or
    [abs >= 1e21], else 'f'. *)
Definition float_text (q : Q) : string :=
  let a := Qabs q in
  if Qeq_bool a 0 then "0" else
  let '(d, k) := shortest a in
  let body :=
    if Qlt_bool a (1 # 1000000) || Qle_bool (inject_Z (10 ^ 21)) a
    then layout_e (digits_of d) k else layout_f (digits_of d) k in
  if Qlt_bool q 0 then "-" ++ body else body.

Fixpoint insert_key {A} (k : string) (v : A) (l : list (string * A)) : list (string * A) :=
  match l with
  | [] => [(k, v)]
  | (k', v') :: r => if String.leb k k' then (k, v) :: l else (k', v') :: insert_key k v r
  end.
Definition sort_keys {A} (l : list (string * A)) : list (string * A) :=
  fold_right (fun kv acc => insert_key (fst kv) (snd kv) acc) [] l.

(** [json.Marshal]: map keys in sorted order. *)
Fixpoint Marshal (v : GoVal) : string :=
  match v with
  | GNil => "null"
  | GBool b => if b then "true" else "false"
  | GInt z => string_of_Z z
  | GFloat q => float_text q
  | GStr s => quoted s
  | GArr l => "[" ++ String.concat "," (map Marshal l) ++ "]"
  | GMap m =>
      let enc := map (fun '(k, x) => (k, Marshal x)) m in
      "{" ++ String.concat ","
        (map (fun kv => quoted (fst kv) ++ ":" ++ snd kv) (sort_keys enc)) ++ "}"
  end.

(** *** [json.Unmarshal] into [interface{}]: objects become maps, arrays
    slices, numbers [float64]. *)

Definition is_ws (c : ascii) : bool :=
  let n := code c in Nat.eqb n 32 || Nat.eqb n 9 || Nat.eqb n 10 || Nat.eqb n 13.
Definition is_digit (c : ascii) : bool := Nat.leb 48 (code c) && Nat.leb (code c) 57.
Definition digit_val (c : ascii) : Z := Z.of_nat (code c - 48).

Fixpoint skip_ws (s : string) : string :=
  match s with
  | String c r => if is_ws c then skip_ws r else s
  | "" => ""
  end.

(** A run of digits: (value, count, rest). *)
Fixpoint digit_run (s : string) (acc : Z) (n : nat) : Z * nat * string :=
  match s with
  | String c r => if is_digit c then digit_run r (acc * 10 + digit_val c)%Z (S n) else (acc, n, s)
  | "" => (acc, n, s)
  end.

Definition starts (c : ascii) (n : nat) : bool := Nat.eqb (code c) n.

(** A JSON number, read by [strconv.ParseFloat(s, 64)]: the exact decimal
    rounded to the nearest double; out of range is an error. *)
Definition parse_number (s : string) : option (Q * string) :=
  let '(neg, s1) := match s with
                    | String c r => if starts c 45 then (true, r) else (false, s)
                    | "" => (false, s) end in
  let int_part :=
    match s1 with
    | String c r =>
        if starts c 48 then Some (0%Z, 1, r)
        else if is_digit c then Some (digit_run s1 0 0) else None
    | "" => None
    end in
  match int_part with
  | None => None
  | Some (iv, _, s2) =>
      let frac :=
        match s2 with
        | String c r =>
            if starts c 46 then
              let '(fv, fn, s3) := digit_run r iv 0 in
              if Nat.eqb fn 0 then None else Some (fv, fn, s3)
            else Some (iv, 0, s2)
        | "" => Some (iv, 0, s2)
        end in
      match frac with
      | None => None
      | Some (m, fn, s3) =>
          let ex :=
            match s3 with
            | String c r =>
                if starts c 101 || starts c 69 then
                  let '(sg, r1) := match r with
                                   | String c1 r1 =>
                                       if starts c1 45 then ((-1)%Z, r1)
                                       else if starts c1 43 then (1%Z, r1) else (1%Z, r)
                                   | "" => (1%Z, r) end in
                  let '(xv, xn, s4) := digit_run r1 0 0 in
                  if Nat.eqb xn 0 then None else Some ((sg * xv)%Z, s4)
                else Some (0%Z, s3)
            | "" => Some (0%Z, s3)
            end in
          match ex with
          | None => None
          | Some (x, s4) =>
              let v := Qmult (inject_Z (if neg then - m else m)%Z) (pow10 (x - Z.of_nat fn)) in
              let r := F.round v in
              if Qle_bool (inject_Z (2 ^ 1024)) (Qabs r) then None else Some (r, s4)
          end
      end
  end.

Definition hexval (c : ascii) : option nat :=
  let n := code c in
  if Nat.leb 48 n && Nat.leb n 57 then Some (n - 48)
  else if Nat.leb 97 n && Nat.leb n 102 then Some (n - 87)
  else if Nat.leb 65 n && Nat.leb n 70 then Some (n - 55)
  else None.

(** [getu4]: the four hex digits of a [\uXXXX] escape. *)
Definition getu4 (s : string) : option (nat * string) :=
  match s with
  | String a (String b (String c (String d r))) =>
      match hexval a, hexval b, hexval c, hexval d with
      | Some x, Some y, Some z, Some w => Some (((x * 16 + y) * 16 + z) * 16 + w, r)
      | _, _, _, _ => None
      end
  | _ => None
  end.

(** [utf8.EncodeRune]. *)
Definition utf8 (cp : nat) : string :=
  if Nat.ltb cp 128 then chr cp
  else if Nat.ltb cp 2048 then chr (192 + cp / 64) ++ chr (128 + cp mod 64)
  else if Nat.ltb cp 65536 then
    chr (224 + cp / 4096) ++ chr (128 + (cp / 64) mod 64) ++ chr (128 + cp mod 64)
  else chr (240 + cp / 262144) ++ chr (128 + (cp / 4096) mod 64)
       ++ chr (128 + (cp / 64) mod 64) ++ chr (128 + cp mod 64).

Definition is_surrogate (n : nat) : bool := Nat.leb 55296 n && Nat.ltb n 57344.

(** The body of a string literal after its opening quote ([unquoteBytes]):
    a lone or unpaired surrogate becomes U+FFFD. *)
Fixpoint parse_str (fuel : nat) (s : string) (acc : string) : option (string * string) :=
  match fuel with
  | 0 => None
  | S f =>
      match s with
      | "" => None
      | String c r =>
          let n := code c in
          if Nat.eqb n 34 then Some (acc, r)
          else if Nat.ltb n 32 then None
          else if Nat.eqb n 92 then
            match r with
            | "" => None
            | String e r1 =>
                let m := code e in
                if Nat.eqb m 34 || Nat.eqb m 92 || Nat.eqb m 47 then parse_str f r1 (acc ++ String e "")
                else if Nat.eqb m 98 then parse_str f r1 (acc ++ chr 8)
                else if Nat.eqb m 102 then parse_str f r1 (acc ++ chr 12)
                else if Nat.eqb m 110 then parse_str f r1 (acc ++ chr 10)
                else if Nat.eqb m 114 then parse_str f r1 (acc ++ chr 13)
                else if Nat.eqb m 116 then parse_str f r1 (acc ++ chr 9)
                else if Nat.eqb m 117 then
                  match getu4 r1 with
                  | None => None
                  | Some (cp, r2) =>
                      if is_surrogate cp then
                        let low :=
                          match r2 with
                          | String b (String u r3) =>
                              if Nat.eqb (code b) 92 && Nat.eqb (code u) 117 then
                                match getu4 r3 with
                                | Some (cp2, r4) =>
                                    if Nat.ltb cp 56320 && Nat.leb 56320 cp2 && Nat.ltb cp2 57344
                                    then Some (65536 + (cp - 55296) * 1024 + (cp2 - 56320), r4)
                                    else None
                                | None => None
                                end
                              else None
                          | _ => None
                          end in
                        match low with
                        | Some (full, r4) => parse_str f r4 (acc ++ utf8 full)
                        | None => parse_str f r2 (acc ++ utf8 65533)
                        end
                      else parse_str f r2 (acc ++ utf8 cp)
                  end
                else None
            end
          else parse_str f r (acc ++ String c "")
      end
  end.

Definition lit (w : string) (s : string) : option string :=
  if String.prefix w s then Some (substring (String.length w) (String.length s - String.length w) s)
  else None.

(** A map assignment [m[k] = v]: a repeated key keeps its last value. *)
Fixpoint map_put (k : string) (v : GoVal) (m : list (string * GoVal)) : list (string * GoVal) :=
  match m with
  | [] => [(k, v)]
  | (k', v') :: r => if String.eqb k k' then (k, v) :: r else (k', v') :: map_put k v r
  end.

Fixpoint parse_value (fuel : nat) (s0 : string) : option (GoVal * string) :=
  match fuel with
  | 0 => None
  | S f =>
      let s := skip_ws s0 in
      match s with
      | "" => None
      | String c r =>
          let n := code c in
          if Nat.eqb n 110 then option_map (fun r' => (GNil, r')) (lit "null" s)
          else if Nat.eqb n 116 then option_map (fun r' => (GBool true, r')) (lit "true" s)
          else if Nat.eqb n 102 then option_map (fun r' => (GBool false, r')) (lit "false" s)
          else if Nat.eqb n 34 then
            option_map (fun p => (GStr (fst p), snd p)) (parse_str (S (String.length r)) r "")
          else if Nat.eqb n 45 || is_digit c then
            option_map (fun p => (GFloat (fst p), snd p)) (parse_number s)
          else if Nat.eqb n 91 then
            match skip_ws r with
            | String d r1 => if Nat.eqb (code d) 93 then Some (GArr [], r1) else parse_elems f r []
            | "" => None
            end
          else if Nat.eqb n 123 then
            match skip_ws r with
            | String d r1 => if Nat.eqb (code d) 125 then Some (GMap [], r1) else parse_members f r []
            | "" => None
            end
          else None
      end
  end
with parse_elems (fuel : nat) (s : string) (acc : list GoVal) : option (GoVal * string) :=
  match fuel with
  | 0 => None
  | S f =>
      match parse_value f s with
      | None => None
      | Some (v, r) =>
          match skip_ws r with
          | String d r1 =>
              if Nat.eqb (code d) 44 then parse_elems f r1 (acc ++ [v])
              else if Nat.eqb (code d) 93 then Some (GArr (acc ++ [v]), r1)
              else None
          | "" => None
          end
      end
  end
with parse_members (fuel : nat) (s : string) (acc : list (string * GoVal)) : option (GoVal * string) :=
  match fuel with
  | 0 => None
  | S f =>
      match skip_ws s with
      | String q r =>
          if Nat.eqb (code q) 34 then
            match parse_str (S (String.length r)) r "" with
            | None => None
            | Some (k, r1) =>
                match skip_ws r1 with
                | String col r2 =>
                    if Nat.eqb (code col) 58 then
                      match parse_value f r2 with
                      | None => None
                      | Some (v, r3) =>
                          match skip_ws r3 with
                          | String d r4 =>
                              if Nat.eqb (code d) 44 then parse_members f r4 (map_put k v acc)
                              else if Nat.eqb (code d) 125 then Some (GMap (map_put k v acc), r4)
                              else None
                          | "" => None
                          end
                      end
                    else None
                | "" => None
                end
            end
          else None
      | "" => None
      end
  end.

(** [json.Unmarshal(buf, &m)] for [var m Msg]: a syntax error, trailing
    data or a top-level value other than an object or null fails; null
    leaves [m] nil. *)
Definition Unmarshal (buf : string) : option GoVal :=
  match parse_value (S (String.length buf)) buf with
  | Some (v, r) =>
      if String.eqb (skip_ws r) "" then
        match v with
        | GMap _ | GNil => Some v
        | _ => None
        end
      else None
  | None => None
  end.

(** *** Framing *)

(** [binary.Write(os.Stdout, binary.LittleEndian, uint32(len(b)))]. *)
Definition le32 (n : N) : string :=
  String (ascii_of_N (n mod 256)) (String (ascii_of_N ((n / 256) mod 256))
    (String (ascii_of_N ((n / 65536) mod 256)) (String (ascii_of_N ((n / 16777216) mod 256)) ""))).

Definition Msg := list (string * GoVal).

(** [Send(m)]: the bytes written to stdout. *)
Definition Send (m : Msg) : string :=
  let b := Marshal (GMap m) in
  le32 (N.of_nat (String.length b)) ++ b.

Fixpoint take (n : nat) (s : string) : string :=
  match n, s with
  | 0, _ | _, "" => ""
  | S k, String c r => String c (take k r)
  end.
Fixpoint drop (n : nat) (s : string) : string :=
  match n, s with
  | 0, _ => s
  | _, "" => ""
  | S k, String _ r => drop k r
  end.

(** [ReadMsg(r)] on the bytes [r]: the decoded message and what is left to
    read, or an error ([None]). *)
Definition ReadMsg (r : string) : option (GoVal * string) :=
  match r with
  | String a0 (String a1 (String a2 (String a3 rest))) =>
      let length := (N_of_ascii a0 + 256 * (N_of_ascii a1 + 256 * (N_of_ascii a2
                      + 256 * N_of_ascii a3)))%N in
      let len := N.to_nat length in
      if Nat.ltb (String.length rest) len then None
      else match Unmarshal (take len rest) with
           | Some m => Some (m, drop len rest)
           | None => None
           end
  | _ => None
  end.

End Ipc.

(** ** The extension's tab bookkeeping ([service_worker.js]) *)
Module Ext.

(** A [webRequest] response header: [h.name] and [h.value], either may be
    missing.  Header names are ASCII tokens, on which [toLowerCase] is
    [lower_s]. *)
Record HttpHeader := { hname : option string; hvalue : option string }.

(** [header(headers, name)]: the first header whose lower-cased name is
    [name], and its value unless empty ([h?.value || null]). *)
Definition header (hs : option (list HttpHeader)) (name : string) : option string :=
  match hs with
  | None => None
  | Some l =>
      match find (fun h => match hname h with
                           | Some n => String.eqb (lower_s n) name
                           | None => false
                           end) l with
      | Some h =>
          match hvalue h with
          | Some v => if String.eqb v "" then None else Some v
          | None => None
          end
      | None => None
      end
  end.

(** An entry of [blobVideos]. *)
Record BlobEntry := { b_size : Q; b_type : string; b_ts : Z; b_tab : option Z }.

(** The BLOB_META branch of the message listener: [msg.meta?.size >=
    524288] (a missing size is never), push, and [shift()] past 50. *)
Definition onBlobMeta (size : option Q) (type : string) (ts : Z) (tab : option Z)
  (bv : list BlobEntry) : list BlobEntry :=
  match size with
  | Some sz =>
      if Qle_bool (524288 # 1) sz then
        let bv1 := (bv ++ [{| b_size := sz; b_type := type; b_ts := ts; b_tab := tab |}])%list in
        if Nat.ltb 50 (length bv1) then tl bv1 else bv1
      else bv
  | None => bv
  end.

(** A BLOB_META message: [meta.size], [meta.type], [Date.now()], [sender.tab?.id]. *)
Record BlobMsg := { bm_size : option Q; bm_type : string; bm_ts : Z; bm_tab : option Z }.

Definition blob_run (bv : list BlobEntry) (ms : list BlobMsg) : list BlobEntry :=
  fold_left (fun acc m => onBlobMeta (bm_size m) (bm_type m) (bm_ts m) (bm_tab m) acc) ms bv.

(** [arr.slice(-n)]: the last [n] elements. *)
Definition lastn {A} (n : nat) (l : list A) : list A := skipn (length l - n) l.

(** A [netVideos] entry. *)
Record NetVideo := { v_size : option Z; v_type : option string; v_tab : Z }.

(** [netVideos.set(url, v)]: a new key goes last, an existing one keeps
    its place. *)
Fixpoint nv_set (k : string) (v : NetVideo) (m : list (string * NetVideo))
  : list (string * NetVideo) :=
  match m with
  | [] => [(k, v)]
  | (k', v') :: r => if String.eqb k k' then (k, v) :: r else (k', v') :: nv_set k v r
  end.

(** The [tabs.onRemoved] listener (and [webNavigation.onCommitted] for a
    top frame): every [netVideos] entry of the tab is deleted while the
    map is iterated. *)
Definition onTabRemoved (tab : Z) (m : list (string * NetVideo)) : list (string * NetVideo) :=
  filter (fun e => negb (Z.eqb (v_tab (snd e)) tab)) m.

(** The [net] list of REQUEST_STATE. *)
Definition requestState_net (tab : Z) (m : list (string * NetVideo)) : list (string * NetVideo) :=
  lastn 50 (filter (fun e => Z.eqb (v_tab (snd e)) tab) m).

(** [updateBadge(tabId)]: the text set on the tab's badge, if any. *)
Definition updateBadge (tab : Z) (m : list (string * NetVideo)) (bv : list BlobEntry)
  : option string :=
  if (tab <? 0)%Z then None else
  let count := length (filter (fun e => Z.eqb (v_tab (snd e)) tab) m) + length bv in
  if Nat.ltb 0 count then Some (string_of_nat count) else None.

End Ext.

(** ** The getters of [internal/ipc] and the host's message handlers *)
Module IpcGet.
Import Ipc.

Fixpoint lookup_val (k : string) (m : list (string * GoVal)) : option GoVal :=
  match m with
  | [] => None
  | (k', v) :: r => if String.eqb k k' then Some v else lookup_val k r
  end.

(** [m[key]] on a decoded message: a nil map ([null]) has no keys. *)
Definition msg_get (msg : GoVal) (k : string) : option GoVal :=
  match msg with GMap m => lookup_val k m | _ => None end.

Definition GetString (msg : GoVal) (k : string) : string :=
  match msg_get msg k with Some (GStr s) => s | _ => "" end.

(** [int64(f)] of a [float64]: truncation; out of range the amd64
    conversion yields the minimum int64. *)
Definition int64_of_float (q : Q) : Z :=
  let t := F.trunc q in
  if ((- 2 ^ 63 <=? t) && (t <? 2 ^ 63))%Z then t else (- 2 ^ 63)%Z.

Definition GetInt64 (msg : GoVal) (k : string) : Z :=
  match msg_get msg k with
  | Some (GFloat q) => int64_of_float q
  | Some (GInt z) => z
  | _ => 0%Z
  end.

(** [GetMap]: a nested object, or a fresh empty (non-nil) map. *)
Definition GetMap (msg : GoVal) (k : string) : list (string * GoVal) :=
  match msg_get msg k with Some (GMap m) => m | _ => [] end.

Definition GetStringMap (m : list (string * GoVal)) : list (string * string) :=
  fold_right (fun kv acc => match snd kv with GStr s => (fst kv, s) :: acc | _ => acc end) [] m.

(** Strings of 7-bit characters, and messages whose values are strings. *)
Fixpoint is_ascii (s : string) : bool :=
  match s with
  | "" => true
  | String c r => Nat.ltb (nat_of_ascii c) 128 && is_ascii r
  end.

Definition str_msg (sm : list (string * string)) : Msg :=
  map (fun kv => (fst kv, GStr (snd kv))) sm.

(** [job.ConvertOpts] and [ParseConvertOpts]; [None] is a nil pointer. *)
Record ConvertOptsG := { Container : string; VCodec : string; ACodec : string }.

Definition ParseConvertOpts (m : option (list (string * GoVal))) : option ConvertOptsG :=
  match m with
  | None => None
  | Some l =>
      let str k d := match lookup_val k l with Some (GStr v) => v | _ => d end in
      Some {| Container := str "container" "copy"; VCodec := str "vcodec" "copy";
              ACodec := str "acodec" "copy" |}
  end.

(** The test of [job.run] for the conversion step. *)
Definition converts (c : option ConvertOptsG) : bool :=
  match c with Some o => negb (String.eqb (Container o) "copy") | None => false end.

(** The job options [handleDownload] passes to [Manager.Start]. *)
Definition handleDownload_convert (msg : GoVal) : option ConvertOptsG :=
  ParseConvertOpts (Some (GetMap msg "convert")).

End IpcGet.

(** ** The ffmpeg runner ([internal/ff]) *)
Module FFmpeg.
Import Ipc.

(** [strconv.ParseInt(s, 10, 64)]: an optional sign and at least one
    decimal digit, within the int64 range. *)
Fixpoint digits_val (s : string) (acc : Z) : option Z :=
  match s with
  | "" => Some acc
  | String c r => if is_digit c then digits_val r (acc * 10 + digit_val c)%Z else None
  end.

Definition ParseInt (s : string) : option Z :=
  let '(neg, body) :=
    match s with
    | String c r =>
        if Ascii.eqb c "+" then (false, r)
        else if Ascii.eqb c "-" then (true, r) else (false, s)
    | "" => (false, s)
    end in
  match body with
  | "" => None
  | _ =>
      match digits_val body 0 with
      | None => None
      | Some n =>
          let v := if neg then (- n)%Z else n in
          if ((- 2 ^ 63 <=? v) && (v <? 2 ^ 63))%Z then Some v else None
      end
  end.

(** [strings.SplitN(line, "=", 2)] when it has two parts. *)
Fixpoint split_eq (s : string) : option (string * string) :=
  match s with
  | "" => None
  | String c r =>
      if Ascii.eqb c "=" then Some ("", r)
      else match split_eq r with
           | Some (k, v) => Some (String c k, v)
           | None => None
           end
  end.

(** [ProgressUpdate].  The [speed] key is parsed into a field no callback
    reads; it is left out. *)
Record ProgressUpdate := { BytesWritten : Z; OutTimeMs : Z; Frame : Z }.

Definition update0 : ProgressUpdate := {| BytesWritten := 0; OutTimeMs := 0; Frame := 0 |}.

(** One line of ffmpeg's [-progress] output: the new [update], and the
    update passed to [onProgress] at a [progress] line. *)
Definition progress_line (u : ProgressUpdate) (line : string)
  : ProgressUpdate * option ProgressUpdate :=
  if String.eqb line "" then (u, None) else
  match split_eq line with
  | None => (u, None)
  | Some (key, value) =>
      if String.eqb key "total_size" then
        (match ParseInt value with
         | Some n => {| BytesWritten := n; OutTimeMs := OutTimeMs u; Frame := Frame u |}
         | None => u end, None)
      else if String.eqb key "out_time_ms" then
        (match ParseInt value with
         | Some n => {| BytesWritten := BytesWritten u; OutTimeMs := n; Frame := Frame u |}
         | None => u end, None)
      else if String.eqb key "frame" then
        (match ParseInt value with
         | Some n => {| BytesWritten := BytesWritten u; OutTimeMs := OutTimeMs u; Frame := n |}
         | None => u end, None)
      else if String.eqb key "progress" then (u, Some u)
      else (u, None)
  end.

(** [parseProgress] over the lines the scanner yields: the updates passed
    to [onProgress], in order. *)
Fixpoint parseProgress_from (u : ProgressUpdate) (lines : list string) : list ProgressUpdate :=
  match lines with
  | [] => []
  | l :: r =>
      let '(u', out) := progress_line u l in
      match out with
      | Some x => x :: parseProgress_from u' r
      | None => parseProgress_from u' r
      end
  end.

Definition parseProgress (lines : list string) : list ProgressUpdate :=
  parseProgress_from update0 lines.

Definition CRLF : string := String (ascii_of_nat 13) (String (ascii_of_nat 10) "").

(** [buildHeaderString], the map given in its iteration order. *)
Definition buildHeaderString (headers : list (string * string)) : string :=
  fold_left (fun result kv =>
               (if String.eqb result "" then result else result ++ CRLF)
               ++ fst kv ++ ": " ++ snd kv) headers "" ++ CRLF.

Definition BuildHLSArgs (url output : string) (headers : list (string * string)) : list string :=
  (["-user_agent"; "Vidown/1.0 (Native Companion)";
   "-protocol_whitelist"; "file,crypto,httpproxy,http,https,tcp,tls"]
  ++ (if Nat.ltb 0 (length headers) then ["-headers"; buildHeaderString headers] else [])
  ++ ["-i"; url; "-c:v"; "copy"; "-c:a"; "copy"; "-movflags"; "+faststart"; output])%list.

Definition BuildDASHArgs (url output : string) (headers : list (string * string)) : list string :=
  (["-user_agent"; "Vidown/1.0 (Native Companion)"]
  ++ (if Nat.ltb 0 (length headers) then ["-headers"; buildHeaderString headers] else [])
  ++ ["-i"; url; "-c:v"; "copy"; "-c:a"; "copy"; "-movflags"; "+faststart"; output])%list.

(** The header block [job.downloadHTTP] builds itself. *)
Definition httpHeaders (headers : list (string * string)) : string :=
  fold_left (fun h kv => (if String.eqb h "" then h else h ++ CRLF) ++ fst kv ++ ": " ++ snd kv)
    headers "" ++ CRLF.

(** The arguments of [job.downloadHTTP]. *)
Definition downloadHTTP_args (url output : string) (headers : list (string * string)) : list string :=
  ((if Nat.ltb 0 (length headers) then ["-headers"; httpHeaders headers] else [])
  ++ ["-i"; url; "-c"; "copy"; output])%list.

Definition BuildConvertArgs (input output vcodec acodec : string) : list string :=
  (["-i"; input]
  ++ (if String.eqb vcodec "copy" then ["-c:v"; "copy"]
      else if String.eqb vcodec "h264" then ["-c:v"; "libx264"; "-crf"; "23"; "-preset"; "medium"]
      else if String.eqb vcodec "hevc" then ["-c:v"; "libx265"; "-crf"; "28"; "-preset"; "medium"]
      else ["-c:v"; "copy"])
  ++ (if String.eqb acodec "copy" then ["-c:a"; "copy"]
      else if String.eqb acodec "aac" then ["-c:a"; "aac"; "-b:a"; "128k"]
      else if String.eqb acodec "opus" then ["-c:a"; "libopus"; "-b:a"; "128k"]
      else if String.eqb acodec "mp3" then ["-c:a"; "libmp3lame"; "-b:a"; "192k"]
      else ["-c:a"; "copy"])
  ++ ["-movflags"; "+faststart"; output])%list.

(** The command line [RunFFmpeg] starts. *)
Definition RunFFmpeg_args (args : list string) : list string :=
  (["-y"; "-v"; "error"; "-nostats"; "-progress"; "pipe:1"] ++ args)%list.

End FFmpeg.

(** ** The native host's main loop ([main] of the Go host) *)
Module Host.
Import Ipc IpcGet.

(** What the loop does besides the job manager: a probe, or the
    'unknown_command' log it sends. *)
Inductive HostAction := HProbe (url : string) | HUnknown (cmd : string).

(** Read frames until a read error or a 'shutdown' message.  Each frame
    takes at least 4 bytes, so the input length bounds the rounds. *)
Fixpoint hostLoop (fuel : nat) (input : string) (m : GoJob.Mgr) (acts : list HostAction)
  : GoJob.Mgr * list HostAction :=
  match fuel with
  | 0 => (m, acts)
  | S f =>
      match ReadMsg input with
      | None => (m, acts)
      | Some (msg, rest) =>
          let ty := GetString msg "type" in
          if String.eqb ty "shutdown" then (m, acts)
          else if String.eqb ty "probe" then hostLoop f rest m (acts ++ [HProbe (GetString msg "url")])%list
          else if String.eqb ty "download" then
            hostLoop f rest (GoJob.Start (GetString msg "id") (GetString msg "mode") m) acts
          else if String.eqb ty "cancel" then hostLoop f rest (GoJob.Cancel (GetString msg "id") m) acts
          else hostLoop f rest m (acts ++ [HUnknown ty])%list
      end
  end.

Definition host (input : string) : GoJob.Mgr * list HostAction :=
  hostLoop (String.length input) input GoJob.empty [].

End Host.

(** ** Invariants of the queue manager *)
Module QueueInv.
Import Queue.

(** Every job in state 'active' is a key of [activeJobs], the keys are
    distinct, and there are at most [MAX_CONCURRENT] of them. *)
Definition active_in_map (s : St) : Prop :=
  forall k, is_active s k = true -> In k (activeJobs s).

Definition Inv (s : St) : Prop :=
  NoDup (activeJobs s) /\ length (activeJobs s) <= MAX_CONCURRENT /\ active_in_map s.

(** The pending list is non-empty only while the limit is reached. *)
Definition Good (s : St) : Prop :=
  Inv s /\ (jobQueue s <> [] -> MAX_CONCURRENT <= length (activeJobs s)).

End QueueInv.

(** * Auxiliary definitions for the properties below *)

Module JsonDefs.
Import Ipc IpcGet.

(** The double quote character. *)
Definition QC : ascii := Ascii false true false false false true false false.

(** One ["key":"value"] member of a marshalled string map. *)
Definition entry (kv : string * string) : string := quoted (fst kv) ++ ":" ++ quoted (snd kv).

(** A string field whose key and value are 7-bit text. *)
Definition ok_kv (kv : string * string) : Prop := is_ascii (fst kv) = true /\ is_ascii (snd kv) = true.

(** A 'shutdown' request as the extension sends it. *)
Definition shutdown_msg : list (string * string) := [("type", "shutdown"); ("id", "job-1")].

(** A 'cancel' request as the extension sends it. *)
Definition cancel_msg : list (string * string) := [("type", "cancel"); ("id", "job-1")].

(** What may follow a value in a marshalled message: nothing, or the ',',
    ']' or '}' that continues the enclosing array or object. *)
Definition ends_ok (s : string) : Prop :=
  match s with "" => True | String c _ => c = ","%char \/ c = "]"%char \/ c = "}"%char end.

(** Keys listed at most once. *)
Fixpoint nodup_keys (l : list string) : bool :=
  match l with [] => true | k :: r => negb (existsb (String.eqb k) r) && nodup_keys r end.

(** The values whose [json.Marshal] text is 7-bit and whose numbers are
    integers of Go's [int64] range: [nil], booleans, integers, 7-bit
    strings, and arrays and maps of such values, with 7-bit distinct keys. *)
Fixpoint plain (v : GoVal) : bool :=
  match v with
  | GNil | GBool _ => true
  | GInt z => (- 2 ^ 63 <=? z)%Z && (z <? 2 ^ 63)%Z
  | GFloat _ => false
  | GStr s => is_ascii s
  | GArr l => forallb plain l
  | GMap m => forallb (fun kv => is_ascii (fst kv) && plain (snd kv)) m && nodup_keys (map fst m)
  end.

(** What [json.Unmarshal] into [interface{}] makes of a value: integers
    become the nearest [float64], map entries come in key order. *)
Fixpoint as_decoded (v : GoVal) : GoVal :=
  match v with
  | GInt z => GFloat (F.of_Z z)
  | GArr l => GArr (map as_decoded l)
  | GMap m => GMap (sort_keys (map (fun kv => (fst kv, as_decoded (snd kv))) m))
  | _ => v
  end.

(** Induction over values, through the elements of arrays and maps. *)
Section GoValInd.
Variable P : GoVal -> Prop.
Hypothesis HNil : P GNil.
Hypothesis HBool : forall b, P (GBool b).
Hypothesis HInt : forall z, P (GInt z).
Hypothesis HFloat : forall q, P (GFloat q).
Hypothesis HStr : forall s, P (GStr s).
Hypothesis HArr : forall l, Forall P l -> P (GArr l).
Hypothesis HMap : forall m, Forall (fun kv => P (snd kv)) m -> P (GMap m).
Fixpoint goval_ind (v : GoVal) : P v :=
  match v with
  | GNil => HNil | GBool b => HBool b | GInt z => HInt z | GFloat q => HFloat q | GStr s => HStr s
  | GArr l => HArr l ((fix go (l : list GoVal) : Forall P l :=
                        match l with
                        | [] => Forall_nil _
                        | x :: r => Forall_cons x (goval_ind x) (go r) end) l)
  | GMap m => HMap m ((fix go (m : list (string * GoVal)) : Forall (fun kv => P (snd kv)) m :=
                        match m with
                        | [] => Forall_nil _
                        | (k, x) :: r => Forall_cons (k, x) (goval_ind x) (go r) end) m)
  end.
End GoValInd.

(** The parser fuel a value needs. *)
Fixpoint vsize (v : GoVal) : nat :=
  match v with
  | GArr l => S (list_sum (map (fun x => S (vsize x)) l))
  | GMap m => S (list_sum (map (fun kv => S (vsize (snd kv))) m))
  | _ => 1
  end.

(** One ["key":value] member of a marshalled map. *)
Definition mem (kv : string * GoVal) : string := quoted (fst kv) ++ ":" ++ Marshal (snd kv).

(** A value's text, followed by what may follow a value, parses back to its
    decoded form. *)
Definition value_rt (v : GoVal) : Prop :=
  forall f s, (vsize v <= f)%nat -> ends_ok s -> parse_value f (Marshal v ++ s) = Some (as_decoded v, s).

End JsonDefs.

Module QueueTimerInv.
Import Queue.

(** A retry timer waits 2 s or 4 s. *)
Definition delay_ok (t : nat * Z) : Prop := snd t = 2000%Z \/ snd t = 4000%Z.

Definition TInv (s : St) : Prop :=
  Forall (fun j => maxRetries j = 3) (jobs s) /\ Forall delay_ok (timers s).

(** A queue step preserves [TInv]. *)
Definition pq_T (pq : St -> St) : Prop := forall s, TInv s -> TInv (pq s).

End QueueTimerInv.

Module ExtDefs.
Import Ext.

(** The test [header] applies to each header of a request. *)
Definition hmatch (name : string) (h : HttpHeader) : bool :=
  match hname h with Some n => String.eqb (lower_s n) name | None => false end.

(** The entry a [BLOB_META] message adds, if [onBlobMeta] keeps it. *)
Definition accepted (m : BlobMsg) : list BlobEntry :=
  match bm_size m with
  | Some sz => if Qle_bool (524288 # 1) sz
               then [{| b_size := sz; b_type := bm_type m; b_ts := bm_ts m; b_tab := bm_tab m |}]
               else []
  | None => []
  end.

End ExtDefs.

Module FFmpegDefs.
Import FFmpeg.

(** A [progress=...] line of ffmpeg's [-progress] output. *)
Definition is_progress_line (l : string) : bool :=
  match split_eq l with Some (k, _) => String.eqb k "progress" | None => false end.

(** A [total_size=...] line. *)
Definition sets_total (l : string) : bool :=
  match split_eq l with Some (k, _) => String.eqb k "total_size" | None => false end.

(** One header as [buildHeaderString] writes it, without the CRLF. *)
Definition header_line (kv : string * string) : string := fst kv ++ ": " ++ snd kv.

End FFmpegDefs.

(** ** Concrete scenarios *)
Module Scenarios.
Import Queue.

Definition http_item (u : string) (h : list (string * string)) (c : option ConvertOpts) : Item :=
  {| item_url := u; item_mode := None; item_headers := h; opt_convert := c |}.

(** A state with a cookie-carrying http job queued and the host installed. *)
Definition cookie_state : St :=
  set_queue [] (set_jobs [newJob 0 (http_item "https://cdn.example/v.mp4"
                                     [("Cookie", "sid=1")] None)] (init true)).

(** A direct http job whose every download attempt is interrupted; each
    retry callback fires before the next failure. *)
Definition always_failing : list Event :=
  [EvEnqueue (http_item "https://cdn.example/v.mp4" [] None);
   EvDownloadFailed 0 "Download interrupted"; EvTimer 0;
   EvDownloadFailed 0 "Download interrupted"; EvTimer 0;
   EvDownloadFailed 0 "Download interrupted"].

Definition broadcast_states (s : St) : list JState :=
  map (fun b => snd b) (broadcasts s).

(** An hls job: the mode is detected from the '.m3u8' URL. *)
Definition hls_item : Item :=
  {| item_url := "https://cdn.example/live/index.m3u8"; item_mode := None;
     item_headers := []; opt_convert := None |}.

Definition hls_enqueued : St := run (init true) [EvEnqueue hls_item].

(** The error the Node host reports for a media playlist without segments. *)
Definition manifest_empty : string := "No segments found in HLS stream".

(** The hls job's companion reports that error on every attempt; each
    retry callback fires before the next report. *)
Definition manifest_empty_run : list Event :=
  [EvEnqueue hls_item;
   EvNative 0 (NError manifest_empty); EvTimer 0;
   EvNative 0 (NError manifest_empty); EvTimer 0;
   EvNative 0 (NError manifest_empty)].

(** A Go job with nothing received, no speed yet and its last tick at time 0. *)
Definition go_job_fresh : GoProgress.GJob :=
  {| GoProgress.ExpTotal := 0; GoProgress.speedEMA := 0;
     GoProgress.lastBytes := 0; GoProgress.lastTick := 0 |}.

(** A Go job of 1300 expected bytes, last tick at 0. *)
Definition go_job_1300 : GoProgress.GJob :=
  {| GoProgress.ExpTotal := 1300; GoProgress.speedEMA := 0;
     GoProgress.lastBytes := 0; GoProgress.lastTick := 0 |}.

(** A Go job of 10^9 expected bytes, nothing received, last tick at 0. *)
Definition go_job_1g : GoProgress.GJob :=
  {| GoProgress.ExpTotal := 1000000000; GoProgress.speedEMA := 0;
     GoProgress.lastBytes := 0; GoProgress.lastTick := 0 |}.

(** [n] progress callbacks of a Go job from time [t] on, one every 0.5 s,
    while its ffmpeg reports 10^6 bytes written of 10^9 (the download
    stalls after its first megabyte): the job's fields after them and the
    last message sent. *)
Fixpoint go_stall_run (n : nat) (t : Z) (job : GoProgress.GJob)
    (last : option GoProgress.ProgressMsg) : GoProgress.GJob * option GoProgress.ProgressMsg :=
  match n with
  | O => (job, last)
  | S k =>
      let '(job', m) := GoProgress.sendProgress t 1000000 1000000000 job in
      go_stall_run k (t + 500000000) job' m
  end.

(** A Go job run that downloads, converts to mp4 and renames without error. *)
Definition ok_run : GoJob.Outcome :=
  {| GoJob.dl_exit := GoJob.ExitOk; GoJob.conv_exit := Some GoJob.ExitOk;
     GoJob.rename_ok := true; GoJob.panics := false |}.

(** A Go job run whose download's ffmpeg exits with status 1. *)
Definition failed_download : GoJob.Outcome :=
  {| GoJob.dl_exit := GoJob.ExitErr "exit status 1"; GoJob.conv_exit := Some GoJob.ExitOk;
     GoJob.rename_ok := true; GoJob.panics := false |}.

(** A message with an integer beyond 2^53. *)
Definition big_int_msg : Ipc.Msg := [("bytesReceived", Ipc.GInt 9007199254740993)].

(** A 'progress' message as [sendProgress] builds it. *)
Definition progress_msg : Ipc.Msg :=
  [("type", Ipc.GStr "progress"); ("id", Ipc.GStr "job-1"); ("etaSec", Ipc.GInt 3)].

End Scenarios.

(** ** Formulas as the specification words them (for comparison only) *)
Module SpecWords.

(** The smoothed speed the specification describes: instantaneous speed
    [dbytes / dt], 0 when [dt <= 0] or [dbytes < 0]; the first value seeds
    an unset EMA, later ones are blended with alpha = 0.25. *)
Definition claimed_speed (prev : option Q) (dbytes dt : Q) : Q :=
  let inst := if Qle_bool dt 0 || Qlt_bool dbytes 0 then 0%Q else (dbytes / dt)%Q in
  match prev with
  | None => inst
  | Some e => ((1 # 4) * inst + (3 # 4) * e)%Q
  end.

(** The ETA the specification describes: [ceil((total - received) / speed)],
    the remaining count clamped at 0. *)
Definition claimed_eta (total received speed : Q) : Z :=
  Qceiling (Progress.js_max 0 (total - received) / speed)%Q.

End SpecWords.

Module QueueCancelDefs.
Import Queue Scenarios.

(** What a job becomes when [startJob] runs it again. *)
Definition restarted (st : JState) : Prop := st = Active \/ st = Retrying \/ st = Error.

(** The first attempt of [always_failing] has failed: job 0 waits for its retry. *)
Definition retry_pending : St := run (init true) (firstn 2 always_failing).

(** A queue step [pq] leaves job [i] alone while [i] is not pending. *)
Definition keeps (i : nat) (pq : St -> St) : Prop :=
  forall s, ~ In i (jobQueue s) -> job_at (pq s) i = job_at s i /\ ~ In i (jobQueue (pq s)).

End QueueCancelDefs.

Module QueueFacts.
Import Queue QueueInv.

Lemma nth_error_list_upd {A} (l : list A) i f k :
  nth_error (list_upd l i f) k =
  if Nat.eqb k i then option_map f (nth_error l k) else nth_error l k.
Proof.
  revert i k; induction l as [|x r IH]; intros i k; simpl.
  - destruct (Nat.eqb k i); destruct k; reflexivity.
  - destruct i, k; simpl; try reflexivity; apply IH.
Qed.

Lemma is_active_upd_other i f s k :
  k <> i -> is_active (upd i f s) k = is_active s k.
Proof.
  intro H. unfold is_active, job_at, upd, set_jobs. simpl.
  rewrite nth_error_list_upd. apply Nat.eqb_neq in H. rewrite H. reflexivity.
Qed.

Lemma is_active_upd_state i st s :
  st <> Active -> is_active (upd i (set_state st) s) i = false.
Proof.
  intro H. unfold is_active, job_at, upd, set_jobs. simpl.
  rewrite nth_error_list_upd, Nat.eqb_refl.
  destruct (nth_error (jobs s) i); simpl; [|reflexivity].
  destruct (JState_eqb st Active) eqn:E; [apply JState_eqb_eq in E; congruence|reflexivity].
Qed.

Lemma is_active_upd_failure i st r e s :
  st <> Active -> is_active (upd i (set_failure st r e) s) i = false.
Proof.
  intro H. unfold is_active, job_at, upd, set_jobs. simpl.
  rewrite nth_error_list_upd, Nat.eqb_refl.
  destruct (nth_error (jobs s) i); simpl; [|reflexivity].
  destruct (JState_eqb st Active) eqn:E; [apply JState_eqb_eq in E; congruence|reflexivity].
Qed.

Lemma NoDup_map_delete i l : NoDup l -> NoDup (map_delete i l).
Proof.
  unfold map_delete. induction 1 as [|x l Hx Hl IH]; simpl; [constructor|].
  destruct (Nat.eq_dec i x); [assumption|].
  constructor; [|assumption].
  intro Hin. apply in_remove in Hin. tauto.
Qed.

Lemma NoDup_map_set i l : NoDup l -> NoDup (map_set i l).
Proof.
  unfold map_set. intro H. destruct (existsb (Nat.eqb i) l) eqn:E; [assumption|].
  apply NoDup_app; [assumption|repeat constructor; intros []|].
  intros x Hx [Hi|[]]. subst x. assert (existsb (Nat.eqb i) l = true) as C.
  { apply existsb_exists. exists i. split; [assumption|apply Nat.eqb_refl]. }
  congruence.
Qed.

Lemma in_map_set i k l : In k (map_set i l) <-> k = i \/ In k l.
Proof.
  unfold map_set. destruct (existsb (Nat.eqb i) l) eqn:E.
  - apply existsb_exists in E as [x [Hx Hxi]]. apply Nat.eqb_eq in Hxi. subst.
    split; [tauto|intros [->|H]; assumption].
  - rewrite in_app_iff. simpl. split; intros [H|H]; intuition.
Qed.

Lemma length_map_set i l : length (map_set i l) <= S (length l).
Proof.
  unfold map_set. destruct (existsb (Nat.eqb i) l); [lia|].
  rewrite length_app. simpl. lia.
Qed.

Lemma existsb_in i l : existsb (Nat.eqb i) l = true <-> In i l.
Proof.
  rewrite existsb_exists. split.
  - intros [x [Hx E]]. apply Nat.eqb_eq in E. subst. assumption.
  - intro H. exists i. split; [assumption|apply Nat.eqb_refl].
Qed.

Lemma Inv_same s s' :
  jobs s' = jobs s -> activeJobs s' = activeJobs s -> Inv s -> Inv s'.
Proof.
  intros Hj Ha (H1 & H2 & H3). unfold Inv, active_in_map, is_active, job_at in *.
  rewrite Hj, Ha. auto.
Qed.

Lemma broadcast_jobs ty i s : jobs (broadcast ty i s) = jobs s.
Proof. unfold broadcast. destruct (job_at s i); reflexivity. Qed.
Lemma broadcast_active ty i s : activeJobs (broadcast ty i s) = activeJobs s.
Proof. unfold broadcast. destruct (job_at s i); reflexivity. Qed.
Lemma broadcast_queue ty i s : jobQueue (broadcast ty i s) = jobQueue s.
Proof. unfold broadcast. destruct (job_at s i); reflexivity. Qed.
Lemma broadcast_job_at ty i s k : job_at (broadcast ty i s) k = job_at s k.
Proof. unfold job_at. rewrite broadcast_jobs. reflexivity. Qed.

Lemma Inv_broadcast ty i s : Inv s -> Inv (broadcast ty i s).
Proof. apply Inv_same; [apply broadcast_jobs|apply broadcast_active]. Qed.

Lemma Inv_upd_inactive i f s :
  Inv s -> is_active (upd i f s) i = false -> Inv (upd i f s).
Proof.
  intros (A & B & C) Hi. split; [exact A|split; [exact B|]].
  intros k Hk. destruct (Nat.eq_dec k i) as [->|Hne]; [congruence|].
  apply C. rewrite is_active_upd_other in Hk; assumption.
Qed.

Lemma Inv_finish i f s :
  Inv s -> is_active (upd i f s) i = false ->
  Inv (set_active (map_delete i (activeJobs (upd i f s))) (upd i f s)).
Proof.
  intros (A & B & C) Hi. split; [apply NoDup_map_delete, A|split].
  - simpl. unfold map_delete. pose proof (remove_length_le Nat.eq_dec (activeJobs s) i). lia.
  - intros k Hk. change (is_active (upd i f s) k = true) in Hk. simpl.
    destruct (Nat.eq_dec k i) as [->|Hne]; [congruence|].
    rewrite is_active_upd_other in Hk by assumption.
    apply in_in_remove; [assumption|apply C, Hk].
Qed.

(** [handleJobError] either leaves the pending list and [activeJobs] as
    they are (retry) or ends in a call of [processQueue] (error). *)
Lemma handleJobError_with_cases pq i e s :
  Inv s ->
  (Inv (handleJobError_with pq i e s)
   /\ jobQueue (handleJobError_with pq i e s) = jobQueue s
   /\ activeJobs (handleJobError_with pq i e s) = activeJobs s)
  \/ (exists s', Inv s' /\ length (jobQueue s') <= length (jobQueue s)
                 /\ handleJobError_with pq i e s = pq s').
Proof.
  intros HI. unfold handleJobError_with.
  destruct (job_at s i) as [j|] eqn:Hj; [|left; auto].
  destruct (Nat.ltb (S (retries j)) (maxRetries j)) eqn:Hr.
  - left. set (s1 := upd i _ s).
    assert (Inv s1) as H1.
    { apply Inv_upd_inactive; [exact HI|apply is_active_upd_failure; discriminate]. }
    simpl. rewrite broadcast_queue, broadcast_active.
    split; [|split; reflexivity].
    eapply Inv_same; [| |apply (Inv_broadcast "JOB_PROGRESS" i _ H1)]; reflexivity.
  - right. eexists. split; [|split; [|reflexivity]].
    + apply Inv_broadcast, Inv_finish; [exact HI|apply is_active_upd_failure; discriminate].
    + rewrite broadcast_queue. simpl. lia.
Qed.

(** What a [processQueue] implementation must preserve. *)
Definition pq_ok (pq : St -> St) : Prop :=
  forall s, Inv s -> Inv (pq s) /\ length (jobQueue (pq s)) <= length (jobQueue s).

Lemma handleJobError_with_inv pq i e s :
  pq_ok pq -> Inv s ->
  Inv (handleJobError_with pq i e s)
  /\ length (jobQueue (handleJobError_with pq i e s)) <= length (jobQueue s).
Proof.
  intros Hpq HI. destruct (handleJobError_with_cases pq i e s HI)
    as [(A & B & _)|(s' & A & B & ->)].
  - rewrite B. auto.
  - destruct (Hpq s' A). split; [assumption|lia].
Qed.

(** [startJob] may start a job that is already 'active' but was just
    deleted from [activeJobs] (the retry callback); there must be room. *)
Lemma startJob_with_inv pq i s :
  pq_ok pq -> NoDup (activeJobs s) -> length (activeJobs s) < MAX_CONCURRENT ->
  (forall k, k <> i -> is_active s k = true -> In k (activeJobs s)) ->
  Inv (startJob_with pq i s)
  /\ length (jobQueue (startJob_with pq i s)) <= length (jobQueue s).
Proof.
  intros Hpq A B C. unfold startJob_with.
  set (s1 := upd i (set_state Active) s).
  set (s2 := set_active (map_set i (activeJobs s1)) s1).
  assert (Inv s2) as H2.
  { split; [apply NoDup_map_set, A|split].
    - simpl. pose proof (length_map_set i (activeJobs s)). unfold MAX_CONCURRENT in *. lia.
    - intros k Hk. simpl. apply in_map_set.
      destruct (Nat.eq_dec k i) as [->|Hne]; [left; reflexivity|right].
      change (is_active s1 k = true) in Hk. unfold s1 in Hk.
      rewrite is_active_upd_other in Hk by assumption. apply C; assumption. }
  pose proof (Inv_broadcast "JOB_PROGRESS" i _ H2) as H3.
  set (s3 := broadcast "JOB_PROGRESS" i s2) in *.
  assert (length (jobQueue s3) = length (jobQueue s)) as Q3.
  { unfold s3. rewrite broadcast_queue. reflexivity. }
  destruct (job_at s3 i) as [j|]; [|split; [assumption|lia]].
  destruct (route j).
  - split; [eapply Inv_same; [reflexivity|reflexivity|exact H3]|simpl; lia].
  - unfold startNativeDownload_with.
    set (s4 := if nativePort s3 then s3 else set_port (nativeInstalled s3) s3).
    assert (Inv s4 /\ jobQueue s4 = jobQueue s3) as [H4 Q4].
    { unfold s4. destruct (nativePort s3); [auto|].
      split; [eapply Inv_same; [reflexivity|reflexivity|exact H3]|reflexivity]. }
    destruct (nativePort s4).
    + split; [eapply Inv_same; [reflexivity|reflexivity|exact H4]|simpl; rewrite Q4; lia].
    + destruct (handleJobError_with_inv pq i "Native companion app not available" s4 Hpq H4).
      split; [assumption|rewrite Q4 in *; lia].
Qed.

Lemma processQueue_fuel_inv f :
  pq_ok (processQueue_fuel f)
  /\ (forall s, Inv s -> length (jobQueue s) < f ->
        jobQueue (processQueue_fuel f s) = []
        \/ MAX_CONCURRENT <= length (activeJobs (processQueue_fuel f s))).
Proof.
  induction f as [|f [IHok IHq]].
  - split; [intros s H; simpl; auto|intros s _ H; simpl in H; lia].
  - assert (forall s, Inv s ->
      (Nat.ltb (length (activeJobs s)) MAX_CONCURRENT = true ->
       forall i q, jobQueue s = i :: q ->
       Inv (processQueue_fuel (S f) s)
       /\ length (jobQueue (processQueue_fuel (S f) s)) <= length q
       /\ (length q < f -> jobQueue (processQueue_fuel (S f) s) = []
           \/ MAX_CONCURRENT <= length (activeJobs (processQueue_fuel (S f) s))))) as Step.
    { intros s (A & B & C) Hl i q Hq. simpl. rewrite Hl, Hq.
      apply Nat.ltb_lt in Hl.
      destruct (startJob_with_inv (processQueue_fuel f) i (set_queue q s) IHok A Hl
                  (fun k _ Hk => C k Hk)) as [S1 S2].
      simpl in S2. destruct (IHok _ S1) as [T1 T2].
      split; [exact T1|split; [lia|]].
      intros Hlt. apply IHq; [exact S1|lia]. }
    split.
    + intros s HI. destruct (Nat.ltb (length (activeJobs s)) MAX_CONCURRENT) eqn:Hl.
      * destruct (jobQueue s) as [|i q] eqn:Hq.
        -- simpl. rewrite Hl, Hq. rewrite ?Hq. auto.
        -- destruct (Step s HI Hl i q Hq) as (T1 & T2 & _). split; [exact T1|simpl (length (_ :: _)); lia].
      * simpl. rewrite Hl. auto.
    + intros s HI Hlen. destruct (Nat.ltb (length (activeJobs s)) MAX_CONCURRENT) eqn:Hl.
      * destruct (jobQueue s) as [|i q] eqn:Hq.
        -- left. simpl. rewrite Hl, Hq. exact Hq.
        -- destruct (Step s HI Hl i q Hq) as (_ & _ & T3). apply T3. simpl in Hlen. lia.
      * right. simpl. rewrite Hl. apply Nat.ltb_ge in Hl. exact Hl.
Qed.

Lemma processQueue_good s : Inv s -> Good (processQueue s).
Proof.
  intros HI. unfold processQueue. destruct (processQueue_fuel_inv (S (length (jobQueue s))))
    as [Hok Hq].
  split; [apply Hok, HI|].
  intros Hne. destruct (Hq s HI) as [E|E]; [lia|contradiction|exact E].
Qed.

(** The retry callback: the job put back in front may still be 'active'
    (a second timer of the same job); it is started again at once. *)
Lemma processQueue_fuel_step f s i q :
  Nat.ltb (length (activeJobs s)) MAX_CONCURRENT = true -> jobQueue s = i :: q ->
  processQueue_fuel (S f) s
  = processQueue_fuel f (startJob_with (processQueue_fuel f) i (set_queue q s)).
Proof. intros Hl Hq. simpl. rewrite Hl, Hq. reflexivity. Qed.

Lemma processQueue_head_good s i q :
  jobQueue s = i :: q -> NoDup (activeJobs s) ->
  length (activeJobs s) < MAX_CONCURRENT ->
  (forall k, k <> i -> is_active s k = true -> In k (activeJobs s)) ->
  Good (processQueue s).
Proof.
  intros Hq A B C. destruct (processQueue_fuel_inv (S (length q))) as [IHok IHq].
  assert (Nat.ltb (length (activeJobs s)) MAX_CONCURRENT = true) as Hl by (apply Nat.ltb_lt, B).
  unfold processQueue. rewrite Hq. simpl (length (i :: q)).
  rewrite (processQueue_fuel_step _ s i q Hl Hq).
  destruct (startJob_with_inv (processQueue_fuel (S (length q))) i (set_queue q s) IHok A B C)
    as [S1 S2].
  assert (length (jobQueue (set_queue q s)) = length q) as E0 by reflexivity.
  split; [apply IHok, S1|].
  intros Hne. destruct (IHq _ S1) as [E|E]; [lia|contradiction|exact E].
Qed.

Lemma Good_same s s' :
  jobs s' = jobs s -> activeJobs s' = activeJobs s -> jobQueue s' = jobQueue s ->
  Good s -> Good s'.
Proof.
  intros Hj Ha Hq [HI HQ]. split; [eapply Inv_same; eassumption|]. rewrite Ha, Hq. exact HQ.
Qed.

Lemma completeJob_good i s : Good s -> Good (completeJob i s).
Proof.
  intros [HI _]. unfold completeJob. apply processQueue_good, Inv_broadcast, Inv_finish;
    [exact HI|apply is_active_upd_state; discriminate].
Qed.

Lemma handleJobError_good i e s : Good s -> Good (handleJobError i e s).
Proof.
  intros [HI HQ]. unfold handleJobError.
  destruct (handleJobError_with_cases processQueue i e s HI) as [(A & B & C)|(s' & A & _ & ->)].
  - split; [exact A|]. rewrite B, C. exact HQ.
  - apply processQueue_good, A.
Qed.

Lemma enqueue_inv it s : Inv s ->
  Inv (broadcast "JOB_ADDED" (length (jobs s))
         (set_queue (jobQueue s ++ [length (jobs s)])
            (set_jobs (jobs s ++ [newJob (length (jobs s)) it]) s))).
Proof.
  intros (A & B & C). apply Inv_broadcast. split; [exact A|split; [exact B|]].
  intros k Hk. apply C. unfold is_active, job_at in *. simpl in Hk.
  destruct (Nat.lt_ge_cases k (length (jobs s))) as [Hlt|Hge].
  - rewrite nth_error_app1 in Hk by assumption. exact Hk.
  - rewrite nth_error_app2 in Hk by assumption.
    destruct (k - length (jobs s)) as [|m]; simpl in Hk; [discriminate|].
    destruct m; discriminate.
Qed.

Lemma remove_first_nil i l : remove_first i l <> [] -> l <> [].
Proof. destruct l; simpl; congruence. Qed.

Lemma step_good s ev : Good s -> Good (step s ev).
Proof.
  intros HG. pose proof HG as [HI HQ]. destruct ev as [it|i m|i|i e|i|i|i|k|]; simpl.
  - unfold enqueueJob. apply processQueue_good. exact (enqueue_inv it s HI).
  - unfold handleNativeMessage. destruct (existsb (Nat.eqb i) (activeJobs s)); [|exact HG].
    destruct m as [| |e].
    + eapply Good_same; [apply broadcast_jobs|apply broadcast_active|apply broadcast_queue|exact HG].
    + apply completeJob_good, HG.
    + apply handleJobError_good, HG.
  - apply completeJob_good, HG.
  - apply handleJobError_good, HG.
  - unfold cancelJob. destruct (existsb (Nat.eqb i) (activeJobs s)).
    + apply processQueue_good, Inv_broadcast, Inv_finish;
        [exact HI|apply is_active_upd_state; discriminate].
    + destruct (existsb (Nat.eqb i) (jobQueue s)); [|exact HG].
      split.
      * apply Inv_broadcast, Inv_upd_inactive;
          [eapply Inv_same; [reflexivity|reflexivity|exact HI]
          |apply is_active_upd_state; discriminate].
      * rewrite broadcast_active, broadcast_queue. simpl.
        intros Hne. apply HQ, (remove_first_nil i), Hne.
  - unfold pauseJob. destruct (existsb (Nat.eqb i) (activeJobs s)); [|exact HG].
    split.
    + apply Inv_broadcast, Inv_upd_inactive; [exact HI|apply is_active_upd_state; discriminate].
    + rewrite broadcast_active, broadcast_queue. exact HQ.
  - unfold resumeJob. destruct (existsb (Nat.eqb i) (activeJobs s)) eqn:Hin; [|exact HG].
    apply existsb_in in Hin. split.
    + apply Inv_broadcast. destruct HI as (A & B & C). split; [exact A|split; [exact B|]].
      intros k Hk. destruct (Nat.eq_dec k i) as [->|Hne]; [exact Hin|].
      apply C. rewrite is_active_upd_other in Hk; assumption.
    + rewrite broadcast_active, broadcast_queue. exact HQ.
  - unfold fireTimer. destruct (nth_error (timers s) k) as [[i d]|]; [|exact HG].
    set (s0 := set_timers _ s). destruct HI as (A & B & C).
    destruct (in_dec Nat.eq_dec i (activeJobs s)) as [Hin|Hout].
    + eapply processQueue_head_good; [reflexivity| | |].
      * apply NoDup_map_delete, A.
      * simpl. unfold map_delete.
        pose proof (remove_length_lt Nat.eq_dec (activeJobs s) i Hin). lia.
      * intros k' Hne Hk. apply in_in_remove; [exact Hne|apply C, Hk].
    + apply processQueue_good. split; [apply NoDup_map_delete, A|split].
      * simpl. unfold map_delete. rewrite notin_remove by exact Hout. exact B.
      * intros k' Hk. simpl. unfold map_delete. rewrite notin_remove by exact Hout.
        apply C, Hk.
  - eapply Good_same; [reflexivity|reflexivity|reflexivity|exact HG].
Qed.

Lemma run_good s evs : Good s -> Good (run s evs).
Proof.
  revert s. induction evs as [|ev evs IH]; intros s HG; [exact HG|].
  simpl. apply IH, step_good, HG.
Qed.

Lemma count_active_le s : Inv s -> count_active s <= length (activeJobs s).
Proof.
  intros (A & B & C). unfold count_active. apply NoDup_incl_length.
  - apply NoDup_filter, seq_NoDup.
  - intros k Hk. apply filter_In in Hk. apply C, Hk.
Qed.

Lemma init_good b : Good (init b).
Proof.
  split; [split; [constructor|split; [simpl; unfold MAX_CONCURRENT; lia|]]|].
  - intros k Hk. unfold is_active, job_at in Hk. simpl in Hk. destruct k; discriminate.
  - simpl. congruence.
Qed.

End QueueFacts.

(** ** C1: the concurrency limit *)
Module QueueClaims.
Import Queue QueueInv QueueFacts Scenarios.

(** C1.  For every sequence of enqueues, native and download completions
    and failures, cancellations, pauses, resumes, retry callbacks and port
    disconnections, the number of jobs whose state is 'active' never
    exceeds MAX_CONCURRENT (2), [activeJobs] never holds more than 2 jobs,
    and the pending list is non-empty only while the limit is reached
    (jobs beyond the limit wait in [jobQueue]). *)
Theorem concurrency_limit (installed : bool) (evs : list Event) :
  let s := run (init installed) evs in
  count_active s <= MAX_CONCURRENT
  /\ length (activeJobs s) <= MAX_CONCURRENT
  /\ (jobQueue s <> [] -> length (activeJobs s) = MAX_CONCURRENT).
Proof.
  intros s. destruct (run_good (init installed) evs (init_good installed)) as [HI HQ].
  pose proof (count_active_le _ HI) as Hc. destruct HI as (_ & B & _).
  fold s in Hc, B, HQ. split; [lia|split; [exact B|]].
  intros Hne. specialize (HQ Hne). lia.
Qed.

(** ** C10: transport selection in [startJob] *)

Lemma broadcast_dispatched ty i s : dispatched (broadcast ty i s) = dispatched s.
Proof. unfold broadcast. destruct (job_at s i); reflexivity. Qed.

Lemma broadcast_port ty i s : nativePort (broadcast ty i s) = nativePort s.
Proof. unfold broadcast. destruct (job_at s i); reflexivity. Qed.

Lemma broadcast_installed ty i s : nativeInstalled (broadcast ty i s) = nativeInstalled s.
Proof. unfold broadcast. destruct (job_at s i); reflexivity. Qed.

Lemma job_at_upd_same i f s j : job_at s i = Some j -> job_at (upd i f s) i = Some (f j).
Proof.
  intros H. unfold job_at, upd, set_jobs in *. simpl.
  rewrite nth_error_list_upd, Nat.eqb_refl, H. reflexivity.
Qed.

Lemma route_set_state st j : route (set_state st j) = route j.
Proof. reflexivity. Qed.

(** C10.  [startJob] sends a job to chrome.downloads exactly when its mode
    is 'http', its [headers.Cookie] is not set (missing or empty, JS
    falsiness) and it has no conversion spec; every other job (hls, dash,
    blob, any other mode, or http with a Cookie or a conversion) is posted
    to the native companion, whose port is opened on demand.  The choice
    depends on nothing but these three fields. *)
Theorem startJob_transport (pq : St -> St) (i : nat) (s : St) (j : Job)
  (Hj : job_at s i = Some j)
  (Hport : nativePort s = true \/ nativeInstalled s = true) :
  (route j = ChromeDownloads
     <-> mode j = "http" /\ cookie_truthy (headers j) = false /\ convert j = None)
  /\ dispatched (startJob_with pq i s) = (dispatched s ++ [(i, route j)])%list.
Proof.
  split.
  - unfold route. split.
    + intro H. destruct (String.eqb (mode j) "http") eqn:Em;
        destruct (cookie_truthy (headers j)); destruct (convert j); simpl in H;
        try discriminate.
      apply String.eqb_eq in Em. auto.
    + intros (H1 & H2 & H3). rewrite H1, H2, H3. reflexivity.
  - unfold startJob_with.
    set (s3 := broadcast _ i _).
    assert (job_at s3 i = Some (set_state Active j)) as H3.
    { unfold s3. rewrite broadcast_job_at. unfold job_at. simpl.
      apply (job_at_upd_same i (set_state Active) s j Hj). }
    assert (dispatched s3 = dispatched s) as D3 by (unfold s3; rewrite broadcast_dispatched; reflexivity).
    rewrite H3, route_set_state.
    destruct (route j).
    + simpl. rewrite D3. reflexivity.
    + unfold startNativeDownload_with.
      assert (nativePort s3 = nativePort s /\ nativeInstalled s3 = nativeInstalled s) as [P1 P2].
      { unfold s3. rewrite broadcast_port, broadcast_installed. split; reflexivity. }
      clearbody s3. destruct (nativePort s3) eqn:Ep; simpl.
      * rewrite Ep. simpl. rewrite D3. reflexivity.
      * rewrite P2. destruct Hport as [Hp|Hp]; [congruence|]. rewrite Hp. simpl.
        rewrite D3. reflexivity.
Qed.

Lemma startJob_transport_witness :
  job_at cookie_state 0 = Some (newJob 0 (http_item "https://cdn.example/v.mp4" [("Cookie", "sid=1")] None))
  /\ (nativePort cookie_state = true \/ nativeInstalled cookie_state = true)
  /\ dispatched (startJob_with processQueue 0 cookie_state) = [(0, NativeApp)].
Proof.
  split; [reflexivity|split; [right; reflexivity|]].
  destruct (startJob_transport processQueue 0 cookie_state _ eq_refl (or_intror eq_refl)) as [_ H].
  rewrite H. reflexivity.
Defined.

(** ** C2: retries of a job that fails on every attempt *)

(** C2 at the failing input: with maxRetries 3 the job goes through only
    two retrying-then-requeued cycles (delays 2000 ms and 4000 ms) and the
    third failure is final: [job.retries] is incremented before it is
    compared with [maxRetries]. *)
Theorem retries_every_attempt_fails :
  timers (run (init true) (firstn 2 always_failing)) = [(0, 2000%Z)]
  /\ timers (run (init true) (firstn 4 always_failing)) = [(0, 4000%Z)]
  /\ broadcast_states (run (init true) always_failing)
     = [Queued; Active; Retrying; Active; Retrying; Active; Error]
  /\ option_map (fun j => (state j, retries j, maxRetries j))
       (job_at (run (init true) always_failing) 0) = Some (Error, 3, 3)
  /\ timers (run (init true) always_failing) = [].
Proof. vm_compute. repeat split. Qed.

(** ** C7: an hls job whose media playlist has no segments *)

Lemma broadcast_timers ty i s : timers (broadcast ty i s) = timers s.
Proof. unfold broadcast. destruct (job_at s i); reflexivity. Qed.

Lemma upd_active i f s : activeJobs (upd i f s) = activeJobs s.
Proof. reflexivity. Qed.

Lemma upd_timers i f s : timers (upd i f s) = timers s.
Proof. reflexivity. Qed.




End QueueClaims.

(** ** Facts about the binary64 model *)
Module FloatFacts.
Open Scope Q_scope.

Lemma Qle_0_num x : 0 <= x <-> (0 <= Qnum x)%Z.
Proof. unfold Qle; simpl; lia. Qed.

Lemma Qle_num_0 x : x <= 0 <-> (Qnum x <= 0)%Z.
Proof. unfold Qle; simpl; lia. Qed.

Lemma Qlt_0_num x : 0 < x <-> (0 < Qnum x)%Z.
Proof. unfold Qlt; simpl; lia. Qed.

Lemma Qlt_bool_iff a b : Qlt_bool a b = true <-> a < b.
Proof.
  unfold Qlt_bool. rewrite negb_true_iff. split.
  - intros H. apply Qnot_le_lt. intros H'. apply Qle_bool_iff in H'. congruence.
  - intros H. destruct (Qle_bool b a) eqn:E; [|reflexivity].
    apply Qle_bool_iff in E. exfalso. apply (Qlt_not_le _ _ H E).
Qed.

Lemma rne_nonneg n d : (0 <= n)%Z -> (0 < d)%Z -> (0 <= F.rne n d)%Z.
Proof.
  intros Hn Hd. unfold F.rne.
  assert (0 <= n / d)%Z by (apply Z.div_pos; lia).
  destruct (2 * (n mod d) ?= d)%Z; [destruct (Z.even (n / d))|..]; lia.
Qed.

(** A rounded nonnegative value is 0 itself or positive. *)
Lemma round_pos_zero_or_pos a d :
  (0 < d)%Z -> (0 <= a)%Z -> F.round_pos a d = 0 \/ 0 < F.round_pos a d.
Proof.
  intros Hd Ha. unfold F.round_pos.
  destruct (a =? 0)%Z; [left; reflexivity|].
  set (k := Z.max _ _).
  destruct (0 <=? k)%Z eqn:Ek.
  - apply Z.leb_le in Ek.
    assert (P : (0 < 2 ^ k)%Z) by (apply Z.pow_pos_nonneg; lia).
    assert (M : (0 <= F.rne a (d * 2 ^ k))%Z) by (apply rne_nonneg; nia).
    destruct (Z.eq_dec (F.rne a (d * 2 ^ k)) 0) as [E|E].
    + left. rewrite E. reflexivity.
    + right. apply Qlt_0_num. simpl. nia.
  - apply Z.leb_gt in Ek.
    assert (P : (0 < 2 ^ (- k))%Z) by (apply Z.pow_pos_nonneg; lia).
    assert (M : (0 <= F.rne (a * 2 ^ (- k)) d)%Z) by (apply rne_nonneg; nia).
    destruct (Z.eq_dec (F.rne (a * 2 ^ (- k)) d) 0) as [E|E].
    + left. rewrite E. reflexivity.
    + right. rewrite Qred_correct. apply Qlt_0_num. simpl. lia.
Qed.

Lemma round_pos_nonneg a d : (0 < d)%Z -> (0 <= a)%Z -> 0 <= F.round_pos a d.
Proof.
  intros Hd Ha. destruct (round_pos_zero_or_pos a d Hd Ha) as [E|E].
  - rewrite E. apply Qle_refl.
  - apply Qlt_le_weak. exact E.
Qed.

Lemma round_Qnum0 x : Qnum x = 0%Z -> F.round x = 0.
Proof. intros H. unfold F.round, F.round_pos. rewrite H. reflexivity. Qed.

Lemma round_nonneg x : 0 <= x -> 0 <= F.round x.
Proof.
  intros H. apply Qle_0_num in H. unfold F.round.
  destruct (Qnum x <? 0)%Z eqn:E; [apply Z.ltb_lt in E; lia|].
  apply round_pos_nonneg; lia.
Qed.

Lemma round_nonpos x : x <= 0 -> F.round x <= 0.
Proof.
  intros H. apply Qle_num_0 in H. unfold F.round.
  destruct (Qnum x <? 0)%Z eqn:E.
  - apply Z.ltb_lt in E.
    assert (R := round_pos_nonneg (- Qnum x) (Zpos (Qden x)) eq_refl ltac:(lia)).
    apply Qle_0_num in R. apply Qle_num_0. simpl. lia.
  - assert (Qnum x = 0%Z) as Z0 by (apply Z.ltb_ge in E; lia).
    rewrite Z0. apply Qle_refl.
Qed.

(** A rounded value that is neither negative nor positive is the literal 0. *)
Lemma round_zero x : ~ F.round x < 0 -> F.round x <= 0 -> F.round x = 0.
Proof.
  intros Hn Hp. unfold F.round in *.
  destruct (Qnum x <? 0)%Z eqn:E.
  - apply Z.ltb_lt in E.
    destruct (round_pos_zero_or_pos (- Qnum x) (Zpos (Qden x)) eq_refl ltac:(lia)) as [Z0|P].
    + rewrite Z0. reflexivity.
    + exfalso. apply Hn. apply Qlt_0_num in P. unfold Qlt. simpl. lia.
  - apply Z.ltb_ge in E.
    destruct (round_pos_zero_or_pos (Qnum x) (Zpos (Qden x)) eq_refl E) as [Z0|P].
    + exact Z0.
    + exfalso. exact (Qlt_not_le _ _ P Hp).
Qed.

Lemma Qnum_div a b : 0 < b -> Qnum (a / b) = (Qnum a * Zpos (Qden b))%Z.
Proof.
  intros H. destruct b as [[|p|p] q]; unfold Qlt in H; simpl in H; try lia.
  reflexivity.
Qed.

Lemma div_nonneg a b : 0 < b -> 0 <= a -> 0 <= F.div a b.
Proof.
  intros Hb Ha. unfold F.div. apply round_nonneg.
  apply Qle_0_num. rewrite Qnum_div by exact Hb. apply Qle_0_num in Ha. lia.
Qed.

Lemma div_nonpos a b : 0 < b -> a < 0 -> F.div a b <= 0.
Proof.
  intros Hb Ha. unfold F.div. apply round_nonpos.
  apply Qle_num_0. rewrite Qnum_div by exact Hb.
  unfold Qlt in Ha. simpl in Ha. lia.
Qed.

Lemma mul_0_r x : F.mul x 0 = 0.
Proof. apply round_Qnum0. simpl. lia. Qed.

Lemma div_0_l x : F.div 0 x = 0.
Proof. apply round_Qnum0. reflexivity. Qed.

Lemma add_0_0 : F.add 0 0 = 0.
Proof. reflexivity. Qed.

End FloatFacts.

(** ** Claims about the progress estimator (extension and Go companion) *)
Module EstimatorClaims.
Import Progress GoProgress Scenarios SpecWords FloatFacts.
Open Scope Q_scope.

Lemma onChanged_etb t d j :
  expectedTotalBytes (onChanged t d j) = expectedTotalBytes j.
Proof.
  unfold onChanged.
  destruct (d_totalBytes d) as [tb|]; [destruct (Qlt_bool 0 tb)|];
  destruct (d_bytesReceived d); reflexivity.
Qed.

Lemma onChanged_eta_none t d j :
  expectedTotalBytes j = None -> etaSeconds j = None ->
  etaSeconds (onChanged t d j) = None.
Proof.
  intros He Hn. unfold onChanged.
  destruct (d_totalBytes d) as [tb|]; [destruct (Qlt_bool 0 tb)|];
  destruct (d_bytesReceived d); simpl; rewrite ?He; auto.
Qed.

Lemma onChanged_run_inv evs j :
  expectedTotalBytes j = None -> etaSeconds j = None ->
  etaSeconds (onChanged_run j evs) = None.
Proof.
  revert j. induction evs as [|[t d] evs IH]; intros j He Hn; [exact Hn|].
  simpl. apply IH.
  - rewrite onChanged_etb. exact He.
  - apply onChanged_eta_none; assumption.
Qed.

Lemma sub_three_quarters : F.sub 1 (1 # 4) = 3 # 4.
Proof. vm_compute. reflexivity. Qed.

(** The instantaneous speed [updateSpeedAndEta] feeds to its EMA. *)
Lemma inst_guard dB dt :
  (let inst := if Qlt_bool 0 dt then F.div dB dt else 0 in
   if Qlt_bool inst 0 then 0 else inst)
  = (if Qlt_bool 0 dt && Qle_bool 0 dB then F.div dB dt else 0).
Proof.
  cbv zeta. destruct (Qlt_bool 0 dt) eqn:Edt; [|reflexivity].
  apply Qlt_bool_iff in Edt. simpl.
  destruct (Qle_bool 0 dB) eqn:EdB.
  - apply Qle_bool_iff in EdB.
    destruct (Qlt_bool (F.div dB dt) 0) eqn:En; [|reflexivity].
    apply Qlt_bool_iff in En. exfalso.
    exact (Qlt_not_le _ _ En (div_nonneg dB dt Edt EdB)).
  - assert (Hn : dB < 0).
    { apply Qnot_le_lt. intros H. apply Qle_bool_iff in H. congruence. }
    destruct (Qlt_bool (F.div dB dt) 0) eqn:En; [reflexivity|].
    apply round_zero.
    + intros H. apply (proj2 (Qlt_bool_iff _ _)) in H. unfold F.div in En. congruence.
    + exact (div_nonpos dB dt Edt Hn).
Qed.

(** [C4] The extension reports [percent = 0], not null, for a job whose
    total size is unknown; its percentage is [floor(bytes / total * 100)]
    in doubles, which differs from [floor(100 * bytes / total)] (29 of 100
    bytes give 28); the Go companion's progress message also carries
    percent 0 when the total is unknown, and the extension keeps that 0. *)
Theorem percent_zero_not_null :
  (forall t br now,
     let j := onChanged t {| d_totalBytes := None; d_bytesReceived := Some br |}
                        (newPJob None now) in
     expectedTotalBytes j = None /\ percent j = Some 0%Z)
  /\ fmtPercent 29 100 = Some 28%Z /\ Qfloor (100 * 29 / 100) = 29%Z
  /\ (forall now b job,
        match snd (sendProgress now b 0 job) with
        | Some pm => pm_percent pm = 0%Z
        | None => True
        end)
  /\ (forall br speed eta job,
        percent (onNativeProgress
                   {| np_bytesReceived := br; np_totalBytes := 0; np_speedBps := speed;
                      np_etaSec := eta; np_percent := 0 |} job) = Some 0%Z).
Proof.
  split; [|split; [|split; [|split]]].
  - intros t br now. split; reflexivity.
  - vm_compute. reflexivity.
  - vm_compute. reflexivity.
  - intros now b job. unfold sendProgress.
    destruct (Qlt_bool _ (1 # 2)); reflexivity.
  - intros. reflexivity.
Qed.

(** [C5] In the extension no update ever computes an ETA: a job's
    [expectedTotalBytes] is never assigned, so after any sequence of
    download deltas [etaSeconds] stays null, even with a known size and a
    positive speed.  The Go companion truncates instead of rounding up:
    1000 bytes left at 300 B/s give 3 s, where ceil gives 4. *)
Theorem eta_never_computed :
  (forall sz now evs, etaSeconds (onChanged_run (newPJob sz now) evs) = None)
  /\ option_map pm_etaSec (snd (sendProgress 1000000000 300 1300 go_job_1300)) = Some 3%Z
  /\ claimed_eta 1300 300 300 = 4%Z.
Proof.
  split; [|split].
  - intros sz now evs. apply onChanged_run_inv; reflexivity.
  - vm_compute. reflexivity.
  - vm_compute. reflexivity.
Qed.



End EstimatorClaims.

(** ** Claims about the Go job manager *)
Module GoJobClaims.
Import GoJob.

Lemma download_err_cancelled mode x :
  exists e, download_err mode true x = Some e.
Proof.
  unfold download_err.
  destruct (String.eqb mode "hls" || String.eqb mode "dash" || String.eqb mode "http");
  eexists; reflexivity.
Qed.

Lemma run_msg_cancelled md x : run_msg md true x = "error".
Proof.
  unfold run_msg. destruct (panics x); [reflexivity|].
  destruct (download_err_cancelled md (dl_exit x)) as [e He]. rewrite He. reflexivity.
Qed.

(** [C3] A job cancelled while its download runs emits two terminal
    events: [Cancel] sends 'canceled', and the killed ffmpeg makes
    [job.run] send 'error' as well, whatever the mode and however ffmpeg
    would have ended. *)
Theorem cancel_in_flight_two_terminal_events :
  forall id mode x,
    terminal_events id (grun empty [GStart id mode; GCancel id; GExit id x])
    = ["canceled"; "error"].
Proof.
  intros id mode x.
  unfold grun. simpl. unfold Cancel, Finish. simpl. rewrite String.eqb_refl. simpl.
  rewrite String.eqb_refl. simpl. rewrite run_msg_cancelled. unfold terminal_events. simpl.
  rewrite String.eqb_refl. reflexivity.
Qed.

End GoJobClaims.

(** ** Claims about the Node host's HLS downloader *)
Module HLSClaims.
Import NodeHLS.

(** [C8] A failed HLS download leaves its temporary files behind: when the
    second segment answers 404, [downloadHLS] rejects with the temporary
    directory and the first two segment files still on disk; when the
    concatenation fails, the directory and every segment file stay. *)
Theorem hls_failure_leaves_temp_files :
  downloadHLS "/tmp" "1700000000000" "1700000000500"
    [SegResponse 200 1000; SegResponse 404 0] 0 []
  = (inr "HTTP 404",
     ["/tmp/vidown-hls-1700000000000";
      "/tmp/vidown-hls-1700000000000/segment-00000.ts";
      "/tmp/vidown-hls-1700000000000/segment-00001.ts"])
  /\ downloadHLS "/tmp" "1700000000000" "1700000000500"
       [SegResponse 200 1000; SegResponse 200 1000] 1 []
     = (inr "ffmpeg exited with code 1",
        ["/tmp/vidown-hls-1700000000000";
         "/tmp/vidown-hls-1700000000000/segment-00000.ts";
         "/tmp/vidown-hls-1700000000000/segment-00001.ts"]).
Proof. split; vm_compute; reflexivity. Qed.

End HLSClaims.

(** ** Claims about the native-messaging framing *)
Module IpcClaims.
Import Ipc Scenarios.

Lemma length_append (a b : string) :
  String.length (a ++ b) = (String.length a + String.length b)%nat.
Proof. induction a as [|c a IH]; simpl; [reflexivity|rewrite IH; reflexivity]. Qed.

Lemma take_append (a b : string) : take (String.length a) (a ++ b) = a.
Proof. induction a as [|c a IH]; simpl; [destruct b; reflexivity|rewrite IH; reflexivity]. Qed.

Lemma drop_append (a b : string) : drop (String.length a) (a ++ b) = b.
Proof. induction a as [|c a IH]; simpl; [reflexivity|exact IH]. Qed.

Lemma N_of_ascii_of_N_mod (n : N) : N_of_ascii (ascii_of_N (n mod 256)) = (n mod 256)%N.
Proof.
  apply N_ascii_embedding. apply N.mod_lt. discriminate.
Qed.

Lemma le32_digits (n : N) :
  (n < 4294967296)%N ->
  (n mod 256 + 256 * ((n / 256) mod 256 + 256 * ((n / 65536) mod 256
     + 256 * ((n / 16777216) mod 256))))%N = n.
Proof.
  intros H.
  replace (n / 65536)%N with (n / 256 / 256)%N by (rewrite N.Div0.div_div; reflexivity).
  replace (n / 16777216)%N with (n / 256 / 256 / 256)%N
    by (rewrite !N.Div0.div_div; reflexivity).
  assert (E3 : (n / 256 / 256 / 256 < 256)%N).
  { rewrite !N.Div0.div_div. apply N.Div0.div_lt_upper_bound. exact H. }
  rewrite (N.mod_small (n / 256 / 256 / 256)) by exact E3.
  pose proof (N.div_mod' n 256) as D1.
  pose proof (N.div_mod' (n / 256) 256) as D2.
  pose proof (N.div_mod' (n / 256 / 256) 256) as D3.
  lia.
Qed.


(** The framing is transparent: for a message whose JSON is shorter
    than 2^32 bytes, [ReadMsg] on [Send m] followed by any further bytes
    returns exactly what [json.Unmarshal] makes of [json.Marshal(m)], and
    leaves the further bytes unread. *)
Theorem framing_roundtrip :
  forall (m : Msg) (rest : string),
    (N.of_nat (String.length (Marshal (GMap m))) < 4294967296)%N ->
    ReadMsg (Send m ++ rest)
    = option_map (fun v => (v, rest)) (Unmarshal (Marshal (GMap m))).
Proof.
  intros m rest H. unfold Send.
  set (b := Marshal (GMap m)) in *. clearbody b.
  unfold le32. simpl. rewrite !N_of_ascii_of_N_mod, le32_digits by exact H.
  rewrite Nat2N.id, length_append.
  destruct (Nat.ltb_spec (String.length b + String.length rest) (String.length b)); [lia|].
  rewrite take_append, drop_append.
  destruct (Unmarshal b); reflexivity.
Qed.

End IpcClaims.

(** * String lemmas shared by the proofs below *)

Module StrFacts.

Lemma sapp_assoc (a b c : string) : (a ++ b) ++ c = a ++ (b ++ c).
Proof. induction a as [|x a IH]; cbn; [reflexivity|rewrite IH; reflexivity]. Qed.

Lemma sapp_nil_r (a : string) : a ++ "" = a.
Proof. induction a as [|x a IH]; cbn; [reflexivity|rewrite IH; reflexivity]. Qed.

Lemma concat_nil_cons (a : string) l : String.concat "" (a :: l) = a ++ String.concat "" l.
Proof. destruct l; [cbn; rewrite sapp_nil_r; reflexivity|reflexivity]. Qed.

Lemma slength_app (a b : string) :
  String.length (a ++ b) = (String.length a + String.length b)%nat.
Proof. induction a as [|x a IH]; cbn; [reflexivity|rewrite IH; reflexivity]. Qed.

End StrFacts.

Module JsonFacts.
Import Ipc IpcGet JsonDefs StrFacts.







Lemma esc_step c : nat_of_ascii c < 128 ->
  forall f t acc, parse_str (S f) (esc_char (nat_of_ascii c) ++ t) acc
                  = parse_str f t (acc ++ String c "").
Proof.
  destruct c as [[] [] [] [] [] [] [] []]; intros H f t acc;
    try (exfalso; apply Nat.ltb_lt in H; vm_compute in H; discriminate H);
    reflexivity.
Qed.

Lemma escape_cons c r : nat_of_ascii c < 128 ->
  escape (String c r) = esc_char (nat_of_ascii c) ++ escape r.
Proof.
  intros H. destruct r as [|c1 [|c2 r2]]; try reflexivity.
  assert (E : is_sep c c1 c2 = false).
  { unfold is_sep, code. destruct (Nat.eqb_spec (nat_of_ascii c) 226); [lia|reflexivity]. }
  change (escape (String c (String c1 (String c2 r2))))
    with (if is_sep c c1 c2 then u4 (8232 + (code c2 - 168)) ++ escape r2
          else esc_char (code c) ++ escape (String c1 (String c2 r2))).
  rewrite E. reflexivity.
Qed.

Lemma esc_char_length n : 1 <= String.length (esc_char n).
Proof.
  unfold esc_char, u4, bslash, chr.
  repeat match goal with |- context [if ?b then _ else _] => destruct b end;
    cbn [String.length String.append]; lia.
Qed.

Lemma escape_length s : is_ascii s = true -> String.length s <= String.length (escape s).
Proof.
  induction s as [|c r IH]; intros H; [cbn; lia|].
  cbn [is_ascii] in H. apply andb_prop in H as [H1 H2]. apply Nat.ltb_lt in H1.
  rewrite (escape_cons c r H1), slength_app.
  pose proof (esc_char_length (nat_of_ascii c)). specialize (IH H2).
  cbn [String.length]. lia.
Qed.

Lemma str_rt s : is_ascii s = true ->
  forall f t acc, String.length s < f ->
  parse_str f (escape s ++ quote ++ t) acc = Some (acc ++ s, t).
Proof.
  induction s as [|c r IH]; intros H f t acc Hf.
  - destruct f as [|f]; [simpl in Hf; lia|]. simpl. rewrite sapp_nil_r. reflexivity.
  - simpl in H. apply andb_prop in H as [H1 H2]. apply Nat.ltb_lt in H1.
    destruct f as [|f]; [simpl in Hf; lia|].
    rewrite (escape_cons c r H1), sapp_assoc, (esc_step c H1).
    rewrite (IH H2) by (simpl in Hf; lia).
    rewrite sapp_assoc. reflexivity.
Qed.

Lemma quote_eq : quote = String (Ascii false true false false false true false false) "".
Proof. reflexivity. Qed.

Lemma parse_value_str f r :
  parse_value (S f) (String (Ascii false true false false false true false false) r)
  = option_map (fun p => (GStr (fst p), snd p)) (parse_str (S (String.length r)) r "").
Proof. reflexivity. Qed.

Lemma parse_value_quoted s t f : is_ascii s = true ->
  parse_value (S f) (quoted s ++ t) = Some (GStr s, t).
Proof.
  intros H. unfold quoted. rewrite !sapp_assoc.
  rewrite quote_eq at 1. cbn [String.append]. rewrite parse_value_str.
  rewrite str_rt by (try exact H; rewrite slength_app; pose proof (escape_length s H); cbn [String.length]; lia).
  reflexivity.
Qed.

Lemma parse_members_q f r acc :
  parse_members (S f) (String QC r) acc =
  match parse_str (S (String.length r)) r "" with
  | None => None
  | Some (k, r1) =>
      match skip_ws r1 with
      | String col r2 =>
          if Nat.eqb (code col) 58 then
            match parse_value f r2 with
            | None => None
            | Some (v, r3) =>
                match skip_ws r3 with
                | String d r4 =>
                    if Nat.eqb (code d) 44 then parse_members f r4 (map_put k v acc)
                    else if Nat.eqb (code d) 125 then Some (GMap (map_put k v acc), r4)
                    else None
                | "" => None
                end
            end
          else None
      | "" => None
      end
  end.
Proof. reflexivity. Qed.

Lemma map_put_fresh k v acc : ~ In k (map fst acc) -> map_put k v acc = (acc ++ [(k, v)])%list.
Proof.
  induction acc as [|[k' v'] acc IH]; intros H; [reflexivity|].
  simpl in *. destruct (String.eqb_spec k k'); [subst; tauto|].
  rewrite IH by tauto. reflexivity.
Qed.

Lemma entry_step k v r f acc : is_ascii k = true -> is_ascii v = true ->
  parse_members (S (S f)) (entry (k, v) ++ r) acc =
  match skip_ws r with
  | String d r4 =>
      if Nat.eqb (code d) 44 then parse_members (S f) r4 (map_put k (GStr v) acc)
      else if Nat.eqb (code d) 125 then Some (GMap (map_put k (GStr v) acc), r4)
      else None
  | "" => None
  end.
Proof.
  intros Hk Hv. unfold entry, quoted; cbn [fst snd]. rewrite !sapp_assoc.
  rewrite quote_eq at 1. cbn [String.append]. fold QC. rewrite parse_members_q.
  rewrite str_rt by (try exact Hk; rewrite !slength_app; pose proof (escape_length k Hk); cbn [String.length]; lia).
  change ((":" ++ (quote ++ escape v ++ quote) ++ r)) with (String ":" ((quote ++ escape v ++ quote) ++ r)).
  cbn [String.append skip_ws].
  replace (is_ws ":"%char) with false by reflexivity.
  replace (Nat.eqb (code ":"%char) 58) with true by reflexivity.
  replace (quote ++ escape v ++ quote ++ r) with (quoted v ++ r)
    by (unfold quoted; rewrite !sapp_assoc; reflexivity).
  rewrite parse_value_quoted by exact Hv. reflexivity.
Qed.

Lemma concat_cons2 (x y : string) (l : list string) :
  String.concat "," (x :: y :: l) = x ++ "," ++ String.concat "," (y :: l).
Proof. reflexivity. Qed.

Lemma members_rt L : forall acc f t,
  Forall ok_kv L -> NoDup (map fst L) ->
  (forall k, In k (map fst L) -> ~ In k (map fst acc)) ->
  L <> [] -> length L < f ->
  parse_members f (String.concat "," (map entry L) ++ "}" ++ t) acc
  = Some (GMap (acc ++ str_msg L), t).
Proof.
  induction L as [|[k v] L IH]; intros acc f t Hok Hnd Hdis Hne Hf; [congruence|].
  inversion Hok as [|? ? [Hk Hv] Hok']; subst.
  simpl in Hnd. inversion Hnd as [|? ? Hnin Hnd']; subst.
  destruct f as [|[|f]]; [simpl in Hf; lia|simpl in Hf; lia|].
  assert (Hfresh : ~ In k (map fst acc)) by (apply Hdis; left; reflexivity).
  destruct L as [|[k2 v2] L].
  - cbn [map String.concat]. rewrite entry_step by assumption.
    cbn [String.append skip_ws].
    replace (is_ws "}"%char) with false by reflexivity.
    replace (Nat.eqb (code "}"%char) 44) with false by reflexivity.
    replace (Nat.eqb (code "}"%char) 125) with true by reflexivity.
    rewrite map_put_fresh by exact Hfresh. reflexivity.
  - cbn [map]. rewrite concat_cons2, !sapp_assoc.
    rewrite entry_step by assumption.
    cbn [String.append skip_ws].
    replace (is_ws ","%char) with false by reflexivity.
    replace (Nat.eqb (code ","%char) 44) with true by reflexivity.
    rewrite map_put_fresh by exact Hfresh.
    change (String.concat "," (entry (k2, v2) :: map entry L))
      with (String.concat "," (map entry ((k2, v2) :: L))).
    change (String "}"%char t) with ("}" ++ t).
    rewrite IH; [| exact Hok' | exact Hnd' | | congruence | simpl in *; lia].
    + rewrite <- app_assoc. reflexivity.
    + intros k0 Hin Hin'. rewrite map_app in Hin'. apply in_app_or in Hin' as [H1|H1].
      * apply (Hdis k0); [right; exact Hin | exact H1].
      * simpl in H1. destruct H1 as [H1|[]]. subst. contradiction.
Qed.

Lemma insert_key_map {A B} (g : A -> B) k v l :
  insert_key k (g v) (map (fun kv => (fst kv, g (snd kv))) l)
  = map (fun kv => (fst kv, g (snd kv))) (insert_key k v l).
Proof.
  induction l as [|[k' v'] l IH]; [reflexivity|]. cbn [map insert_key fst snd].
  destruct (String.leb k k'); [reflexivity|]. rewrite IH. reflexivity.
Qed.

Lemma sort_keys_map {A B} (g : A -> B) l :
  sort_keys (map (fun kv => (fst kv, g (snd kv))) l)
  = map (fun kv => (fst kv, g (snd kv))) (sort_keys l).
Proof.
  induction l as [|[k v] l IH]; [reflexivity|]. unfold sort_keys in *. cbn [map fold_right fst snd].
  rewrite IH. apply insert_key_map.
Qed.

Lemma insert_key_perm {A} k (v : A) l : Permutation (insert_key k v l) ((k, v) :: l).
Proof.
  induction l as [|[k' v'] l IH]; [reflexivity|]. cbn [insert_key].
  destruct (String.leb k k'); [reflexivity|].
  eapply perm_trans; [apply perm_skip, IH|]. apply perm_swap.
Qed.

Lemma sort_keys_perm {A} (l : list (string * A)) : Permutation (sort_keys l) l.
Proof.
  induction l as [|[k v] l IH]; [reflexivity|]. unfold sort_keys in *. cbn [fold_right fst snd].
  eapply perm_trans; [apply insert_key_perm|]. apply perm_skip, IH.
Qed.

Lemma marshal_str_msg sm :
  Marshal (GMap (str_msg sm)) = "{" ++ String.concat "," (map entry (sort_keys sm)) ++ "}".
Proof.
  cbn [Marshal].
  assert (E : map (fun '(k, x) => (k, Marshal x)) (str_msg sm)
              = map (fun kv => (fst kv, quoted (snd kv))) sm).
  { induction sm as [|[k v] sm IH]; [reflexivity|]. cbn [map str_msg]. rewrite <- IH. reflexivity. }
  rewrite E, (sort_keys_map quoted), map_map. reflexivity.
Qed.

Lemma entry_length kv : 1 <= String.length (entry kv).
Proof. destruct kv. unfold entry, quoted. cbn. lia. Qed.

Lemma concat_entry_length L : length L <= String.length (String.concat "," (map entry L)).
Proof.
  induction L as [|x [|y L] IH]; [cbn; lia| |].
  - cbn [map String.concat length]. pose proof (entry_length x). lia.
  - cbn [map] in *. rewrite concat_cons2, !slength_app. cbn [length] in *.
    pose proof (entry_length x). cbn [String.length]. lia.
Qed.

Lemma concat_entry_head x L : exists r, String.concat "," (map entry (x :: L)) = entry x ++ r.
Proof.
  destruct L as [|y L].
  - exists "". rewrite sapp_nil_r. reflexivity.
  - exists ("," ++ String.concat "," (map entry (y :: L))). reflexivity.
Qed.

Lemma parse_value_obj f r :
  parse_value (S f) (String "{"%char r) =
  match skip_ws r with
  | String d r1 => if Nat.eqb (code d) 125 then Some (GMap [], r1) else parse_members f r []
  | "" => None
  end.
Proof. reflexivity. Qed.

Lemma entry_starts kv r : entry kv ++ r = String QC (escape (fst kv) ++ quote ++ ":" ++ quoted (snd kv) ++ r).
Proof. unfold entry, quoted. rewrite !sapp_assoc. reflexivity. Qed.

Lemma decode_str_msg sm :
  Forall ok_kv sm -> NoDup (map fst sm) ->
  Unmarshal (Marshal (GMap (str_msg sm))) = Some (GMap (str_msg (sort_keys sm))).
Proof.
  intros Hok Hnd.
  destruct sm as [|x0 sm0] eqn:Esm; [reflexivity|]. rewrite <- Esm in *.
  pose proof (sort_keys_perm sm) as Hp.
  assert (HL : sort_keys sm <> []).
  { intros E. rewrite E in Hp. apply Permutation_nil in Hp. subst. discriminate. }
  rewrite marshal_str_msg. unfold Unmarshal.
  set (L := sort_keys sm) in *.
  destruct L as [|x L'] eqn:EL; [congruence|].
  destruct (concat_entry_head x L') as [r Hr].
  assert (Hfuel : length (x :: L') < String.length ("{" ++ String.concat "," (map entry (x :: L')) ++ "}")).
  { pose proof (concat_entry_length (x :: L')). rewrite !slength_app. cbn [String.length]. lia. }
  revert Hfuel. generalize (String.length ("{" ++ String.concat "," (map entry (x :: L')) ++ "}")).
  intros n Hfuel. destruct n as [|n]; [lia|].
  change ("{" ++ String.concat "," (map entry (x :: L')) ++ "}")
    with (String "{"%char (String.concat "," (map entry (x :: L')) ++ "}")).
  rewrite parse_value_obj.
  assert (Hs : exists X, skip_ws (String.concat "," (map entry (x :: L')) ++ "}") = String QC X)
    by (rewrite Hr, sapp_assoc, entry_starts; eexists; reflexivity).
  destruct Hs as [X Hs]. rewrite Hs.
  replace (Nat.eqb (code QC) 125) with false by reflexivity.
  rewrite <- (sapp_nil_r "}"), members_rt; [reflexivity| | | |congruence|cbn [length] in *; lia].
  - apply (Permutation_Forall (Permutation_sym Hp)), Hok.
  - apply (Permutation_NoDup (Permutation_map fst (Permutation_sym Hp))), Hnd.
  - intros k _ [].
Qed.

(** [X1] A message whose keys and values are 7-bit strings, with distinct
    keys, decodes from its [json.Marshal] text to the same entries, in
    sorted key order: [json.Unmarshal] gives back what was marshalled. *)
Theorem unmarshal_marshal_strings sm :
  Forall ok_kv sm -> NoDup (map fst sm) ->
  Unmarshal (Marshal (GMap (str_msg sm))) = Some (GMap (str_msg (sort_keys sm))).
Proof. exact (decode_str_msg sm). Qed.

Lemma take_app (a b : string) : take (String.length a) (a ++ b) = a.
Proof. induction a as [|c a IH]; cbn; [destruct b; reflexivity|rewrite IH; reflexivity]. Qed.

Lemma drop_app (a b : string) : drop (String.length a) (a ++ b) = b.
Proof. induction a as [|c a IH]; cbn; [reflexivity|exact IH]. Qed.

Lemma N_of_ascii_mod (n : N) : N_of_ascii (ascii_of_N (n mod 256)) = (n mod 256)%N.
Proof. apply N_ascii_embedding. apply N.mod_lt. discriminate. Qed.

Lemma le32_value (n : N) :
  (n < 4294967296)%N ->
  (n mod 256 + 256 * ((n / 256) mod 256 + 256 * ((n / 65536) mod 256
     + 256 * ((n / 16777216) mod 256))))%N = n.
Proof.
  intros H.
  replace (n / 65536)%N with (n / 256 / 256)%N by (rewrite N.Div0.div_div; reflexivity).
  replace (n / 16777216)%N with (n / 256 / 256 / 256)%N
    by (rewrite !N.Div0.div_div; reflexivity).
  assert (E3 : (n / 256 / 256 / 256 < 256)%N).
  { rewrite !N.Div0.div_div. apply N.Div0.div_lt_upper_bound. exact H. }
  rewrite (N.mod_small (n / 256 / 256 / 256)) by exact E3.
  pose proof (N.div_mod' n 256) as D1.
  pose proof (N.div_mod' (n / 256) 256) as D2.
  pose proof (N.div_mod' (n / 256 / 256) 256) as D3.
  lia.
Qed.

(** The length prefix of a frame reads back as the length of its body. *)
Lemma read_frame (b rest : string) :
  (N.of_nat (String.length b) < 4294967296)%N ->
  ReadMsg (le32 (N.of_nat (String.length b)) ++ b ++ rest)
  = match Unmarshal b with Some m => Some (m, rest) | None => None end.
Proof.
  intros H. unfold le32. cbn [String.append ReadMsg].
  rewrite !N_of_ascii_mod, le32_value by exact H.
  rewrite Nat2N.id, slength_app.
  destruct (Nat.ltb_spec (String.length b + String.length rest) (String.length b)); [lia|].
  rewrite take_app, drop_app. reflexivity.
Qed.

Lemma lookup_in l k v : NoDup (map fst l) -> Queue.lookup k l = Some v <-> In (k, v) l.
Proof.
  induction l as [|[k' v'] l IH]; intros Hnd; cbn [Queue.lookup]; [split; [discriminate|intros []]|].
  cbn [map] in Hnd. inversion Hnd as [|? ? Hnin Hnd']; subst.
  destruct (String.eqb_spec k k') as [->|Hne]; split.
  - intros E. inversion E. left. reflexivity.
  - intros [E|Hin]; [inversion E; reflexivity|].
    exfalso. apply Hnin. apply (in_map fst) in Hin. exact Hin.
  - intros E. right. apply IH; assumption.
  - intros [E|Hin]; [inversion E; congruence|]. apply IH; assumption.
Qed.

Lemma lookup_perm l l' k : NoDup (map fst l) -> Permutation l l' ->
  Queue.lookup k l = Queue.lookup k l'.
Proof.
  intros Hnd Hp.
  assert (Hnd' : NoDup (map fst l')) by exact (Permutation_NoDup (Permutation_map fst Hp) Hnd).
  destruct (Queue.lookup k l) as [v|] eqn:E1.
  - symmetry. apply (lookup_in l' k v Hnd'). apply (Permutation_in _ Hp). apply (lookup_in l k v Hnd), E1.
  - destruct (Queue.lookup k l') as [v|] eqn:E2; [|reflexivity].
    apply (lookup_in l' k v Hnd') in E2. apply (Permutation_in _ (Permutation_sym Hp)) in E2.
    apply (lookup_in l k v Hnd) in E2. congruence.
Qed.

Lemma GetString_str_msg l k :
  IpcGet.GetString (GMap (str_msg l)) k
  = match Queue.lookup k l with Some v => v | None => "" end.
Proof.
  unfold IpcGet.GetString, IpcGet.msg_get.
  induction l as [|[k' v'] l IH]; [reflexivity|]. cbn [str_msg map IpcGet.lookup_val Queue.lookup fst snd].
  destruct (String.eqb k k'); [reflexivity|exact IH].
Qed.

Lemma read_str_msg sm rest :
  Forall ok_kv sm -> NoDup (map fst sm) ->
  (N.of_nat (String.length (Marshal (GMap (str_msg sm)))) < 4294967296)%N ->
  ReadMsg (Send (str_msg sm) ++ rest) = Some (GMap (str_msg (sort_keys sm)), rest).
Proof.
  intros Hok Hnd Hlen. unfold Send. rewrite sapp_assoc, read_frame by exact Hlen.
  rewrite decode_str_msg by assumption. reflexivity.
Qed.

Lemma GetString_sorted sm k : NoDup (map fst sm) ->
  GetString (GMap (str_msg (sort_keys sm))) k
  = match Queue.lookup k sm with Some v => v | None => "" end.
Proof.
  intros Hnd. rewrite GetString_str_msg.
  rewrite (lookup_perm (sort_keys sm) sm k); [reflexivity| |apply sort_keys_perm].
  exact (Permutation_NoDup (Permutation_map fst (Permutation_sym (sort_keys_perm sm))) Hnd).
Qed.

(** [X2] A frame carrying a message of 7-bit string fields with distinct
    keys is read back whole by [ReadMsg], the bytes after it are left
    unread, and [GetString] on the decoded message returns, for every key,
    the value that was sent ([""] for a key that was not). *)
Theorem send_read_strings sm rest :
  Forall ok_kv sm -> NoDup (map fst sm) ->
  (N.of_nat (String.length (Marshal (GMap (str_msg sm)))) < 4294967296)%N ->
  exists msg, ReadMsg (Send (str_msg sm) ++ rest) = Some (msg, rest) /\
    forall k, GetString msg k = match Queue.lookup k sm with Some v => v | None => "" end.
Proof.
  intros Hok Hnd Hlen. exists (GMap (str_msg (sort_keys sm))). split.
  - apply read_str_msg; assumption.
  - intros k. apply GetString_sorted, Hnd.
Qed.

Lemma take_length_lt j (b : string) : j < String.length b -> String.length (take j b) = j.
Proof.
  revert b; induction j as [|j IH]; intros [|c b] H; cbn in *; try lia.
  rewrite IH by lia. reflexivity.
Qed.

(** [X3] A frame cut short anywhere, in its length prefix or in its body, is
    refused: [ReadMsg] reports an error instead of a message. *)
Theorem truncated_frame_rejected (m : Msg) (k : nat) :
  (N.of_nat (String.length (Marshal (GMap m))) < 4294967296)%N ->
  k < String.length (Send m) ->
  ReadMsg (take k (Send m)) = None.
Proof.
  intros Hlen Hk. unfold Send in *. set (b := Marshal (GMap m)) in *. clearbody b.
  rewrite slength_app in Hk. unfold le32 in *.
  destruct k as [|[|[|[|j]]]]; try reflexivity.
  cbn [String.length] in Hk.
  cbn [String.append take ReadMsg].
  rewrite !N_of_ascii_mod, le32_value by exact Hlen. rewrite Nat2N.id.
  rewrite take_length_lt by lia.
  destruct (Nat.ltb_spec j (String.length b)); [reflexivity|lia].
Qed.

Lemma shutdown_msg_ok : Forall ok_kv shutdown_msg /\ NoDup (map fst shutdown_msg).
Proof.
  split.
  - unfold shutdown_msg, ok_kv. repeat constructor.
  - cbn. constructor; [intros [H|[]]; discriminate|constructor; [intros []|constructor]].
Qed.

Lemma unmarshal_marshal_strings_witness :
  (Forall ok_kv shutdown_msg /\ NoDup (map fst shutdown_msg))
  /\ Unmarshal (Marshal (GMap (str_msg shutdown_msg)))
     = Some (GMap (str_msg (sort_keys shutdown_msg))).
Proof.
  split; [exact shutdown_msg_ok|].
  apply (unmarshal_marshal_strings shutdown_msg); apply shutdown_msg_ok.
Defined.

Lemma send_read_strings_witness :
  (N.of_nat (String.length (Marshal (GMap (str_msg shutdown_msg)))) < 4294967296)%N
  /\ exists msg, ReadMsg (Send (str_msg shutdown_msg) ++ "rest") = Some (msg, "rest") /\
    forall k, GetString msg k = match Queue.lookup k shutdown_msg with Some v => v | None => "" end.
Proof.
  split; [vm_compute; reflexivity|].
  apply (send_read_strings shutdown_msg "rest"); [apply shutdown_msg_ok|apply shutdown_msg_ok|].
  vm_compute. reflexivity.
Defined.

Lemma truncated_frame_rejected_witness :
  (N.of_nat (String.length (Marshal (GMap (str_msg shutdown_msg)))) < 4294967296)%N
  /\ 10 < String.length (Send (str_msg shutdown_msg))
  /\ ReadMsg (take 10 (Send (str_msg shutdown_msg))) = None.
Proof.
  split; [vm_compute; reflexivity|split; [vm_compute; lia|]].
  apply (truncated_frame_rejected (str_msg shutdown_msg) 10); [vm_compute; reflexivity|vm_compute; lia].
Defined.

End JsonFacts.

Module JsonValueFacts.
Import Ipc IpcGet JsonDefs StrFacts JsonFacts.

Lemma digit_char (d : nat) : (d < 10)%nat ->
  is_digit (ascii_of_nat (48 + d)) = true /\ digit_val (ascii_of_nat (48 + d)) = Z.of_nat d
  /\ is_ws (ascii_of_nat (48 + d)) = false.
Proof.
  intros H. do 10 (destruct d as [|d]; [split; [reflexivity|split; reflexivity]|]). lia.
Qed.

Lemma digit_run_step d r a k : (d < 10)%nat ->
  digit_run (String (ascii_of_nat (48 + d)) r) a k = digit_run r (a * 10 + Z.of_nat d)%Z (S k).
Proof.
  intros H. destruct (digit_char d H) as (H1 & H2 & _).
  cbn [digit_run]. rewrite H1, H2. reflexivity.
Qed.

Lemma mod10_lt n : (0 <= n)%Z -> (Z.to_nat (n mod 10) < 10)%nat.
Proof. intros H. pose proof (Z.mod_pos_bound n 10 ltac:(lia)). lia. Qed.

Lemma zdigits_S f n acc : zdigits (S f) n acc
  = if (n <? 10)%Z then chr (48 + Z.to_nat (n mod 10)) ++ acc
    else zdigits f (n / 10) (chr (48 + Z.to_nat (n mod 10)) ++ acc).
Proof. reflexivity. Qed.

Lemma zdigits_run f : forall n acc s a k, (0 <= n)%Z -> (n < 10 ^ Z.of_nat (S f))%Z ->
  exists L, digit_run (zdigits (S f) n acc ++ s) a k
            = digit_run (acc ++ s) (a * 10 ^ Z.of_nat L + n)%Z (k + L).
Proof.
  induction f as [|f IH]; intros n acc s a k Hn Hlt.
  - exists 1%nat. rewrite zdigits_S. replace (n <? 10)%Z with true by (symmetry; apply Z.ltb_lt; simpl in Hlt; lia).
    unfold chr. cbn [String.append]. rewrite digit_run_step by (apply mod10_lt; lia).
    rewrite Z.mod_small by (simpl in Hlt; lia). rewrite Z2Nat.id by lia.
    f_equal; try (simpl; ring); try lia.
  - rewrite zdigits_S. destruct (Z.ltb_spec n 10).
    + exists 1%nat. unfold chr. cbn [String.append]. rewrite digit_run_step by (apply mod10_lt; lia).
      rewrite Z.mod_small by lia. rewrite Z2Nat.id by lia. f_equal; try (simpl; ring); try lia.
    +
      destruct (IH (n / 10)%Z (chr (48 + Z.to_nat (n mod 10)) ++ acc) s a k) as [L HL].
      * apply Z.div_pos; lia.
      * apply Z.div_lt_upper_bound; [lia|]. rewrite <- Z.pow_succ_r by lia. rewrite <- Nat2Z.inj_succ. exact Hlt.
      * exists (S L). rewrite HL. unfold chr. cbn [String.append].
        rewrite digit_run_step by (apply mod10_lt; lia).
        rewrite Z2Nat.id by (apply Z.mod_pos_bound; lia).
        f_equal; [|lia].
        rewrite Nat2Z.inj_succ, Z.pow_succ_r by lia.
        pose proof (Z.div_mod n 10 ltac:(lia)). 
        set (P := (10 ^ Z.of_nat L)%Z). set (q := (n / 10)%Z) in *. set (r := (n mod 10)%Z) in *.
        rewrite H0 at 1. ring.
Qed.

Lemma zdigits_head f : forall n acc, (1 <= n)%Z -> (n < 10 ^ Z.of_nat (S f))%Z ->
  exists d r, (1 <= d < 10)%nat /\ zdigits (S f) n acc = String (ascii_of_nat (48 + d)) r.
Proof.
  induction f as [|f IH]; intros n acc Hn Hlt; rewrite zdigits_S.
  - replace (n <? 10)%Z with true by (symmetry; apply Z.ltb_lt; simpl in Hlt; lia).
    exists (Z.to_nat (n mod 10)), acc. rewrite Z.mod_small by (simpl in Hlt; lia).
    split; [simpl in Hlt; lia|reflexivity].
  - destruct (Z.ltb_spec n 10).
    + exists (Z.to_nat (n mod 10)), acc. rewrite Z.mod_small by lia. split; [lia|reflexivity].
    + apply IH.
      * apply Z.div_le_lower_bound; lia.
      * apply Z.div_lt_upper_bound; [lia|]. rewrite <- Z.pow_succ_r by lia. rewrite <- Nat2Z.inj_succ. exact Hlt.
Qed.

Lemma digits_fuel n : (1 <= n)%Z -> (n < 10 ^ Z.of_nat (S (Z.to_nat (Z.log2 n))))%Z.
Proof.
  intros Hn. destruct (Z.log2_spec n ltac:(lia)) as [_ H2].
  rewrite Nat2Z.inj_succ, Z2Nat.id by (apply Z.log2_nonneg).
  eapply Z.lt_le_trans; [exact H2|]. apply Z.pow_le_mono_l. lia.
Qed.

Lemma code_digit d : (d < 10)%nat -> code (ascii_of_nat (48 + d)) = (48 + d)%nat.
Proof. intros H. unfold code. apply nat_ascii_embedding. lia. Qed.

Lemma rne_le n d : (0 < d)%Z -> (F.rne n d <= n / d + 1)%Z.
Proof. intros H. unfold F.rne. destruct (Z.compare _ _); [destruct (Z.even _)|..]; lia. Qed.

Lemma rne_1 x : F.rne x 1 = x.
Proof. unfold F.rne. rewrite Z.div_1_r, Z.mod_1_r. reflexivity. Qed.

Lemma round_pos_le a : (0 <= a)%Z -> (F.round_pos a 1 <= inject_Z (2 * a))%Q.
Proof.
  intros Ha. unfold F.round_pos. destruct (Z.eqb_spec a 0) as [->|Ha0].
  - unfold Qle; simpl; lia.
  - change (Z.log2 1) with 0%Z. rewrite Z.sub_0_r.
    pose proof (Z.log2_nonneg a) as Hl. destruct (Z.log2_spec a ltac:(lia)) as [H1 _].
    replace (0 <=? Z.log2 a)%Z with true by (symmetry; apply Z.leb_le; exact Hl).
    replace (1 * 2 ^ Z.log2 a <=? a)%Z with true by (symmetry; apply Z.leb_le; lia).
    destruct (Z.leb_spec 0 (Z.max (Z.log2 a - 52) (-1074))) as [Hk|Hk].
    + rewrite <- Zle_Qle. set (k := Z.max (Z.log2 a - 52) (-1074)) in *.
      assert (Hkl : (k <= Z.log2 a)%Z) by (unfold k; lia).
      assert (HD : (0 < 2 ^ k)%Z) by (apply Z.pow_pos_nonneg; lia).
      assert (HDa : (2 ^ k <= a)%Z).
      { eapply Z.le_trans; [|exact H1]. apply Z.pow_le_mono_r; lia. }
      rewrite Z.mul_1_l. pose proof (rne_le a (2 ^ k) HD).
      pose proof (Z.mul_div_le a (2 ^ k) HD). nia.
    + rewrite rne_1, Qred_correct. set (k := Z.max (Z.log2 a - 52) (-1074)) in *.
      assert (HP : (0 < 2 ^ (- k))%Z) by (apply Z.pow_pos_nonneg; lia).
      unfold Qle; cbn [Qnum Qden inject_Z]. rewrite Z2Pos.id by exact HP. nia.
Qed.

Lemma round_int_small z : (- 2 ^ 63 <= z < 2 ^ 63)%Z ->
  Qle_bool (inject_Z (2 ^ 1024)) (Qabs (F.round (inject_Z z))) = false.
Proof.
  intros Hz.
  assert (H : (Qabs (F.round (inject_Z z)) <= inject_Z (2 ^ 64))%Q).
  { unfold F.round. cbn [Qnum Qden inject_Z].
    destruct (Z.ltb_spec z 0).
    - rewrite Qabs_opp. rewrite Qabs_pos by (apply FloatFacts.round_pos_nonneg; lia).
      eapply Qle_trans; [apply round_pos_le; lia|]. rewrite <- Zle_Qle. lia.
    - rewrite Qabs_pos by (apply FloatFacts.round_pos_nonneg; lia).
      eapply Qle_trans; [apply round_pos_le; lia|]. rewrite <- Zle_Qle. lia. }
  destruct (Qle_bool _ _) eqn:E; [|reflexivity].
  apply Qle_bool_iff in E. exfalso.
  assert (X : (inject_Z (2 ^ 1024) <= inject_Z (2 ^ 64))%Q) by (eapply Qle_trans; eassumption).
  rewrite <- Zle_Qle in X. lia.
Qed.

Lemma digit_run_end s n L : ends_ok s -> digit_run s n L = (n, L, s).
Proof. destruct s as [|c r]; [reflexivity|]. intros [ -> | [ -> | -> ] ]; reflexivity. Qed.

Lemma qmul_pow10_0 z : Qmult (inject_Z z) (pow10 (0 - Z.of_nat 0)%Z) = inject_Z z.
Proof. unfold pow10, inject_Z, Qmult. cbn. rewrite Z.mul_1_r. reflexivity. Qed.

Ltac eval_starts :=
  repeat (match goal with
          | |- context [starts (Ascii ?b0 ?b1 ?b2 ?b3 ?b4 ?b5 ?b6 ?b7) ?k] =>
              let c := constr:(Ascii b0 b1 b2 b3 b4 b5 b6 b7) in
              let b := eval vm_compute in (starts c k) in change (starts c k) with b
          end; cbv beta iota zeta delta [orb]).

Lemma parse_number_digits (neg : bool) n s : (0 <= n)%Z -> ends_ok s ->
  (if neg then (1 <= n)%Z else True) ->
  parse_number ((if neg then "-" else "") ++ digits_of n ++ s)
  = (let r := F.round (inject_Z (if neg then - n else n)%Z) in
     if Qle_bool (inject_Z (2 ^ 1024)) (Qabs r) then None else Some (r, s)).
Proof.
  intros Hn Hs Hneg.
  assert (Hint : exists L, match digits_of n ++ s with
                 | String c r => if starts c 48 then Some (0%Z, 1%nat, r)
                                 else if is_digit c then Some (digit_run (digits_of n ++ s) 0 0) else None
                 | "" => None end = Some (n, L, s)).
  { destruct (Z.eq_dec n 0) as [->|Hn0].
    - exists 1%nat. reflexivity.
    - unfold digits_of.
      destruct (zdigits_head (Z.to_nat (Z.log2 n)) n "" ltac:(lia) (digits_fuel n ltac:(lia)))
        as (d & r0 & Hd & Eh).
      destruct (zdigits_run (Z.to_nat (Z.log2 n)) n "" s 0 0 Hn (digits_fuel n ltac:(lia))) as [L HL].
      exists L. rewrite Eh in HL |- *. cbn [String.append] in HL |- *.
      unfold starts. rewrite code_digit by lia.
      replace (Nat.eqb (48 + d) 48) with false by (symmetry; apply Nat.eqb_neq; lia).
      rewrite (proj1 (digit_char d ltac:(lia))). rewrite HL. cbn [String.append].
      rewrite digit_run_end by exact Hs. rewrite Z.mul_0_l, Z.add_0_l. reflexivity. }
  destruct Hint as [L Hint].
  destruct neg.
  - cbn [String.append]. unfold parse_number.
    replace (starts "-"%char 45) with true by reflexivity. cbv beta iota zeta.
    rewrite Hint.
    destruct s as [|c r]; [|destruct Hs as [ -> | [ -> | -> ] ]]; cbv beta iota zeta;
    eval_starts; rewrite qmul_pow10_0; reflexivity.
  - assert (Hh : exists c0 r0, digits_of n ++ s = String c0 r0 /\ starts c0 45 = false).
    { destruct (Z.eq_dec n 0) as [->|Hn0]; [exists "0"%char, s; split; reflexivity|].
      unfold digits_of.
      destruct (zdigits_head (Z.to_nat (Z.log2 n)) n "" ltac:(lia) (digits_fuel n ltac:(lia)))
        as (d & r0 & Hd & Eh).
      rewrite Eh. exists (ascii_of_nat (48 + d)), (r0 ++ s). split; [reflexivity|].
      unfold starts. rewrite code_digit by lia. apply Nat.eqb_neq; lia. }
    destruct Hh as (c0 & r0 & Ed & Hc0).
    cbn [String.append]. unfold parse_number. rewrite Ed in Hint |- *. cbv beta iota zeta.
    rewrite Hc0. cbv beta iota zeta. rewrite Hint.
    destruct s as [|c r]; [|destruct Hs as [ -> | [ -> | -> ] ]]; cbv beta iota zeta;
    eval_starts; rewrite qmul_pow10_0; reflexivity.
Qed.

Lemma parse_number_Z z s : (- 2 ^ 63 <= z < 2 ^ 63)%Z -> ends_ok s ->
  parse_number (string_of_Z z ++ s) = Some (F.of_Z z, s).
Proof.
  intros Hz Hs. unfold string_of_Z. destruct (Z.ltb_spec z 0).
  - rewrite sapp_assoc. rewrite (parse_number_digits true (- z) s) by (first [exact Hs | cbn; lia]).
    cbv zeta. rewrite Z.opp_involutive, round_int_small by exact Hz. reflexivity.
  - change (digits_of z ++ s) with ("" ++ digits_of z ++ s).
    rewrite (parse_number_digits false z s) by (first [exact Hs | cbn; lia]).
    cbv zeta. rewrite round_int_small by exact Hz. reflexivity.
Qed.

Lemma prefix_app w s : String.prefix w (w ++ s) = true.
Proof.
  induction w as [|c w IH]; cbn; [destruct s; reflexivity|].
  destruct (ascii_dec c c); [exact IH|congruence].
Qed.

Lemma substring_all s : substring 0 (String.length s) s = s.
Proof. induction s as [|c s IH]; cbn; [reflexivity|rewrite IH; reflexivity]. Qed.

Lemma lit_app w s : lit w (w ++ s) = Some s.
Proof.
  unfold lit. rewrite prefix_app, slength_app.
  replace (String.length w + String.length s - String.length w)%nat with (String.length s) by lia.
  f_equal. induction w as [|c w IH]; [apply substring_all|exact IH].
Qed.

Lemma digits_head z s : (0 <= z)%Z ->
  exists d r, (d < 10)%nat /\ digits_of z ++ s = String (ascii_of_nat (48 + d)) r.
Proof.
  intros Hz. destruct (Z.eq_dec z 0) as [->|Hz0]; [exists 0%nat, s; split; [lia|reflexivity]|].
  unfold digits_of.
  destruct (zdigits_head (Z.to_nat (Z.log2 z)) z "" ltac:(lia) (digits_fuel z ltac:(lia)))
    as (d & r0 & Hd & Eh).
  rewrite Eh. exists d, (r0 ++ s). split; [lia|reflexivity].
Qed.

Lemma string_of_Z_head z s : exists c r, string_of_Z z ++ s = String c r /\ is_ws c = false
  /\ (Nat.eqb (code c) 45 || is_digit c) = true /\ (code c <> 110 /\ code c <> 116
  /\ code c <> 102 /\ code c <> 34 /\ code c <> 93 /\ code c <> 125)%nat.
Proof.
  unfold string_of_Z. destruct (Z.ltb_spec z 0).
  - exists "-"%char, (digits_of (- z) ++ s). split; [reflexivity|].
    repeat split; try reflexivity; intros E; vm_compute in E; lia.
  - destruct (digits_head z s ltac:(lia)) as (d & r & Hd & E). rewrite E.
    destruct (digit_char d Hd) as (H1 & _ & H3).
    exists (ascii_of_nat (48 + d)), r. rewrite code_digit by exact Hd.
    rewrite H1, orb_true_r. repeat split; try reflexivity; try exact H3; lia.
Qed.

Lemma parse_value_num f c r : is_ws c = false -> (code c <> 110)%nat -> (code c <> 116)%nat ->
  (code c <> 102)%nat -> (code c <> 34)%nat -> (Nat.eqb (code c) 45 || is_digit c) = true ->
  parse_value (S f) (String c r)
  = option_map (fun p => (GFloat (fst p), snd p)) (parse_number (String c r)).
Proof.
  intros H0 H1 H2 H3 H4 H5. cbn [parse_value skip_ws]. rewrite H0.
  apply Nat.eqb_neq in H1, H2, H3, H4. rewrite H1, H2, H3, H4, H5. reflexivity.
Qed.

Lemma marshal_head v s : plain v = true ->
  exists c r, Marshal v ++ s = String c r /\ is_ws c = false /\ (code c <> 93 /\ code c <> 125)%nat.
Proof.
  intros Hp. destruct v as [| [] | z | q | t | l | m]; try discriminate Hp;
    try (eexists; eexists; split; [reflexivity|]; split; [reflexivity|]; split; intros E; vm_compute in E; lia).
  - destruct (string_of_Z_head z s) as (c & r & E & H0 & _ & _ & _ & _ & _ & H1 & H2).
    exists c, r. cbn [Marshal]. repeat split; assumption.
Qed.

Lemma parse_value_arr f r :
  parse_value (S f) (String "["%char r) =
  match skip_ws r with
  | String d r1 => if Nat.eqb (code d) 93 then Some (GArr [], r1) else parse_elems f r []
  | "" => None
  end.
Proof. reflexivity. Qed.

Lemma parse_elems_S f x acc :
  parse_elems (S f) x acc =
  match parse_value f x with
  | None => None
  | Some (v, r) =>
      match skip_ws r with
      | String d r1 =>
          if Nat.eqb (code d) 44 then parse_elems f r1 (acc ++ [v])
          else if Nat.eqb (code d) 93 then Some (GArr (acc ++ [v]), r1)
          else None
      | "" => None
      end
  end.
Proof. reflexivity. Qed.

Lemma elems_rt l : forall acc f t,
  Forall (fun v => value_rt v) l -> l <> [] ->
  (list_sum (map (fun x => S (vsize x)) l) <= f)%nat ->
  parse_elems f (String.concat "," (map Marshal l) ++ "]" ++ t) acc
  = Some (GArr (acc ++ map as_decoded l), t).
Proof.
  induction l as [|v l IH]; intros acc f t Hall Hne Hf; [congruence|].
  inversion Hall as [|? ? Hv Hall']; subst.
  destruct f as [|f]; [cbn in Hf; lia|]. rewrite parse_elems_S.
  destruct l as [|v2 l].
  - cbn [map String.concat]. rewrite (Hv f ("]" ++ t)) by (cbn in Hf |- *; first [lia | right; left; reflexivity]).
    cbn [String.append skip_ws].
    replace (is_ws "]"%char) with false by reflexivity.
    replace (Nat.eqb (code "]"%char) 44) with false by reflexivity.
    replace (Nat.eqb (code "]"%char) 93) with true by reflexivity.
    reflexivity.
  - cbn [map]. rewrite concat_cons2, !sapp_assoc.
    rewrite (Hv f _) by (cbn in Hf |- *; first [lia | left; reflexivity]).
    cbn [String.append skip_ws].
    replace (is_ws ","%char) with false by reflexivity.
    replace (Nat.eqb (code ","%char) 44) with true by reflexivity.
    change (String.concat "," (Marshal v2 :: map Marshal l)) with (String.concat "," (map Marshal (v2 :: l))).
    change (String "]"%char t) with ("]" ++ t). rewrite IH; [| exact Hall' | congruence | cbn in Hf |- *; lia].
    rewrite <- app_assoc. reflexivity.
Qed.

Lemma mem_step k v r f acc : is_ascii k = true -> value_rt v -> (vsize v <= f)%nat -> ends_ok r ->
  parse_members (S f) (mem (k, v) ++ r) acc =
  match skip_ws r with
  | String d r4 =>
      if Nat.eqb (code d) 44 then parse_members f r4 (map_put k (as_decoded v) acc)
      else if Nat.eqb (code d) 125 then Some (GMap (map_put k (as_decoded v) acc), r4)
      else None
  | "" => None
  end.
Proof.
  intros Hk Hv Hf Hr. unfold mem, quoted; cbn [fst snd]. rewrite !sapp_assoc.
  rewrite quote_eq at 1. cbn [String.append]. fold QC. rewrite parse_members_q.
  rewrite str_rt by (try exact Hk; rewrite !slength_app; pose proof (escape_length k Hk); cbn [String.length]; lia).
  change ((":" ++ Marshal v ++ r)) with (String ":" (Marshal v ++ r)).
  cbn [skip_ws].
  replace (is_ws ":"%char) with false by reflexivity.
  replace (Nat.eqb (code ":"%char) 58) with true by reflexivity.
  rewrite (Hv f r Hf Hr). reflexivity.
Qed.

Lemma members_val_rt L : forall acc f t,
  Forall (fun kv => is_ascii (fst kv) = true /\ value_rt (snd kv)) L ->
  NoDup (map fst L) ->
  (forall k, In k (map fst L) -> ~ In k (map fst acc)) -> L <> [] ->
  (list_sum (map (fun kv => S (vsize (snd kv))) L) <= f)%nat ->
  parse_members f (String.concat "," (map mem L) ++ "}" ++ t) acc
  = Some (GMap (acc ++ map (fun kv => (fst kv, as_decoded (snd kv))) L), t).
Proof.
  induction L as [|[k v] L IH]; intros acc f t Hok Hnd Hdis Hne Hf; [congruence|].
  inversion Hok as [|? ? [Hk Hv] Hok']; subst. cbn [fst snd] in Hk, Hv.
  simpl in Hnd. inversion Hnd as [|? ? Hnin Hnd']; subst.
  destruct f as [|f]; [cbn in Hf; lia|].
  assert (Hfresh : ~ In k (map fst acc)) by (apply Hdis; left; reflexivity).
  destruct L as [|[k2 v2] L].
  - cbn [map String.concat]. rewrite mem_step by (try assumption; cbn in Hf |- *; first [lia | right; right; reflexivity]).
    cbn [String.append skip_ws].
    replace (is_ws "}"%char) with false by reflexivity.
    replace (Nat.eqb (code "}"%char) 44) with false by reflexivity.
    replace (Nat.eqb (code "}"%char) 125) with true by reflexivity.
    rewrite map_put_fresh by exact Hfresh. reflexivity.
  - cbn [map]. rewrite concat_cons2, !sapp_assoc.
    rewrite mem_step by (try assumption; cbn in Hf |- *; first [lia | left; reflexivity]).
    cbn [String.append skip_ws].
    replace (is_ws ","%char) with false by reflexivity.
    replace (Nat.eqb (code ","%char) 44) with true by reflexivity.
    rewrite map_put_fresh by exact Hfresh.
    change (String.concat "," (mem (k2, v2) :: map mem L))
      with (String.concat "," (map mem ((k2, v2) :: L))).
    change (String "}"%char t) with ("}" ++ t).
    rewrite IH; [| exact Hok' | exact Hnd' | | congruence | cbn in Hf |- *; lia].
    + rewrite <- app_assoc. reflexivity.
    + intros k0 Hin Hin'. rewrite map_app in Hin'. apply in_app_or in Hin' as [H1|H1].
      * apply (Hdis k0); [right; exact Hin | exact H1].
      * simpl in H1. destruct H1 as [H1|[]]. subst. contradiction.
Qed.

Lemma nodup_keys_NoDup l : nodup_keys l = true -> NoDup l.
Proof.
  induction l as [|k l IH]; intros H; [constructor|].
  cbn in H. apply andb_prop in H as [H1 H2]. constructor; [|exact (IH H2)].
  intros Hin. apply negb_true_iff in H1.
  assert (E : existsb (String.eqb k) l = true) by (apply existsb_exists; exists k; split; [exact Hin|apply String.eqb_refl]).
  congruence.
Qed.

Lemma marshal_map m :
  Marshal (GMap m) = "{" ++ String.concat "," (map mem (sort_keys m)) ++ "}".
Proof.
  cbn [Marshal].
  assert (E : map (fun '(k, x) => (k, Marshal x)) m = map (fun kv => (fst kv, Marshal (snd kv))) m)
    by (apply map_ext; intros [k x]; reflexivity).
  rewrite E, (sort_keys_map Marshal), map_map. reflexivity.
Qed.

Lemma sum_perm {A} (g : A -> nat) l l' : Permutation l l' -> list_sum (map g l) = list_sum (map g l').
Proof. intros H. apply Permutation_list_sum, Permutation_map, H. Qed.

Lemma value_rt_all v : plain v = true -> value_rt v.
Proof.
  induction v as [| b | z | q | t | l IHl | m IHm] using goval_ind; intros Hp f s Hf Hs;
    destruct f as [|f]; try (cbn in Hf; lia).
  - cbn [Marshal]. exact (f_equal (option_map (fun r' => (GNil, r'))) (lit_app "null" s)).
  - destruct b; cbn [Marshal].
    + exact (f_equal (option_map (fun r' => (GBool true, r'))) (lit_app "true" s)).
    + exact (f_equal (option_map (fun r' => (GBool false, r'))) (lit_app "false" s)).
  - cbn in Hp. apply andb_prop in Hp as [H1 H2]. apply Z.leb_le in H1. apply Z.ltb_lt in H2.
    destruct (string_of_Z_head z s) as (c & r & E & H0 & Hn & Hc1 & Hc2 & Hc3 & Hc4 & _).
    cbn [Marshal]. rewrite E, parse_value_num by assumption. rewrite <- E.
    rewrite parse_number_Z by (first [lia | exact Hs]). reflexivity.
  - discriminate Hp.
  - cbn [Marshal]. apply parse_value_quoted. exact Hp.
  - cbn [Marshal]. rewrite !sapp_assoc. cbn [String.append]. rewrite parse_value_arr.
    cbn [plain] in Hp. rewrite forallb_forall in Hp.
    destruct l as [|v l].
    + cbn [map String.concat String.append skip_ws].
      replace (is_ws "]"%char) with false by reflexivity.
      replace (Nat.eqb (code "]"%char) 93) with true by reflexivity. reflexivity.
    + assert (Hv : plain v = true) by (apply Hp; left; reflexivity).
      assert (HR : exists R, String.concat "," (map Marshal (v :: l)) = Marshal v ++ R)
        by (destruct l as [|v2 l]; [exists ""; rewrite sapp_nil_r; reflexivity|eexists; reflexivity]).
      destruct HR as [R HR].
      destruct (marshal_head v (R ++ "]" ++ s) Hv) as (c & r & E & H0 & H1 & _).
      assert (Hsk : skip_ws (String.concat "," (map Marshal (v :: l)) ++ "]" ++ s) = String c r)
        by (rewrite HR, sapp_assoc, E; cbn [skip_ws]; rewrite H0; reflexivity).
      change (String "]"%char s) with ("]" ++ s). rewrite Hsk.
      apply Nat.eqb_neq in H1. rewrite H1.
      rewrite elems_rt; [reflexivity| | congruence | cbn in Hf |- *; lia].
      rewrite Forall_forall in IHl |- *. intros x Hx. apply IHl; [exact Hx|]. apply Hp, Hx.
  - rewrite marshal_map, !sapp_assoc. cbn [String.append]. rewrite parse_value_obj.
    cbn [plain] in Hp. apply andb_prop in Hp as [Hp Hnd]. rewrite forallb_forall in Hp.
    apply nodup_keys_NoDup in Hnd.
    pose proof (sort_keys_perm m) as Hperm.
    change (String "}"%char s) with ("}" ++ s).
    cbn [as_decoded]. rewrite (sort_keys_map as_decoded).
    destruct (sort_keys m) as [|x L] eqn:EL.
    + apply Permutation_nil in Hperm. subst m.
      cbn [map String.concat String.append skip_ws].
      replace (is_ws "}"%char) with false by reflexivity.
      replace (Nat.eqb (code "}"%char) 125) with true by reflexivity. reflexivity.
    + assert (HR : exists R, String.concat "," (map mem (x :: L)) = mem x ++ R)
        by (destruct L as [|x2 L]; [exists ""; rewrite sapp_nil_r; reflexivity|eexists; reflexivity]).
      destruct HR as [R HR].
      assert (Hsk : exists X, skip_ws (String.concat "," (map mem (x :: L)) ++ "}" ++ s) = String QC X)
        by (rewrite HR; unfold mem, quoted; rewrite !sapp_assoc; eexists; reflexivity).
      destruct Hsk as [X Hsk]. rewrite Hsk.
      replace (Nat.eqb (code QC) 125) with false by reflexivity.
      rewrite members_val_rt; [reflexivity| | | intros k _ [] | congruence |].
      * apply (Permutation_Forall (Permutation_sym Hperm)).
        rewrite Forall_forall in IHm |- *. intros kv Hin.
        specialize (Hp kv Hin). apply andb_prop in Hp as [Hk Hpv].
        split; [exact Hk|]. apply IHm; [exact Hin|exact Hpv].
      * apply (Permutation_NoDup (Permutation_map fst (Permutation_sym Hperm))), Hnd.
      * rewrite (sum_perm (fun kv => S (vsize (snd kv))) _ _ Hperm). cbn in Hf |- *. lia.
Qed.

Lemma concat_sum {A} (g : A -> string) (h : A -> nat) l :
  Forall (fun x => h x <= String.length (g x))%nat l ->
  (list_sum (map (fun x => S (h x)) l) <= S (String.length (String.concat "," (map g l))))%nat.
Proof.
  induction l as [|x [|y l] IH]; intros H; inversion H as [|? ? Hx H']; subst; [cbn; lia| |].
  - cbn [map String.concat list_sum fold_right]. unfold list_sum in *. cbn. lia.
  - cbn [map] in *. rewrite concat_cons2, !slength_app. specialize (IH H').
    cbn [list_sum fold_right String.length] in *. unfold list_sum in *. cbn in IH |- *. lia.
Qed.

Lemma vsize_le v : plain v = true -> (vsize v <= String.length (Marshal v))%nat.
Proof.
  induction v as [| b | z | q | t | l IHl | m IHm] using goval_ind; intros Hp.
  - cbn. lia.
  - destruct b; cbn; lia.
  - destruct (string_of_Z_head z "") as (c & r & E & _). rewrite sapp_nil_r in E.
    cbn [Marshal vsize]. rewrite E. cbn. lia.
  - discriminate Hp.
  - cbn [Marshal vsize]. unfold quoted. rewrite !slength_app. cbn. lia.
  - cbn [plain] in Hp. rewrite forallb_forall in Hp.
    cbn [Marshal vsize]. rewrite !slength_app. cbn [String.length].
    enough (list_sum (map (fun x => S (vsize x)) l) <= S (String.length (String.concat "," (map Marshal l))))%nat by lia.
    apply concat_sum. rewrite Forall_forall in IHl |- *. intros x Hx. apply IHl; [exact Hx|apply Hp, Hx].
  - cbn [plain] in Hp. apply andb_prop in Hp as [Hp _]. rewrite forallb_forall in Hp.
    rewrite marshal_map. cbn [vsize]. rewrite !slength_app. cbn [String.length].
    rewrite (sum_perm (fun kv => S (vsize (snd kv))) _ _ (Permutation_sym (sort_keys_perm m))).
    enough (list_sum (map (fun kv => S (vsize (snd kv))) (sort_keys m))
            <= S (String.length (String.concat "," (map mem (sort_keys m)))))%nat by lia.
    apply concat_sum. apply (Permutation_Forall (Permutation_sym (sort_keys_perm m))).
    rewrite Forall_forall in IHm |- *. intros kv Hin.
    specialize (Hp kv Hin). apply andb_prop in Hp as [_ Hpv].
    pose proof (IHm kv Hin Hpv). unfold mem, quoted. rewrite !slength_app. cbn [String.length]. lia.
Qed.



End JsonValueFacts.

Module GoJobFacts.
Import GoJob Scenarios.

Lemma find_del id l : find_job id (del_job id l) = None.
Proof.
  induction l as [|[k c] l IH]; [reflexivity|]. unfold del_job in *. cbn [filter fst].
  destruct (String.eqb_spec k id) as [->|Hne]; cbn [negb]; [exact IH|].
  cbn [find_job]. destruct (String.eqb_spec k id); [congruence|exact IH].
Qed.

(** [X5] Cancelling a job twice is the same as cancelling it once: the second
    [Cancel] finds no entry and sends nothing. *)
Theorem cancel_idempotent id m : Cancel id (Cancel id m) = Cancel id m.
Proof.
  unfold Cancel at 2. destruct (find_job id (mjobs m)) as [c|] eqn:E.
  - unfold Cancel. rewrite E. cbn [mjobs]. rewrite find_del. reflexivity.
  - unfold Cancel. rewrite E. reflexivity.
Qed.

Lemma take_goroutine_last id md c l :
  Forall (fun g => fst (fst g) <> id) l ->
  take_goroutine id (l ++ [(id, md, c)]) = (Some (md, c), l).
Proof.
  induction l as [|[[k md'] c'] l IH]; intros H.
  - cbn. rewrite String.eqb_refl. reflexivity.
  - inversion H as [|? ? Hk Hl]; subst. cbn [app take_goroutine].
    destruct (String.eqb_spec k id); [cbn in Hk; congruence|]. rewrite IH by exact Hl. reflexivity.
Qed.

Lemma terminal_app id l1 l2 :
  map fst (filter (fun e => String.eqb (snd e) id &&
                     (String.eqb (fst e) "done" || String.eqb (fst e) "error"
                      || String.eqb (fst e) "canceled")) (l1 ++ l2))
  = (map fst (filter (fun e => String.eqb (snd e) id &&
                     (String.eqb (fst e) "done" || String.eqb (fst e) "error"
                      || String.eqb (fst e) "canceled")) l1)
    ++ map fst (filter (fun e => String.eqb (snd e) id &&
                     (String.eqb (fst e) "done" || String.eqb (fst e) "error"
                      || String.eqb (fst e) "canceled")) l2))%list.
Proof. rewrite filter_app, map_app. reflexivity. Qed.

(** [X6] A job started while no earlier run with the same id is in flight, and
    whose run ends with nothing cancelling it, gets exactly one terminal
    message: 'done' when the mode is hls, dash or http, the download's
    ffmpeg succeeds, the conversion's ffmpeg (if the job converts) succeeds,
    the rename succeeds and nothing panics; 'error' otherwise. *)
Theorem start_exit_one_terminal id md x m :
  Forall (fun g => fst (fst g) <> id) (goroutines m) ->
  terminal_events id (Finish id x (Start id md m))
  = (terminal_events id m ++ [if (String.eqb md "hls" || String.eqb md "dash" || String.eqb md "http")
                                  && match dl_exit x with ExitOk => true | ExitErr _ => false end
                                  && match conv_exit x with
                                     | None | Some ExitOk => true | Some (ExitErr _) => false end
                                  && rename_ok x && negb (panics x)
                              then "done" else "error"])%list.
Proof.
  intros H. unfold Finish, Start. cbn [goroutines ctxs sent].
  rewrite take_goroutine_last by exact H.
  rewrite nth_error_app2 by lia. rewrite Nat.sub_diag. cbn [nth_error].
  unfold terminal_events. cbn [sent]. rewrite !terminal_app. cbn.
  rewrite String.eqb_refl, app_nil_r. f_equal.
  unfold run_msg, download_err, convert_err.
  destruct x as [dx cx rn pn]; cbn [dl_exit conv_exit rename_ok panics].
  destruct pn; [rewrite andb_false_r; reflexivity|rewrite andb_true_r].
  destruct (String.eqb md "hls" || String.eqb md "dash" || String.eqb md "http"); [|reflexivity].
  destruct dx; [|reflexivity]. destruct cx as [[|]|]; [|reflexivity|]; destruct rn; reflexivity.
Qed.

(** [X7] [job.run] never removes a finished job from [m.jobs]: a 'cancel' for a
    job that already ended in 'done' or 'error' still sends 'canceled', so
    its id gets two terminal messages. *)
Theorem cancel_after_finish id md x m :
  Forall (fun g => fst (fst g) <> id) (goroutines m) ->
  exists r, terminal_events id (Cancel id (Finish id x (Start id md m)))
            = (terminal_events id m ++ [r; "canceled"])%list
         /\ (r = "done" \/ r = "error").
Proof.
  intros H. unfold Finish, Start. cbn [goroutines ctxs sent mjobs].
  rewrite take_goroutine_last by exact H.
  rewrite nth_error_app2 by lia. rewrite Nat.sub_diag. cbn [nth_error].
  set (r := run_msg md false x).
  exists r. split.
  - unfold Cancel. cbn [mjobs find_job]. rewrite String.eqb_refl.
    unfold terminal_events. cbn [sent]. rewrite !terminal_app. cbn.
    rewrite String.eqb_refl. rewrite <- app_assoc.
    assert (Hr : (String.eqb r "done" || String.eqb r "error" || String.eqb r "canceled") = true).
    { unfold r, run_msg. destruct (panics x); [reflexivity|].
      destruct (download_err md false (dl_exit x)); [reflexivity|].
      destruct (convert_err false (conv_exit x)); [reflexivity|].
      destruct (rename_ok x); reflexivity. }
    rewrite Hr. cbn. rewrite <- !app_assoc. reflexivity.
  - unfold r, run_msg. destruct (panics x); [right; reflexivity|].
    destruct (download_err md false (dl_exit x)); [right; reflexivity|].
    destruct (convert_err false (conv_exit x)); [right; reflexivity|].
    destruct (rename_ok x); [left|right]; reflexivity.
Qed.

Lemma start_exit_one_terminal_witness :
  Forall (fun g => fst (fst g) <> "j1") (goroutines empty)
  /\ terminal_events "j1" (Finish "j1" ok_run (Start "j1" "hls" empty)) = ["done"].
Proof.
  split; [constructor|].
  apply (start_exit_one_terminal "j1" "hls" ok_run empty). constructor.
Defined.

Lemma cancel_after_finish_witness :
  Forall (fun g => fst (fst g) <> "j1") (goroutines empty)
  /\ exists r, terminal_events "j1" (Cancel "j1" (Finish "j1" failed_download (Start "j1" "dash" empty)))
            = ([] ++ [r; "canceled"])%list /\ (r = "done" \/ r = "error").
Proof.
  split; [constructor|].
  apply (cancel_after_finish "j1" "dash" failed_download empty). constructor.
Defined.

End GoJobFacts.

Module GoProgressFacts.
Import GoProgress FloatFacts Scenarios.
Open Scope Z_scope.

Lemma trunc_nonneg x : (0 <= x)%Q -> 0 <= F.trunc x.
Proof.
  intros H. unfold F.trunc. replace (Qle_bool 0 x) with true by (symmetry; apply Qle_bool_iff, H).
  change 0 with (Qfloor 0). apply Qfloor_resp_le, H.
Qed.

Lemma of_Z_nonneg z : 0 <= z -> (0 <= F.of_Z z)%Q.
Proof. intros H. apply round_nonneg. unfold Qle; cbn. lia. Qed.

Lemma mul_nonneg a b : (0 <= a)%Q -> (0 <= b)%Q -> (0 <= F.mul a b)%Q.
Proof. intros Ha Hb. apply round_nonneg. apply Qmult_le_0_compat; assumption. Qed.

Lemma add_nonneg a b : (0 <= a)%Q -> (0 <= b)%Q -> (0 <= F.add a b)%Q.
Proof.
  intros Ha Hb. apply round_nonneg. rewrite <- (Qplus_0_l 0). apply Qplus_le_compat; assumption.
Qed.

Lemma div_nonneg' a b : (0 <= b)%Q -> (0 <= a)%Q -> (0 <= F.div a b)%Q.
Proof.
  intros Hb Ha. destruct (Qnum b) eqn:Eb.
  - unfold F.div. rewrite round_Qnum0; [apply Qle_refl|].
    destruct b as [bn bd]. cbn in Eb. subst bn. cbn. lia.
  - apply div_nonneg; [|exact Ha]. apply Qlt_0_num. lia.
  - apply Qle_0_num in Hb. lia.
Qed.

Lemma to_int64_nonneg x : (0 <= x)%Q -> 0 <= to_int64 x \/ to_int64 x = - 2 ^ 63.
Proof.
  intros H. unfold to_int64. pose proof (trunc_nonneg x H).
  destruct ((- 2 ^ 63 <=? F.trunc x) && (F.trunc x <? 2 ^ 63)); [left; exact H0|right; reflexivity].
Qed.

(** [X8] In every 'progress' message [sendProgress] sends, the speed and the
    ETA are nonnegative unless they are too large for an int64, in which
    case Go's conversion makes them the minimum int64; the percentage is at
    most 100, and nonnegative with the same exception; the speed average
    stays nonnegative; and the ETA is 0 once the received bytes reach a
    positive total.  This holds whatever the clock or the total, the
    received count being nonnegative. *)
Theorem sendProgress_ranges now br tb job job' pm :
  0 <= br -> (0 <= speedEMA job)%Q ->
  sendProgress now br tb job = (job', Some pm) ->
  (0 <= speedEMA job')%Q
  /\ (0 <= pm_speedBps pm \/ pm_speedBps pm = - 2 ^ 63)
  /\ (0 <= pm_etaSec pm \/ pm_etaSec pm = - 2 ^ 63)
  /\ pm_percent pm <= 100 /\ (0 <= pm_percent pm \/ pm_percent pm = - 2 ^ 63)
  /\ (0 < tb <= br -> pm_etaSec pm = 0).
Proof.
  intros Hbr Hema Hs. unfold sendProgress in Hs.
  set (dt := Seconds (now - lastTick job)) in Hs.
  destruct (Qlt_bool dt (1 # 2)) eqn:Edt; [discriminate|].
  assert (Hdt : (0 < dt)%Q).
  { apply negb_false_iff in Edt. apply Qle_bool_iff in Edt.
    apply Qlt_le_trans with (1 # 2); [reflexivity|exact Edt]. }
  set (d := br - lastBytes job) in Hs.
  set (d' := if d <? 0 then 0 else d) in Hs.
  assert (Hd' : 0 <= d') by (unfold d'; destruct (Z.ltb_spec d 0); lia).
  set (inst := F.div (F.of_Z d') dt) in Hs.
  assert (Hinst : (0 <= inst)%Q) by (apply div_nonneg; [exact Hdt|apply of_Z_nonneg, Hd']).
  set (ema := if Qeq_bool (speedEMA job) 0 then inst
              else F.add (F.mul (1 # 4) inst) (F.mul (3 # 4) (speedEMA job))) in Hs.
  assert (Hema' : (0 <= ema)%Q).
  { unfold ema. destruct (Qeq_bool (speedEMA job) 0); [exact Hinst|].
    apply add_nonneg; apply mul_nonneg; try assumption; discriminate. }
  destruct (0 <? tb) eqn:Etb.
  - set (rem := tb - br) in Hs. set (rem' := if rem <? 0 then 0 else rem) in Hs.
    assert (Hrem : 0 <= rem') by (unfold rem'; destruct (Z.ltb_spec rem 0); lia).
    set (p := to_int64 (F.div (F.mul (F.of_Z br) 100) (F.of_Z tb))) in Hs.
    assert (Hp : 0 <= p \/ p = - 2 ^ 63).
    { apply to_int64_nonneg, div_nonneg'; [apply of_Z_nonneg; lia|].
      apply mul_nonneg; [apply of_Z_nonneg, Hbr|discriminate]. }
    inversion Hs; subst; cbn. split; [exact Hema'|]. split; [apply to_int64_nonneg, Hema'|].
    split; [|split; [|split]].
    + destruct (Qlt_bool 0 ema) eqn:E; [|left; lia].
      apply Qlt_bool_iff in E. apply to_int64_nonneg, div_nonneg; [exact E|apply of_Z_nonneg, Hrem].
    + destruct (100 <? p) eqn:E; [lia|]. apply Z.ltb_ge in E. exact E.
    + destruct (100 <? p); [left; lia|exact Hp].
    + intros [H1 H2]. destruct (Qlt_bool 0 ema); [|reflexivity].
      unfold rem', rem. destruct (Z.ltb_spec (tb - br) 0).
      * reflexivity.
      * replace (tb - br) with 0 by lia. reflexivity.
  - inversion Hs; subst; cbn. split; [exact Hema'|]. split; [apply to_int64_nonneg, Hema'|].
    split; [left; lia|]. split; [lia|]. split; [left; lia|]. intros; lia.
Qed.

Lemma sendProgress_ranges_witness :
  0 <= 500 /\ (0 <= speedEMA {| ExpTotal := 1000; speedEMA := 0; lastBytes := 0; lastTick := 0 |})%Q
  /\ sendProgress 1000000000 500 1000 {| ExpTotal := 1000; speedEMA := 0; lastBytes := 0; lastTick := 0 |}
     = ({| ExpTotal := 1000; speedEMA := 500; lastBytes := 500; lastTick := 1000000000 |},
        Some {| pm_bytesReceived := 500; pm_totalBytes := 1000; pm_speedBps := 500;
                pm_etaSec := 1; pm_percent := 50 |})
  /\ (0 <= speedEMA {| ExpTotal := 1000; speedEMA := 500; lastBytes := 500; lastTick := 1000000000 |})%Q
     /\ (0 <= 500 \/ 500 = - 2 ^ 63) /\ (0 <= 1 \/ 1 = - 2 ^ 63)
     /\ 50 <= 100 /\ (0 <= 50 \/ 50 = - 2 ^ 63) /\ (0 < 1000 <= 500 -> 1 = 0).
Proof.
  split; [lia|]. split; [vm_compute; discriminate|]. split; [vm_compute; reflexivity|].
  apply (sendProgress_ranges 1000000000 500 1000
           {| ExpTotal := 1000; speedEMA := 0; lastBytes := 0; lastTick := 0 |}
           {| ExpTotal := 1000; speedEMA := 500; lastBytes := 500; lastTick := 1000000000 |}
           {| pm_bytesReceived := 500; pm_totalBytes := 1000; pm_speedBps := 500;
              pm_etaSec := 1; pm_percent := 50 |}); [lia|vm_compute; discriminate|vm_compute; reflexivity].
Defined.


End GoProgressFacts.

Module QueueTimerFacts.
Import Queue QueueTimerInv.

Lemma Forall_list_upd {A} (P : A -> Prop) l i f :
  (forall x, P x -> P (f x)) -> Forall P l -> Forall P (list_upd l i f).
Proof.
  intros Hf. revert i; induction l as [|x l IH]; intros i H; [destruct i; constructor|].
  inversion H; subst. destruct i; cbn; constructor; auto.
Qed.

Lemma TInv_upd i f s :
  (forall j, maxRetries (f j) = maxRetries j) -> TInv s -> TInv (upd i f s).
Proof.
  intros Hf [A B]. split; [|exact B].
  apply Forall_list_upd; [intros x Hx; rewrite Hf; exact Hx|exact A].
Qed.

Lemma TInv_broadcast ty i s : TInv s -> TInv (broadcast ty i s).
Proof. unfold broadcast. destruct (job_at s i); auto. Qed.

Lemma TInv_same s s' : jobs s' = jobs s -> timers s' = timers s -> TInv s -> TInv s'.
Proof. intros E1 E2 [A B]. split; [rewrite E1|rewrite E2]; assumption. Qed.

Ltac same := match goal with H : TInv ?x |- _ => apply (TInv_same x); [reflexivity|reflexivity|exact H] end.

Lemma retry_delay r : r < 3 -> 0 < r ->
  forall i : nat, delay_ok (i, Z.min (1000 * 2 ^ Z.of_nat r) 30000)%Z.
Proof.
  intros H1 H2 i. destruct r as [|[|[|r]]]; try lia; [left|right]; reflexivity.
Qed.

Lemma handleJobError_with_T pq i e s : pq_T pq -> TInv s -> TInv (handleJobError_with pq i e s).
Proof.
  intros Hpq HT. unfold handleJobError_with.
  destruct (job_at s i) as [j|] eqn:Hj; [|exact HT].
  assert (Hm : maxRetries j = 3).
  { destruct HT as [A _]. unfold job_at in Hj. apply nth_error_In in Hj.
    rewrite Forall_forall in A. apply A, Hj. }
  destruct (Nat.ltb (S (retries j)) (maxRetries j)) eqn:Hr.
  - apply Nat.ltb_lt in Hr. rewrite Hm in Hr.
    set (s2 := broadcast "JOB_PROGRESS" i (upd i _ s)).
    assert (H2 : TInv s2) by (apply TInv_broadcast, TInv_upd; [reflexivity|exact HT]).
    destruct H2 as [A B]. split; [exact A|]. cbn [timers set_timers mkSt].
    apply Forall_app; split; [exact B|]. constructor; [|constructor].
    apply (retry_delay (S (retries j))); lia.
  - apply Hpq, TInv_broadcast. eapply TInv_same; [reflexivity|reflexivity|].
    apply TInv_upd; [reflexivity|exact HT].
Qed.

Lemma startJob_with_T pq i s : pq_T pq -> TInv s -> TInv (startJob_with pq i s).
Proof.
  intros Hpq HT. unfold startJob_with.
  assert (H3 : TInv (broadcast "JOB_PROGRESS" i
                 (set_active (map_set i (activeJobs (upd i (set_state Active) s)))
                    (upd i (set_state Active) s)))).
  { apply TInv_broadcast. eapply TInv_same; [reflexivity|reflexivity|].
    apply TInv_upd; [reflexivity|exact HT]. }
  destruct (job_at _ i) as [j|]; [|exact H3].
  destruct (route j); [same|].
  unfold startNativeDownload_with.
  match goal with |- context [if nativePort ?s3 then ?s3 else ?y] =>
    assert (H4 : TInv (if nativePort s3 then s3 else y))
      by (destruct (nativePort s3); [exact H3|apply (TInv_same s3); [reflexivity|reflexivity|exact H3]]);
    set (s4 := if nativePort s3 then s3 else y) in * end.
  destruct (nativePort s4); [same|]. apply handleJobError_with_T; assumption.
Qed.

Lemma processQueue_fuel_T f : pq_T (processQueue_fuel f).
Proof.
  induction f as [|f IH]; intros s HT; [exact HT|]. cbn [processQueue_fuel].
  destruct (Nat.ltb _ _); [|exact HT]. destruct (jobQueue s) as [|i q]; [exact HT|].
  apply IH, startJob_with_T; [exact IH|same].
Qed.

Lemma processQueue_T s : TInv s -> TInv (processQueue s).
Proof. apply processQueue_fuel_T. Qed.

Lemma Forall_firstn_skipn {A} (P : A -> Prop) k l :
  Forall P l -> Forall P (firstn k l ++ skipn (S k) l).
Proof.
  intros H. rewrite Forall_forall in *. intros x Hx. apply in_app_or in Hx as [Hx|Hx].
  - apply H. rewrite <- (firstn_skipn k l). apply in_or_app. left; exact Hx.
  - apply H. rewrite <- (firstn_skipn (S k) l). apply in_or_app. right; exact Hx.
Qed.

Lemma step_T s ev : TInv s -> TInv (step s ev).
Proof.
  intros HT. destruct ev as [it|i m|i|i e|i|i|i|k|]; cbn [step].
  - unfold enqueueJob. apply processQueue_T, TInv_broadcast.
    destruct HT as [A B]. split; [|exact B]. cbn.
    apply Forall_app; split; [exact A|constructor; [reflexivity|constructor]].
  - unfold handleNativeMessage. destruct (existsb _ _); [|exact HT].
    destruct m as [| |e].
    + apply TInv_broadcast, HT.
    + unfold completeJob. apply processQueue_T, TInv_broadcast.
      eapply TInv_same; [reflexivity|reflexivity|]. apply TInv_upd; [reflexivity|exact HT].
    + apply handleJobError_with_T; [exact processQueue_T|exact HT].
  - unfold completeJob. apply processQueue_T, TInv_broadcast.
    eapply TInv_same; [reflexivity|reflexivity|]. apply TInv_upd; [reflexivity|exact HT].
  - apply handleJobError_with_T; [exact processQueue_T|exact HT].
  - unfold cancelJob. destruct (existsb _ (activeJobs s)).
    + apply processQueue_T, TInv_broadcast.
      eapply TInv_same; [reflexivity|reflexivity|]. apply TInv_upd; [reflexivity|exact HT].
    + destruct (existsb _ (jobQueue s)); [|exact HT].
      apply TInv_broadcast, TInv_upd; [reflexivity|same].
  - unfold pauseJob. destruct (existsb _ _); [|exact HT].
    apply TInv_broadcast, TInv_upd; [reflexivity|exact HT].
  - unfold resumeJob. destruct (existsb _ _); [|exact HT].
    apply TInv_broadcast, TInv_upd; [reflexivity|exact HT].
  - unfold fireTimer. destruct (nth_error (timers s) k) as [[i d]|]; [|exact HT].
    apply processQueue_T. destruct HT as [A B]. split; [exact A|].
    cbn. apply Forall_firstn_skipn, B.
  - same.
Qed.

(** [X9] Every retry [setTimeout] the queue manager ever has pending waits 2 s
    or 4 s: jobs are created with [maxRetries = 3], so only the first two
    failures are retried, and the 30 s cap of the back-off is never
    reached. *)
Theorem retry_delays_2s_or_4s (installed : bool) (evs : list Event) :
  Forall (fun t => snd t = 2000%Z \/ snd t = 4000%Z) (timers (run (init installed) evs)).
Proof.
  assert (H : forall s, TInv s -> TInv (run s evs)).
  { induction evs as [|ev evs IH]; intros s HT; [exact HT|]. cbn. apply IH, step_T, HT. }
  apply H. split; constructor.
Qed.

End QueueTimerFacts.

Module ProgressFacts.
Import Progress.

(** [X10] [fmtPercent] gives [null] exactly when the total is not positive, and
    otherwise a whole percentage between 0 and 100, whatever the byte
    count (negative, or above the total). *)
Theorem fmtPercent_range (bytes total : Q) :
  (fmtPercent bytes total = None <-> (total <= 0)%Q)
  /\ (forall p, fmtPercent bytes total = Some p -> (0 <= p <= 100)%Z).
Proof.
  unfold fmtPercent, truthy. split.
  - destruct (Qeq_bool total 0) eqn:E0; cbn [negb orb].
    + apply Qeq_bool_iff in E0. split; [intros _; rewrite E0; apply Qle_refl|reflexivity].
    + destruct (Qle_bool total 0) eqn:E1.
      * apply Qle_bool_iff in E1. split; [intros _; exact E1|reflexivity].
      * split; [discriminate|]. intros H. apply Qle_bool_iff in H. congruence.
  - intros p. destruct (negb (negb (Qeq_bool total 0)) || Qle_bool total 0); [discriminate|].
    intros H. inversion H. unfold js_min. lia.
Qed.

End ProgressFacts.

Module DetectModeFacts.
Import Queue.

Lemma ext_search_app ext u s : ext_here ext s = true -> ext_search ext (u ++ s) = true.
Proof.
  intros H. induction u as [|c u IH]; cbn [String.append ext_search].
  - destruct s; cbn [ext_search]; [exact H|rewrite H; reflexivity].
  - rewrite IH. apply orb_true_r.
Qed.

(** [X11] A URL whose path ends in [.m3u8], in any letter case, possibly
    followed by a query string, is downloaded as HLS. *)
Theorem detectMode_m3u8 (u q : string) :
  detectMode (u ++ ".m3u8") = "hls"
  /\ detectMode (u ++ ".M3U8") = "hls"
  /\ detectMode (u ++ ".m3u8?" ++ q) = "hls"
  /\ detectMode (u ++ ".M3U8?" ++ q) = "hls".
Proof.
  unfold detectMode.
  repeat split; rewrite ext_search_app; reflexivity.
Qed.

End DetectModeFacts.

Module ExtFacts.
Import Ext ExtDefs.

(** [X12] [header] finds a header whatever the letter case of its name: the
    first header whose lower-cased name is the one asked for gives its
    value, when that value is not empty. *)
Theorem header_first_match pre h post name n v :
  Forall (fun h' => hmatch name h' = false) pre ->
  hname h = Some n -> lower_s n = name -> hvalue h = Some v -> v <> "" ->
  header (Some (pre ++ h :: post)%list) name = Some v.
Proof.
  intros Hpre Hn Hl Hv Hne. unfold header.
  induction pre as [|x pre IH].
  - cbn [app find]. rewrite Hn, Hl, String.eqb_refl, Hv.
    destruct (String.eqb_spec v ""); [contradiction|reflexivity].
  - inversion Hpre as [|? ? Hx Hr]; subst.
    cbn [app find]. unfold hmatch in Hx. rewrite Hx. apply IH, Hr.
Qed.

(** [X13] After a tab is closed (or navigates), the popup's list for that tab
    is empty while the other tabs keep theirs, and the tab's badge counts
    only the blob videos, which are kept for every tab. *)
Theorem tab_removed_state tab m bv :
  requestState_net tab (onTabRemoved tab m) = []
  /\ (forall t, t <> tab -> requestState_net t (onTabRemoved tab m) = requestState_net t m)
  /\ updateBadge tab (onTabRemoved tab m) bv = updateBadge tab [] bv.
Proof.
  assert (E : filter (fun e => Z.eqb (v_tab (snd e)) tab) (onTabRemoved tab m) = []).
  { unfold onTabRemoved. induction m as [|x m IH]; [reflexivity|]. cbn [filter].
    destruct (Z.eqb (v_tab (snd x)) tab) eqn:Ex; cbn [negb]; [exact IH|].
    cbn [filter]. rewrite Ex. exact IH. }
  split; [|split].
  - unfold requestState_net. rewrite E. reflexivity.
  - intros t Ht. unfold requestState_net, onTabRemoved. f_equal. clear E.
    induction m as [|x m IH]; [reflexivity|]. cbn [filter].
    destruct (Z.eqb_spec (v_tab (snd x)) tab) as [Ex|Ex]; cbn [negb filter].
    + destruct (Z.eqb_spec (v_tab (snd x)) t); [congruence|exact IH].
    + rewrite IH. reflexivity.
  - unfold updateBadge. rewrite E. reflexivity.
Qed.

Lemma lastn_le {A} n (l : list A) : length l <= n -> lastn n l = l.
Proof. intros H. unfold lastn. replace (length l - n) with 0 by lia. reflexivity. Qed.

Lemma lastn_length {A} n (l : list A) : length (lastn n l) <= n.
Proof. unfold lastn. rewrite length_skipn. lia. Qed.

Lemma lastn_app_lastn {A} n (l x : list A) : lastn n (lastn n l ++ x) = lastn n (l ++ x).
Proof.
  unfold lastn. set (a := length l - n).
  assert (E : (skipn a l ++ x = skipn a (l ++ x))%list).
  { rewrite skipn_app. replace (a - length l) with 0 by (unfold a; lia). reflexivity. }
  rewrite E, skipn_skipn, !length_skipn, !length_app. f_equal. unfold a. lia.
Qed.

Lemma onBlobMeta_lastn m bv : length bv <= 50 ->
  onBlobMeta (bm_size m) (bm_type m) (bm_ts m) (bm_tab m) bv = lastn 50 (bv ++ accepted m).
Proof.
  intros H. unfold onBlobMeta, accepted.
  destruct (bm_size m) as [sz|]; [|rewrite app_nil_r, lastn_le by lia; reflexivity].
  destruct (Qle_bool (524288 # 1) sz); [|rewrite app_nil_r, lastn_le by lia; reflexivity].
  rewrite length_app. cbn [length].
  destruct (Nat.ltb_spec 50 (length bv + 1)).
  - unfold lastn. rewrite length_app. cbn [length].
    replace (length bv + 1 - 50) with 1 by lia.
    destruct bv; [cbn in *; lia|reflexivity].
  - rewrite lastn_le; [reflexivity|rewrite length_app; cbn; lia].
Qed.

(** [X14] The list of blob videos keeps the last 50 of the ones announced with
    a size of at least 512 KiB, in order: starting from at most 50 entries,
    any sequence of BLOB_META messages leaves exactly the last 50 entries
    of the old list followed by the accepted new ones. *)
Theorem blob_run_lastn bv ms : length bv <= 50 ->
  blob_run bv ms = lastn 50 (bv ++ flat_map accepted ms).
Proof.
  unfold blob_run. revert bv. induction ms as [|m ms IH]; intros bv H.
  - cbn. rewrite app_nil_r, lastn_le by exact H. reflexivity.
  - cbn [fold_left flat_map]. rewrite onBlobMeta_lastn by exact H.
    rewrite IH by apply lastn_length.
    rewrite lastn_app_lastn, app_assoc. reflexivity.
Qed.
Lemma header_first_match_witness :
  Forall (fun h' => hmatch "content-type" h' = false)
    [{| hname := Some "Content-Length"; hvalue := Some "42" |}]
  /\ header (Some [{| hname := Some "Content-Length"; hvalue := Some "42" |};
                   {| hname := Some "Content-Type"; hvalue := Some "video/mp4" |};
                   {| hname := Some "content-type"; hvalue := Some "text/html" |}]) "content-type"
     = Some "video/mp4".
Proof.
  split; [repeat constructor|].
  apply (header_first_match [{| hname := Some "Content-Length"; hvalue := Some "42" |}]
           {| hname := Some "Content-Type"; hvalue := Some "video/mp4" |}
           [{| hname := Some "content-type"; hvalue := Some "text/html" |}]
           "content-type" "Content-Type" "video/mp4");
    [repeat constructor|reflexivity|reflexivity|reflexivity|discriminate].
Defined.

Lemma blob_run_lastn_witness :
  length (@nil BlobEntry) <= 50
  /\ blob_run [] [{| bm_size := Some (1000000 # 1); bm_type := "video/mp4"; bm_ts := 1; bm_tab := Some 7%Z |};
                  {| bm_size := Some (10 # 1); bm_type := "video/mp4"; bm_ts := 2; bm_tab := None |}]
     = lastn 50 ([] ++ flat_map accepted
                   [{| bm_size := Some (1000000 # 1); bm_type := "video/mp4"; bm_ts := 1; bm_tab := Some 7%Z |};
                    {| bm_size := Some (10 # 1); bm_type := "video/mp4"; bm_ts := 2; bm_tab := None |}])%list.
Proof.
  split; [cbn; lia|]. apply blob_run_lastn. cbn; lia.
Defined.

End ExtFacts.

Module FFmpegFacts.
Import FFmpeg FFmpegDefs StrFacts.

Lemma progress_line_out u l :
  snd (progress_line u l) = if is_progress_line l then Some u else None.
Proof.
  unfold progress_line, is_progress_line.
  destruct (String.eqb_spec l "") as [->|_]; [reflexivity|].
  destruct (split_eq l) as [[k v]|]; [|reflexivity].
  destruct (String.eqb_spec k "total_size") as [->|]; [reflexivity|].
  destruct (String.eqb_spec k "out_time_ms") as [->|]; [reflexivity|].
  destruct (String.eqb_spec k "frame") as [->|]; [reflexivity|].
  destruct (String.eqb_spec k "progress"); reflexivity.
Qed.

(** [X15] [parseProgress] calls back once per [progress=...] line of ffmpeg's
    output, and never otherwise. *)
Theorem parseProgress_count u lines :
  length (parseProgress_from u lines) = length (filter is_progress_line lines).
Proof.
  revert u. induction lines as [|l ls IH]; intros u; [reflexivity|].
  cbn [parseProgress_from filter].
  pose proof (progress_line_out u l) as E.
  destruct (progress_line u l) as [u' out]. cbn [snd] in E. subst out.
  destruct (is_progress_line l); cbn [length]; rewrite IH; reflexivity.
Qed.

(** [X16] A [total_size], [out_time_ms] or [frame] value that [strconv.ParseInt]
    refuses (ffmpeg writes [N/A] before the first packet) is skipped: the
    line has no effect on what is reported. *)
Theorem parseProgress_bad_value u key v lines :
  (key = "total_size" \/ key = "out_time_ms" \/ key = "frame") ->
  ParseInt v = None ->
  parseProgress_from u ((key ++ "=" ++ v) :: lines) = parseProgress_from u lines.
Proof.
  intros Hk Hv. cbn [parseProgress_from].
  destruct Hk as [ -> | [ -> | -> ] ]; unfold progress_line; cbn; rewrite Hv; reflexivity.
Qed.

Lemma progress_line_bytes u l :
  sets_total l = false -> BytesWritten (fst (progress_line u l)) = BytesWritten u.
Proof.
  unfold progress_line, sets_total. intros H.
  destruct (String.eqb l ""); [reflexivity|].
  destruct (split_eq l) as [[k v]|]; [|reflexivity].
  rewrite H. destruct (String.eqb k "out_time_ms"); [destruct (ParseInt v); reflexivity|].
  destruct (String.eqb k "frame"); [destruct (ParseInt v); reflexivity|].
  destruct (String.eqb k "progress"); reflexivity.
Qed.

Lemma bytes_carried u lines :
  Forall (fun l => sets_total l = false) lines ->
  Forall (fun x => BytesWritten x = BytesWritten u) (parseProgress_from u lines).
Proof.
  revert u. induction lines as [|l ls IH]; intros u H; [constructor|].
  inversion H as [|? ? Hl Hls]; subst. cbn [parseProgress_from].
  pose proof (progress_line_out u l) as E. pose proof (progress_line_bytes u l Hl) as B.
  destruct (progress_line u l) as [u' out]. cbn [snd fst] in E, B. subst out.
  destruct (is_progress_line l).
  - constructor; [reflexivity|]. rewrite <- B. apply IH, Hls.
  - rewrite <- B. apply IH, Hls.
Qed.

(** [X17] After a [total_size=v] line that parses to [n], every update reported
    until the next [total_size] line carries [BytesWritten = n]. *)
Theorem parseProgress_total_carried u v n lines :
  ParseInt v = Some n ->
  Forall (fun l => sets_total l = false) lines ->
  Forall (fun x => BytesWritten x = n) (parseProgress_from u (("total_size=" ++ v) :: lines)).
Proof.
  intros Hv H. cbn [parseProgress_from]. unfold progress_line at 1. cbn. rewrite Hv.
  apply (bytes_carried {| BytesWritten := n; OutTimeMs := OutTimeMs u; Frame := Frame u |}), H.
Qed.

(** [X18] [BuildConvertArgs] with codec names it does not know copies the
    streams: the conversion only remuxes. *)
Theorem convert_unknown_codecs_copy input output vcodec acodec :
  vcodec <> "h264" -> vcodec <> "hevc" ->
  acodec <> "aac" -> acodec <> "opus" -> acodec <> "mp3" ->
  BuildConvertArgs input output vcodec acodec
  = ["-i"; input; "-c:v"; "copy"; "-c:a"; "copy"; "-movflags"; "+faststart"; output].
Proof.
  intros H1 H2 H3 H4 H5. unfold BuildConvertArgs.
  destruct (String.eqb vcodec "copy"); [|apply String.eqb_neq in H1, H2; rewrite H1, H2];
  (destruct (String.eqb acodec "copy"); [|apply String.eqb_neq in H3, H4, H5; rewrite H3, H4, H5]);
  reflexivity.
Qed.

Lemma header_fold hs acc : acc <> "" ->
  fold_left (fun result kv => (if String.eqb result "" then result else result ++ CRLF)
                               ++ fst kv ++ ": " ++ snd kv) hs acc ++ CRLF
  = acc ++ CRLF ++ String.concat "" (map (fun kv => header_line kv ++ CRLF) hs).
Proof.
  revert acc. induction hs as [|kv hs IH]; intros acc Hne.
  - cbn [fold_left map String.concat]. rewrite sapp_nil_r. reflexivity.
  - cbn [fold_left map]. destruct (String.eqb_spec acc ""); [contradiction|].
    rewrite IH by (destruct acc; [contradiction|discriminate]).
    rewrite concat_nil_cons. unfold header_line. rewrite !sapp_assoc. reflexivity.
Qed.

(** [X19] The header block passed to ffmpeg's [-headers] is every header as
    [Name: value] followed by CRLF, including the last one. *)
Theorem buildHeaderString_lines hs :
  hs <> [] ->
  buildHeaderString hs = String.concat "" (map (fun kv => header_line kv ++ CRLF) hs).
Proof.
  intros Hne. destruct hs as [|kv hs]; [contradiction|]. unfold buildHeaderString.
  cbn [fold_left]. replace (String.eqb "" "") with true by reflexivity.
  rewrite header_fold.
  - cbn [map]. rewrite concat_nil_cons. unfold header_line. rewrite !sapp_assoc. reflexivity.
  - destruct (fst kv); discriminate.
Qed.

Lemma parseProgress_bad_value_witness :
  ParseInt "N/A" = None
  /\ parseProgress_from {| BytesWritten := 0; OutTimeMs := 0; Frame := 0 |}
       (("total_size" ++ "=" ++ "N/A") :: ["progress=continue"])
     = parseProgress_from {| BytesWritten := 0; OutTimeMs := 0; Frame := 0 |} ["progress=continue"].
Proof.
  split; [reflexivity|].
  apply (parseProgress_bad_value _ "total_size" "N/A"); [left; reflexivity|reflexivity].
Defined.

Lemma parseProgress_total_carried_witness :
  ParseInt "1000" = Some 1000%Z
  /\ Forall (fun x => BytesWritten x = 1000%Z)
       (parseProgress_from {| BytesWritten := 0; OutTimeMs := 0; Frame := 0 |}
          (("total_size=" ++ "1000") :: ["out_time_ms=5"; "progress=continue"])).
Proof.
  split; [reflexivity|].
  apply parseProgress_total_carried; [reflexivity|repeat constructor].
Defined.

Lemma convert_unknown_codecs_copy_witness :
  "vp9" <> "h264" /\ BuildConvertArgs "in.webm" "out.mkv" "vp9" "flac"
  = ["-i"; "in.webm"; "-c:v"; "copy"; "-c:a"; "copy"; "-movflags"; "+faststart"; "out.mkv"].
Proof.
  split; [discriminate|].
  apply convert_unknown_codecs_copy; discriminate.
Defined.

Lemma buildHeaderString_lines_witness :
  [("Cookie", "a=1"); ("Referer", "https://example.com/")] <> []
  /\ buildHeaderString [("Cookie", "a=1"); ("Referer", "https://example.com/")]
     = String.concat "" (map (fun kv => header_line kv ++ CRLF)
                          [("Cookie", "a=1"); ("Referer", "https://example.com/")]).
Proof.
  split; [discriminate|]. apply buildHeaderString_lines. discriminate.
Defined.

End FFmpegFacts.

Module ConvertFacts.
Import Ipc IpcGet.

(** [X20] A 'download' message gets a conversion step in [job.run] exactly when
    its [convert] field is an object whose [container] is a string other
    than "copy"; a missing [convert], a missing or non-string container
    means no conversion. *)
Theorem download_converts_iff msg :
  converts (handleDownload_convert msg) = true
  <-> exists c, lookup_val "container" (GetMap msg "convert") = Some (GStr c) /\ c <> "copy".
Proof.
  unfold handleDownload_convert, ParseConvertOpts, converts. cbn [Container].
  destruct (lookup_val "container" (GetMap msg "convert")) as [[]|];
    try (split; [discriminate|intros (c & E & _); discriminate E]).
  split.
  - intros H. eexists; split; [reflexivity|]. intros ->. discriminate H.
  - intros (c & E & Hc). inversion E; subst. apply String.eqb_neq in Hc. rewrite Hc. reflexivity.
Qed.

End ConvertFacts.

Module HLSFacts.
Import NodeHLS StrFacts.

Lemma in_fs_add p q fs : In q (fs_add p fs) <-> q = p \/ In q fs.
Proof.
  unfold fs_add. destruct (existsb (String.eqb p) fs) eqn:E.
  - split; [intros H; right; exact H|]. intros [->|H]; [|exact H].
    apply existsb_exists in E as (x & Hx & Ex). apply String.eqb_eq in Ex. subst. exact Hx.
  - rewrite in_app_iff. cbn. split.
    + intros [H|[H|[]]]; [right; exact H|left; symmetry; exact H].
    + intros [H|H]; [right; left; symmetry; exact H|left; exact H].
Qed.

Lemma in_fs_remove p q fs : In q (fs_remove p fs) <-> In q fs /\ q <> p.
Proof.
  unfold fs_remove. rewrite filter_In, negb_true_iff, String.eqb_neq. reflexivity.
Qed.

Lemma in_fold_remove ps q fs :
  In q (fold_left (fun f p => fs_remove p f) ps fs) <-> In q fs /\ ~ In q ps.
Proof.
  revert fs. induction ps as [|p ps IH]; intros fs; cbn [fold_left].
  - cbn. tauto.
  - rewrite IH, in_fs_remove. cbn. split.
    + intros [[H1 H2] H3]. split; [exact H1|]. intros [E|E]; [congruence|contradiction].
    + intros [H1 H2]. split; [split; [exact H1|]|]; intros E; apply H2; [left; congruence|right; exact E].
Qed.

Lemma download_all_ok tmpDir i segs paths fs :
  Forall (fun r => exists b, r = SegResponse 200 b) segs ->
  exists fs', download_all tmpDir i segs paths fs
              = (inl (paths ++ map (segment_path tmpDir) (seq i (length segs)))%list, fs')
    /\ forall q, In q fs' <-> In q fs \/ In q (map (segment_path tmpDir) (seq i (length segs))).
Proof.
  revert i paths fs. induction segs as [|r segs IH]; intros i paths fs H.
  - exists fs. cbn. rewrite app_nil_r. split; [reflexivity|tauto].
  - inversion H as [|? ? (b & ->) Hs]; subst. cbn [download_all downloadSegment].
    replace (Nat.eqb 200 200) with true by reflexivity.
    destruct (IH (S i) (paths ++ [segment_path tmpDir i])%list
                (fs_add (segment_path tmpDir i) fs) Hs) as (fs' & E & Hin).
    exists fs'. split.
    + rewrite E. cbn [length seq map]. rewrite <- app_assoc. reflexivity.
    + intros q. rewrite Hin, in_fs_add. cbn [length seq map In]. split.
      * intros [[G|G]|G]; [right; left; symmetry; exact G|left; exact G|right; right; exact G].
      * intros [G|[G|G]]; [left; right; exact G|left; left; symmetry; exact G|right; exact G].
Qed.



End HLSFacts.

Module QueueCancelFacts.
Import Queue QueueFacts QueueCancelDefs.

Lemma job_at_upd i f s : job_at (upd i f s) i = option_map f (job_at s i).
Proof. unfold job_at, upd, set_jobs. cbn. rewrite nth_error_list_upd, Nat.eqb_refl. reflexivity. Qed.

Lemma job_at_set_timers t s i : job_at (set_timers t s) i = job_at s i.
Proof. reflexivity. Qed.
Lemma job_at_set_active a s i : job_at (set_active a s) i = job_at s i.
Proof. reflexivity. Qed.
Lemma job_at_set_queue q s i : job_at (set_queue q s) i = job_at s i.
Proof. reflexivity. Qed.
Lemma job_at_set_port p s i : job_at (set_port p s) i = job_at s i.
Proof. reflexivity. Qed.
Lemma job_at_add_dispatch e s i : job_at (add_dispatch e s) i = job_at s i.
Proof. reflexivity. Qed.

Lemma timers_broadcast ty i s : timers (broadcast ty i s) = timers s.
Proof. unfold broadcast. destruct (job_at s i); reflexivity. Qed.

Lemma pq1_empty s : jobQueue s = [] -> processQueue_fuel 1 s = s.
Proof. intros H. cbn [processQueue_fuel]. rewrite H. destruct (Nat.ltb (length (activeJobs s)) MAX_CONCURRENT); reflexivity. Qed.


Lemma handleJobError_state i e s j :
  jobQueue s = [] -> job_at s i = Some j ->
  exists j', job_at (handleJobError_with (processQueue_fuel 1) i e s) i = Some j'
             /\ (state j' = Retrying \/ state j' = Error)
             /\ jobQueue (handleJobError_with (processQueue_fuel 1) i e s) = [].
Proof.
  intros Hq Hj. unfold handleJobError_with. rewrite Hj.
  destruct (Nat.ltb _ _).
  - eexists. split; [|split].
    + rewrite job_at_set_timers, broadcast_job_at, job_at_upd, Hj. reflexivity.
    + left. reflexivity.
    + cbn. rewrite broadcast_queue. exact Hq.
  - rewrite pq1_empty by (rewrite broadcast_queue; exact Hq).
    eexists. split; [|split].
    + rewrite broadcast_job_at, job_at_set_active, job_at_upd, Hj. reflexivity.
    + right. reflexivity.
    + rewrite broadcast_queue. exact Hq.
Qed.

Lemma startJob_state i s j :
  jobQueue s = [] -> job_at s i = Some j ->
  exists j', job_at (startJob_with (processQueue_fuel 1) i s) i = Some j'
             /\ restarted (state j')
             /\ jobQueue (startJob_with (processQueue_fuel 1) i s) = [].
Proof.
  intros Hq Hj. unfold startJob_with.
  set (s3 := broadcast "JOB_PROGRESS" i _).
  assert (H3 : job_at s3 i = Some (set_state Active j)).
  { unfold s3. rewrite broadcast_job_at, job_at_set_active, job_at_upd, Hj. reflexivity. }
  assert (Q3 : jobQueue s3 = []) by (unfold s3; rewrite broadcast_queue; exact Hq).
  rewrite H3. destruct (route (set_state Active j)).
  - eexists. split; [|split]; [rewrite job_at_add_dispatch; exact H3|left; reflexivity|exact Q3].
  - unfold startNativeDownload_with.
    set (s4 := if nativePort s3 then s3 else set_port (nativeInstalled s3) s3).
    assert (H4 : job_at s4 i = Some (set_state Active j)) by (unfold s4; destruct (nativePort s3); [|rewrite job_at_set_port]; exact H3).
    assert (Q4 : jobQueue s4 = []) by (unfold s4; destruct (nativePort s3); exact Q3).
    destruct (nativePort s4).
    + eexists. split; [|split]; [rewrite job_at_add_dispatch; exact H4|left; reflexivity|exact Q4].
    + destruct (handleJobError_state i "Native companion app not available" s4 _ Q4 H4)
        as (j' & E & Hs & Hq').
      exists j'. split; [exact E|split; [right; exact Hs|exact Hq']].
Qed.

(** [X22] Take a job that waits for a retry: it holds a slot in [activeJobs]
    (with no more active jobs than the limit, each listed once) and has a
    pending retry timer, and no job is waiting in the queue.  Cancelling it
    does not stop it: [cancelJob] marks it cancelled and frees its slot but
    leaves the timers as they are, and when its retry timer fires the job is
    put back in front of the queue and started again (active, or
    retrying/error if the start fails at once). *)
Theorem cancel_during_retry_restarts i j s k d :
  jobQueue s = [] -> In i (activeJobs s) -> NoDup (activeJobs s) ->
  length (activeJobs s) <= MAX_CONCURRENT ->
  job_at s i = Some j -> nth_error (timers s) k = Some (i, d) ->
  option_map state (job_at (cancelJob i s) i) = Some Cancelled
  /\ ~ In i (activeJobs (cancelJob i s)) /\ timers (cancelJob i s) = timers s
  /\ exists j', job_at (fireTimer k (cancelJob i s)) i = Some j' /\ restarted (state j').
Proof.
  intros Hq Hin Hnd Hlen Hj Ht.
  assert (Hc : cancelJob i s
               = broadcast "JOB_ERROR" i
                   (set_active (map_delete i (activeJobs s)) (upd i (set_state Cancelled) s))).
  { unfold cancelJob.
    replace (existsb (Nat.eqb i) (activeJobs s)) with true
      by (symmetry; apply existsb_exists; exists i; split; [exact Hin|apply Nat.eqb_refl]).
    unfold processQueue. rewrite broadcast_queue. cbn [jobQueue set_active mkSt upd set_jobs].
    rewrite Hq. apply pq1_empty. rewrite broadcast_queue. exact Hq. }
  rewrite Hc. split.
  { rewrite broadcast_job_at, job_at_set_active, job_at_upd, Hj. reflexivity. }
  set (c := broadcast "JOB_ERROR" i _).
  assert (Tc : timers c = timers s) by (unfold c; rewrite timers_broadcast; reflexivity).
  assert (Ac : activeJobs c = map_delete i (activeJobs s)) by (unfold c; rewrite broadcast_active; reflexivity).
  split; [rewrite Ac; unfold map_delete; apply remove_In|].
  split; [exact Tc|].
  assert (Qc : jobQueue c = []) by (unfold c; rewrite broadcast_queue; exact Hq).
  assert (Jc : job_at c i = Some (set_state Cancelled j))
    by (unfold c; rewrite broadcast_job_at, job_at_set_active, job_at_upd, Hj; reflexivity).
  unfold fireTimer. rewrite Tc, Ht.
  set (s0 := set_timers _ c).
  set (s1 := set_active (map_delete i (activeJobs s0)) s0).
  assert (Q1 : jobQueue s1 = []) by exact Qc.
  assert (J1 : job_at s1 i = Some (set_state Cancelled j)) by exact Jc.
  assert (L1 : Nat.ltb (length (activeJobs s1)) MAX_CONCURRENT = true).
  { apply Nat.ltb_lt. change (activeJobs s1) with (map_delete i (activeJobs c)). rewrite Ac.
    unfold map_delete. pose proof (remove_length_le Nat.eq_dec (remove Nat.eq_dec i (activeJobs s)) i).
    pose proof (remove_length_lt Nat.eq_dec (activeJobs s) i Hin). lia. }
  unfold processQueue. rewrite Q1. cbn [length jobQueue set_queue mkSt].
  rewrite (processQueue_fuel_step 1 (set_queue [i] s1) i []) by (exact L1 || reflexivity).
  destruct (startJob_state i (set_queue [] (set_queue [i] s1)) (set_state Cancelled j) eq_refl J1)
    as (j' & E & Hs & Hq').
  rewrite pq1_empty by exact Hq'. exists j'. split; [exact E|exact Hs].
Qed.

Lemma cancel_during_retry_restarts_witness :
  jobQueue retry_pending = [] /\ In 0 (activeJobs retry_pending)
  /\ nth_error (timers retry_pending) 0 = Some (0, 2000%Z)
  /\ option_map state (job_at (cancelJob 0 retry_pending) 0) = Some Cancelled
  /\ ~ In 0 (activeJobs (cancelJob 0 retry_pending))
  /\ timers (cancelJob 0 retry_pending) = timers retry_pending
  /\ exists j', job_at (fireTimer 0 (cancelJob 0 retry_pending)) 0 = Some j' /\ restarted (state j').
Proof.
  split; [vm_compute; reflexivity|]. split; [vm_compute; left; reflexivity|].
  split; [vm_compute; reflexivity|].
  destruct (job_at retry_pending 0) as [j|] eqn:Hj; [|vm_compute in Hj; discriminate Hj].
  apply (cancel_during_retry_restarts 0 j retry_pending 0 2000%Z);
    [vm_compute; reflexivity|vm_compute; left; reflexivity
    |vm_compute; constructor; [intros []|constructor]
    |apply Nat.leb_le; vm_compute; reflexivity|exact Hj|vm_compute; reflexivity].
Defined.

End QueueCancelFacts.

Module QueuePauseFacts.
Import Queue QueueFacts QueueCancelDefs QueueCancelFacts Scenarios.

Lemma job_at_upd_other k i f s : k <> i -> job_at (upd k f s) i = job_at s i.
Proof.
  intros H. unfold job_at, upd, set_jobs. cbn. rewrite nth_error_list_upd.
  destruct (Nat.eqb_spec i k); [congruence|reflexivity].
Qed.

Lemma handleJobError_keeps pq i k e s :
  keeps i pq -> k <> i -> ~ In i (jobQueue s) ->
  job_at (handleJobError_with pq k e s) i = job_at s i
  /\ ~ In i (jobQueue (handleJobError_with pq k e s)).
Proof.
  intros Hpq Hk Hq. unfold handleJobError_with. destruct (job_at s k) as [j|]; [|split; [reflexivity|exact Hq]].
  destruct (Nat.ltb _ _).
  - rewrite job_at_set_timers, broadcast_job_at, job_at_upd_other by exact Hk. split; [reflexivity|].
    cbn [jobQueue set_timers mkSt]. rewrite broadcast_queue. exact Hq.
  - match goal with |- context [pq ?x] => destruct (Hpq x) as [E Q] end.
    + rewrite broadcast_queue. exact Hq.
    + rewrite E, broadcast_job_at, job_at_set_active, job_at_upd_other by exact Hk. split; [reflexivity|exact Q].
Qed.

Lemma startJob_keeps pq i k s :
  keeps i pq -> k <> i -> ~ In i (jobQueue s) ->
  job_at (startJob_with pq k s) i = job_at s i /\ ~ In i (jobQueue (startJob_with pq k s)).
Proof.
  intros Hpq Hk Hq. unfold startJob_with.
  set (s3 := broadcast "JOB_PROGRESS" k _).
  assert (J3 : job_at s3 i = job_at s i)
    by (unfold s3; rewrite broadcast_job_at, job_at_set_active, job_at_upd_other by exact Hk; reflexivity).
  assert (Q3 : ~ In i (jobQueue s3)) by (unfold s3; rewrite broadcast_queue; exact Hq).
  destruct (job_at s3 k) as [j|]; [|split; assumption].
  destruct (route j); [rewrite job_at_add_dispatch; split; assumption|].
  unfold startNativeDownload_with.
  set (s4 := if nativePort s3 then s3 else set_port (nativeInstalled s3) s3).
  assert (J4 : job_at s4 i = job_at s i)
    by (unfold s4; destruct (nativePort s3); [|rewrite job_at_set_port]; exact J3).
  assert (Q4 : ~ In i (jobQueue s4)) by (unfold s4; destruct (nativePort s3); exact Q3).
  destruct (nativePort s4); [rewrite job_at_add_dispatch; split; assumption|].
  rewrite <- J4. apply handleJobError_keeps; assumption.
Qed.

Lemma processQueue_fuel_keeps i f : keeps i (processQueue_fuel f).
Proof.
  induction f as [|f IH]; intros s Hq; [split; [reflexivity|exact Hq]|].
  cbn [processQueue_fuel]. destruct (Nat.ltb _ _); [|split; [reflexivity|exact Hq]].
  destruct (jobQueue s) as [|k q] eqn:Eq; [split; [reflexivity|rewrite Eq; exact Hq]|].
  assert (Hk : k <> i) by (intros ->; apply Hq; left; reflexivity).
  assert (Hq' : ~ In i q) by (intros H; apply Hq; right; exact H).
  destruct (startJob_keeps (processQueue_fuel f) i k (set_queue q s) IH Hk Hq') as [E Q].
  destruct (IH _ Q) as [E2 Q2]. rewrite E2, E. split; [reflexivity|exact Q2].
Qed.

(** [X23] Pausing an active job only relabels it: it keeps its slot in
    [activeJobs], and a later 'done' from the native host still completes it. *)
Theorem pause_then_done_completes i j s :
  In i (activeJobs s) -> ~ In i (jobQueue s) -> job_at s i = Some j ->
  activeJobs (pauseJob i s) = activeJobs s
  /\ option_map state (job_at (pauseJob i s) i) = Some Paused
  /\ option_map state (job_at (handleNativeMessage i NDone (pauseJob i s)) i) = Some Complete.
Proof.
  intros Ha Hq Hj.
  assert (Hin : existsb (Nat.eqb i) (activeJobs s) = true)
    by (apply existsb_exists; exists i; split; [exact Ha|apply Nat.eqb_refl]).
  unfold pauseJob. rewrite Hin.
  set (p := broadcast "JOB_PROGRESS" i (upd i (set_state Paused) s)).
  assert (Ap : activeJobs p = activeJobs s) by (unfold p; rewrite broadcast_active; reflexivity).
  assert (Jp : job_at p i = Some (set_state Paused j))
    by (unfold p; rewrite broadcast_job_at, job_at_upd, Hj; reflexivity).
  split; [exact Ap|]. split; [rewrite Jp; reflexivity|].
  unfold handleNativeMessage. rewrite Ap, Hin. unfold completeJob, processQueue.
  match goal with |- context [processQueue_fuel ?f ?x] => destruct (processQueue_fuel_keeps i f x) as [E _] end.
  - rewrite broadcast_queue. unfold p. cbn [jobQueue set_active mkSt upd set_jobs]. rewrite broadcast_queue. exact Hq.
  - rewrite E, broadcast_job_at, job_at_set_active, job_at_upd, Jp. reflexivity.
Qed.

Lemma pause_then_done_completes_witness :
  In 0 (activeJobs hls_enqueued) /\ ~ In 0 (jobQueue hls_enqueued)
  /\ activeJobs (pauseJob 0 hls_enqueued) = activeJobs hls_enqueued
  /\ option_map state (job_at (pauseJob 0 hls_enqueued) 0) = Some Paused
  /\ option_map state (job_at (handleNativeMessage 0 NDone (pauseJob 0 hls_enqueued)) 0) = Some Complete.
Proof.
  split; [vm_compute; left; reflexivity|]. split; [vm_compute; intros []|].
  destruct (job_at hls_enqueued 0) as [j|] eqn:Hj; [|vm_compute in Hj; discriminate Hj].
  apply (pause_then_done_completes 0 j hls_enqueued); [vm_compute; left; reflexivity|vm_compute; intros []|exact Hj].
Defined.

End QueuePauseFacts.

Module GetStringMapFacts.
Import Ipc IpcGet.

Lemma GetStringMap_absent k m : ~ In k (map fst m) -> Queue.lookup k (GetStringMap m) = None.
Proof.
  induction m as [|[k' v] m IH]; intros H; [reflexivity|].
  cbn [map fst In] in H. unfold GetStringMap. cbn [fold_right snd fst]. fold (GetStringMap m).
  destruct v; try (apply IH; tauto).
  cbn [Queue.lookup]. destruct (String.eqb_spec k k') as [->|_]; [tauto|]. apply IH; tauto.
Qed.

(** [X24] On a map with distinct keys, [GetStringMap] keeps exactly the entries
    whose value is a string: a key maps to its string value, and a key with
    a number, boolean, null, array or object value is dropped. *)
Theorem GetStringMap_lookup m k :
  NoDup (map fst m) ->
  Queue.lookup k (GetStringMap m)
  = match lookup_val k m with Some (GStr s) => Some s | _ => None end.
Proof.
  induction m as [|[k' v] m IH]; intros Hnd; [reflexivity|].
  inversion Hnd as [|? ? Hk Hnd']; subst. cbn [lookup_val].
  unfold GetStringMap. cbn [fold_right snd fst]. fold (GetStringMap m).
  destruct (String.eqb_spec k k') as [->|Hne].
  - destruct v; try (apply GetStringMap_absent; exact Hk).
    cbn [Queue.lookup]. rewrite String.eqb_refl. reflexivity.
  - destruct v; try (apply IH; exact Hnd').
    cbn [Queue.lookup]. apply String.eqb_neq in Hne. rewrite Hne. apply IH, Hnd'.
Qed.

Lemma GetStringMap_lookup_witness :
  NoDup (map fst [("Referer", GStr "https://example.com/"); ("X-Retry", GFloat 3)])
  /\ Queue.lookup "X-Retry" (GetStringMap [("Referer", GStr "https://example.com/"); ("X-Retry", GFloat 3)])
     = None.
Proof.
  split; [cbn; constructor; [intros [H|[]]; discriminate H|constructor; [intros []|constructor]]|].
  apply (GetStringMap_lookup [("Referer", GStr "https://example.com/"); ("X-Retry", GFloat 3)] "X-Retry").
  cbn; constructor; [intros [H|[]]; discriminate H|constructor; [intros []|constructor]].
Defined.

End GetStringMapFacts.

Module HostFacts.
Import Ipc IpcGet JsonDefs JsonFacts GoJob GoJobFacts.

(** [X4] When the next frame is a message of 7-bit string fields whose
    "type" is "shutdown", the host's main loop returns at once: the job
    manager and the actions so far are unchanged, and whatever follows the
    frame is never read. *)
Theorem host_stops_at_shutdown sm rest f m acts :
  Forall ok_kv sm -> NoDup (map fst sm) ->
  (N.of_nat (String.length (Marshal (GMap (str_msg sm)))) < 4294967296)%N ->
  Queue.lookup "type" sm = Some "shutdown" ->
  Host.hostLoop (S f) (Send (str_msg sm) ++ rest) m acts = (m, acts).
Proof.
  intros Hok Hnd Hlen Ht. cbn [Host.hostLoop]. rewrite read_str_msg by assumption.
  cbv zeta. rewrite GetString_sorted, Ht by exact Hnd. reflexivity.
Qed.



(** [X25] A 'cancel' frame sent twice in a row has the same effect on the host's
    main loop as sent once: the second [Manager.Cancel] finds no job and
    sends nothing. *)
Theorem host_duplicate_cancel sm rest f m acts :
  Forall ok_kv sm -> NoDup (map fst sm) ->
  (N.of_nat (String.length (Marshal (GMap (str_msg sm)))) < 4294967296)%N ->
  Queue.lookup "type" sm = Some "cancel" ->
  Host.hostLoop (S (S f)) (Send (str_msg sm) ++ Send (str_msg sm) ++ rest) m acts
  = Host.hostLoop (S f) (Send (str_msg sm) ++ rest) m acts.
Proof.
  intros Hok Hnd Hlen Ht. cbn [Host.hostLoop].
  rewrite !read_str_msg by assumption. cbv zeta.
  rewrite GetString_sorted, Ht by exact Hnd. cbn - [Host.hostLoop Cancel GetString].
  f_equal. set (id := GetString _ "id").
  unfold Cancel at 2. destruct (find_job id (mjobs m)) as [c|] eqn:E.
  - unfold Cancel. rewrite E. cbn [mjobs]. rewrite find_del. reflexivity.
  - unfold Cancel. rewrite E. reflexivity.
Qed.

Lemma host_stops_at_shutdown_witness :
  Queue.lookup "type" shutdown_msg = Some "shutdown"
  /\ Host.hostLoop 1 (Send (str_msg shutdown_msg) ++ "more frames") GoJob.empty []
     = (GoJob.empty, []).
Proof.
  split; [reflexivity|].
  apply (host_stops_at_shutdown shutdown_msg "more frames" 0 GoJob.empty []);
    [apply shutdown_msg_ok|apply shutdown_msg_ok|vm_compute; reflexivity|reflexivity].
Defined.

Lemma cancel_msg_ok : Forall ok_kv cancel_msg /\ NoDup (map fst cancel_msg).
Proof.
  split.
  - unfold cancel_msg, ok_kv. repeat constructor.
  - cbn. constructor; [intros [H|[]]; discriminate|constructor; [intros []|constructor]].
Qed.

Lemma host_duplicate_cancel_witness :
  Queue.lookup "type" cancel_msg = Some "cancel"
  /\ Host.hostLoop 2 (Send (str_msg cancel_msg) ++ Send (str_msg cancel_msg) ++ "") GoJob.empty []
     = Host.hostLoop 1 (Send (str_msg cancel_msg) ++ "") GoJob.empty [].
Proof.
  split; [reflexivity|].
  apply (host_duplicate_cancel cancel_msg "" 0 GoJob.empty []);
    [apply cancel_msg_ok|apply cancel_msg_ok|vm_compute; reflexivity|reflexivity].
Defined.

End HostFacts.
